(** * remix-stack: the edge request gate and the scaffold initializer

    A shallow embedding of the two programs of the repository:

    - the Express server ([Server]): the header-stamping / trailing-slash
      middleware and the [getReplaceResponse] replay gate, followed by the
      compression, static and application layers;
    - the one-shot initializer [remix.init/index.js] ([Init]): the
      package-manager command table, the package-manifest rewrite, the
      environment-file rewrite, the batched file operations and the
      interactive question flow.

    JavaScript strings are sequences of UTF-16 code units; they are
    modelled as [list N], one number per code unit, so that [length],
    [slice], character classes and [.] in regular expressions count what
    the JavaScript engine counts.  Objects used as dictionaries are [gmap]s
    keyed by such strings. *)

From Stdlib Require Import NArith ZArith String Ascii List Lia Bool.
From stdpp Require Import base gmap list strings option pretty.

Set Default Proof Using "Type".

(** ** JavaScript strings and the string methods the sources call *)

Module JS.

Definition jsstring : Type := list N.

(** A literal of the source, code unit by code unit (ASCII literals only). *)
Definition js (s : string) : jsstring :=
  map N_of_ascii (list_ascii_of_string s).

(** Decimal rendering of a number inside a template literal. *)
Definition numberToString (n : N) : jsstring := js (pretty n).

Definition SLASH : N := 47.
Definition HYPHEN : N := 45.
Definition UNDERSCORE : N := 95.
Definition DQUOTE : N := 34.

(** [s.startsWith(p)] *)
Fixpoint startsWith (p s : jsstring) : bool :=
  match p, s with
  | [], _ => true
  | _ :: _, [] => false
  | a :: p', b :: s' => (a =? b)%N && startsWith p' s'
  end.

(** [s.endsWith(p)] *)
Definition endsWith (p s : jsstring) : bool :=
  (length p <=? length s)%nat
  && bool_decide (drop (length s - length p) s = p).

(** The index arithmetic of [String.prototype.slice]: a negative index
    counts from the end, and both ends are clamped to the string. *)
Definition clampIndex (len : nat) (i : Z) : nat :=
  if (i <? 0)%Z then Z.to_nat (Z.max (Z.of_nat len + i) 0)
  else Nat.min (Z.to_nat i) len.

(** [s.slice(from, to)] *)
Definition slice (s : jsstring) (from to : Z) : jsstring :=
  let a := clampIndex (length s) from in
  let b := clampIndex (length s) to in
  take (b - a) (drop a s).

(** [s.slice(from)] *)
Definition sliceFrom (s : jsstring) (from : Z) : jsstring :=
  drop (clampIndex (length s) from) s.

(** [arr.includes(x)] on an array of strings. *)
Definition includes (arr : list jsstring) (x : jsstring) : bool :=
  bool_decide (x ∈ arr).

(** [s.replace(pat, rep)] with a string pattern: the first occurrence only.
    The replacement strings of the sources contain no [$], so no
    replacement pattern is expanded. *)
Fixpoint replaceFirst (pat rep s : jsstring) : jsstring :=
  if startsWith pat s then rep ++ drop (length pat) s
  else match s with
       | [] => []
       | c :: s' => c :: replaceFirst pat rep s'
       end.

(** [s.replace(new RegExp(pat, 'g'), rep)] for a literal, non-empty [pat]:
    every occurrence, leftmost first, without overlap.  [skip] counts the
    code units of a match still to be dropped. *)
Fixpoint replaceAllFrom (pat rep : jsstring) (skip : nat) (s : jsstring)
  : jsstring :=
  match s with
  | [] => []
  | c :: s' =>
      match skip with
      | S k => replaceAllFrom pat rep k s'
      | O =>
          if startsWith pat s
          then rep ++ replaceAllFrom pat rep (length pat - 1) s'
          else c :: replaceAllFrom pat rep 0 s'
      end
  end.

Definition replaceAll (pat rep s : jsstring) : jsstring :=
  replaceAllFrom pat rep 0 s.

(** [s.replace(/\/+/g, '/')]: every maximal run of separators becomes one
    separator.  A separator followed by another one is dropped, so each run
    is emitted once, at its last code unit. *)
Fixpoint collapseSlashes (s : jsstring) : jsstring :=
  match s with
  | [] => []
  | c :: rest =>
      if (c =? SLASH)%N
      then match rest with
           | d :: _ =>
               if (d =? SLASH)%N then collapseSlashes rest
               else c :: collapseSlashes rest
           | [] => [c]
           end
      else c :: collapseSlashes rest
  end.

(** No two adjacent separators. *)
Fixpoint noSlashRun (s : jsstring) : bool :=
  match s with
  | a :: (b :: _) as rest =>
      negb ((a =? SLASH)%N && (b =? SLASH)%N) && noSlashRun rest
  | _ => true
  end.

(** ECMAScript [LineTerminator]: LF, CR, U+2028, U+2029.  In a regular
    expression [.] matches every code unit but these, and with the [m]
    flag [^] and [$] match next to them. *)
Definition isLineTerminator (c : N) : bool :=
  (c =? 10)%N || (c =? 13)%N || (c =? 8232)%N || (c =? 8233)%N.

(** Values that the sources test for truthiness. *)
Inductive value : Type :=
  | VUndefined
  | VBool (b : bool)
  | VStr (s : jsstring).

Global Instance value_eq_dec : EqDecision value.
Proof. solve_decision. Defined.

Definition truthy (v : value) : bool :=
  match v with
  | VUndefined => false
  | VBool b => b
  | VStr [] => false
  | VStr (_ :: _) => true
  end.

(** [a && b] yields [a] when [a] is falsy and [b] otherwise. *)
Definition and_ (a b : value) : value := if truthy a then b else a.

(** [a !== b] *)
Definition strictNe (a b : value) : value :=
  VBool (negb (bool_decide (a = b))).

(** A value interpolated in a template literal. *)
Definition template (v : value) : jsstring :=
  match v with
  | VUndefined => js "undefined"
  | VBool true => js "true"
  | VBool false => js "false"
  | VStr s => s
  end.

(** [a || b] *)
Definition or_ (a b : value) : value := if truthy a then a else b.

(** ECMAScript [WhiteSpace] and [LineTerminator], what [trim] removes. *)
Definition isWhiteSpace (c : N) : bool :=
  isLineTerminator c
  || (c =? 9)%N || (c =? 11)%N || (c =? 12)%N || (c =? 32)%N
  || (c =? 160)%N || (c =? 5760)%N
  || ((8192 <=? c)%N && (c <=? 8202)%N)
  || (c =? 8239)%N || (c =? 8287)%N || (c =? 12288)%N || (c =? 65279)%N.

Fixpoint trimStart (s : jsstring) : jsstring :=
  match s with
  | [] => []
  | c :: rest => if isWhiteSpace c then trimStart rest else s
  end.

(** [s.trim()] *)
Definition trim (s : jsstring) : jsstring :=
  rev (trimStart (rev (trimStart s))).

End JS.

Import JS.

(** ** The Express server (server entry file) *)

Module Server.

(** The part of [req] the middleware read.  [req.url] is the request
    target as the client sent it and [req.path] the path name Express
    parses out of it: for a target in origin form the URL is the path
    name followed by the raw query, for one in absolute form it begins
    with the scheme and the host. *)
Record Request : Type := mkRequest {
  method : jsstring;
  path : jsstring;
  url : jsstring
}.

(** The part of [process.env] the middleware read: a variable is either
    absent ([None], JavaScript [undefined]) or a string, possibly empty. *)
Record ProcessEnv : Type := mkEnv {
  FLY_REGION : option jsstring;
  PRIMARY_REGION : option jsstring
}.

Definition envValue (v : option jsstring) : value :=
  match v with
  | None => VUndefined
  | Some s => VStr s
  end.

(** What [console.info] is given by the replay gate. *)
Record LogInfo : Type := mkLogInfo {
  log_pathname : jsstring;
  log_method : jsstring;
  log_PRIMARY_REGION : value;
  log_FLY_REGION : value
}.

(** The state a handler can change: the headers set on [res] so far and the
    lines written to the console. *)
Record State : Type := mkState {
  headers : gmap jsstring jsstring;
  console : list LogInfo
}.

(** What a handler can throw: the error of Node for a header value it
    refuses, or an error of a library layer. *)
Inductive Error : Type :=
  | ERR_INVALID_CHAR
  | LibraryError (message : jsstring).

(** A call that returns or throws. *)
Inductive Attempt (A : Type) : Type :=
  | Done (a : A)
  | Thrown (e : Error).
Arguments Done {A} a.
Arguments Thrown {A} e.

(** The code units Node accepts in a header value: it refuses a value
    that matches [/[^\t\x20-\x7e\x80-\xff]/]. *)
Definition isHeaderChar (c : N) : bool :=
  (c =? 9)%N
  || ((32 <=? c)%N && (c <=? 126)%N)
  || ((128 <=? c)%N && (c <=? 255)%N).

Definition isHeaderValue (v : jsstring) : bool := forallb isHeaderChar v.

(** The response with one more header. *)
Definition withHeader (field val : jsstring) (st : State) : State :=
  {| headers := <[field := val]> (headers st); console := console st |}.

(** [res.set(field, value)]: Express hands the value to [res.setHeader]
    of Node, which throws [ERR_INVALID_CHAR] when the value is no legal
    header value and leaves the response as it was.  The field names of
    this file are literals that Node accepts. *)
Definition set (field val : jsstring) (st : State) : Attempt State :=
  if isHeaderValue val then Done (withHeader field val st)
  else Thrown ERR_INVALID_CHAR.

Definition info (l : LogInfo) (st : State) : State :=
  {| headers := headers st; console := console st ++ [l] |}.

(** How a handler ends the response. *)
Inductive Reply : Type :=
  | Redirect (status : N) (target : jsstring)   (* [res.redirect(status, target)] *)
  | SendStatus (status : N)                     (* [res.sendStatus(status)] *)
  | Served (what : jsstring).                   (* a reply of an external layer *)

(** A handler calls [next()], ends the response, or throws; [st] is the
    response as the handler leaves it. *)
Inductive Outcome : Type :=
  | Next (st : State)
  | End (st : State) (r : Reply)
  | Fail (st : State) (e : Error).

Definition Handler : Type := Request → State → Outcome.

(** A statement [res.set(field, value);] followed by the rest of the
    handler: when the call throws, the handler ends there. *)
Definition setThen (field val : jsstring) (st : State)
    (rest : State → Outcome) : Outcome :=
  match set field val st with
  | Done st' => rest st'
  | Thrown e => Fail st e
  end.

(** The first [app.use]: header stamping and trailing-slash redirect. *)
Definition stampAndNormalize (env : ProcessEnv) : Handler := λ req st,
  setThen (js "x-fly-region") (default (js "unknown") (FLY_REGION env)) st
    (λ st,
  setThen (js "Strict-Transport-Security")
          (js "max-age=" ++ numberToString (60 * 60 * 24 * 365 * 100)) st
    (λ st,
  if endsWith (js "/") (path req) && (1 <? length (path req))%nat then
    let query := sliceFrom (url req) (Z.of_nat (length (path req))) in
    let safepath := collapseSlashes (slice (path req) 0 (-1)) in
    End st (Redirect 301 (safepath ++ query))
  else Next st)).

(** [getReplaceResponse], the handler of [app.all('*', ...)]. *)
Definition isMethodReplayable (req : Request) : value :=
  VBool (negb (includes [js "GET"; js "OPTIONS"; js "HEAD"] (method req))).

Definition isReadOnlyRegion (env : ProcessEnv) : value :=
  let FLY := envValue (FLY_REGION env) in
  let PRIMARY := envValue (PRIMARY_REGION env) in
  and_ (and_ FLY PRIMARY) (strictNe FLY PRIMARY).

Definition shouldReply (env : ProcessEnv) (req : Request) : value :=
  and_ (isMethodReplayable req) (isReadOnlyRegion env).

Definition getReplaceResponse (env : ProcessEnv) : Handler := λ req st,
  if negb (truthy (shouldReply env req)) then Next st
  else
    let logInfo := {| log_pathname := path req;
                      log_method := method req;
                      log_PRIMARY_REGION := envValue (PRIMARY_REGION env);
                      log_FLY_REGION := envValue (FLY_REGION env) |} in
    let st := info logInfo st in
    setThen (js "fly-replay")
            (js "region=" ++ template (envValue (PRIMARY_REGION env))) st
      (λ st, End st (SendStatus 409)).

(** The layers of the application, in registration order. *)
Inductive Layer : Type :=
  | LStampAndNormalize
  | LReplayGate
  | LCompression
  | LStaticBuild
  | LStaticPublic
  | LMorgan
  | LRemix.

Global Instance Layer_eq_dec : EqDecision Layer.
Proof. solve_decision. Defined.

(** What a request ends with: a reply of some layer; a layer threw
    (Express then skips the layers that follow, none of which handles
    errors, and its final handler answers with status 500; [st] is the
    response as the layer left it); or no layer replied (Express then
    answers with its default not-found reply). *)
Inductive Result : Type :=
  | Replied (by_ : Layer) (st : State) (r : Reply)
  | Failed (by_ : Layer) (st : State) (e : Error)
  | Unhandled (st : State).

(** Express runs the layers in order; [next()] hands over to the following
    layer.  The visited layers are recorded, first visited first. *)
Fixpoint dispatch (stack : list (Layer * Handler)) (req : Request)
    (st : State) : list Layer * Result :=
  match stack with
  | [] => ([], Unhandled st)
  | (l, h) :: rest =>
      match h req st with
      | Next st' =>
          let '(visited, r) := dispatch rest req st' in (l :: visited, r)
      | End st' r => ([l], Replied l st' r)
      | Fail st' e => ([l], Failed l st' e)
      end
  end.

(** The state of a fresh response. *)
Definition st0 : State := {| headers := ∅; console := [] |}.

Section App.

(** The layers taken from libraries: [compression()], the two
    [express.static] mounts, [morgan('tiny')] and the Remix request
    handler.  A static mount calls [next()] when no file matches. *)
Variables (compression staticBuild staticPublic morgan remix : Handler).

Definition app (env : ProcessEnv) : list (Layer * Handler) :=
  [ (LStampAndNormalize, stampAndNormalize env);
    (LReplayGate, getReplaceResponse env);
    (LCompression, compression);
    (LStaticBuild, staticBuild);
    (LStaticPublic, staticPublic);
    (LMorgan, morgan);
    (LRemix, remix) ].

Definition handle (env : ProcessEnv) (req : Request) : list Layer * Result :=
  dispatch (app env) req st0.

End App.

(** When the gate replays, as the source decides it: an unsafe method, and
    two region variables that are non-empty strings and differ. *)
Definition replayCondition (env : ProcessEnv) (req : Request) : Prop :=
  (method req ∉ [js "GET"; js "OPTIONS"; js "HEAD"])
  ∧ ∃ f p, FLY_REGION env = Some f ∧ PRIMARY_REGION env = Some p
           ∧ f ≠ [] ∧ p ≠ [] ∧ f ≠ p.

(** A region variable that is unset, or set to a legal header value. *)
Definition legalRegion (v : option jsstring) : Prop :=
  ∀ s, v = Some s → isHeaderValue s = true.

(** The same in the words of the specification: both variables set, and
    different. *)
Definition spec_replayCondition (env : ProcessEnv) (req : Request) : Prop :=
  (method req ∉ [js "GET"; js "HEAD"; js "OPTIONS"])
  ∧ is_Some (FLY_REGION env) ∧ is_Some (PRIMARY_REGION env)
  ∧ FLY_REGION env ≠ PRIMARY_REGION env.

(** The gate answers 409 with a [fly-replay] header naming the primary
    region. *)
Definition replays (env : ProcessEnv) (req : Request) (st : State) : Prop :=
  ∃ p st', PRIMARY_REGION env = Some p
    ∧ getReplaceResponse env req st = End st' (SendStatus 409)
    ∧ headers st' !! js "fly-replay" = Some (js "region=" ++ p).

(** The canonical path in the words of the specification: all trailing
    separators stripped, then every run of separators collapsed. *)
Fixpoint stripTrailingSlashes (p : jsstring) : jsstring :=
  match p with
  | [] => []
  | c :: rest =>
      match stripTrailingSlashes rest with
      | [] => if (c =? SLASH)%N then [] else [c]
      | r => c :: r
      end
  end.

Definition spec_canonicalPath (p : jsstring) : jsstring :=
  collapseSlashes (stripTrailingSlashes p).

(** The redirect in the words of the specification: status 301, to the
    canonical path followed by the query. *)
Definition spec_redirects (env : ProcessEnv) (req : Request) (st : State)
    (query : jsstring) : Prop :=
  ∃ st', stampAndNormalize env req st =
           End st' (Redirect 301 (spec_canonicalPath (path req) ++ query)).

(** Sample environments and requests. *)
Definition lhr_iad : ProcessEnv :=
  {| FLY_REGION := Some (js "lhr"); PRIMARY_REGION := Some (js "iad") |}.

Definition empty_iad : ProcessEnv :=
  {| FLY_REGION := Some []; PRIMARY_REGION := Some (js "iad") |}.

Definition postWidgets : Request :=
  {| method := js "POST"; path := js "/api/widgets"; url := js "/api/widgets" |}.

Definition postPostsSlash : Request :=
  {| method := js "POST"; path := js "/posts/"; url := js "/posts/" |}.

Definition getPostsDoubleSlash : Request :=
  {| method := js "GET"; path := js "/posts//"; url := js "/posts//" |}.

Definition getPostsPage2 : Request :=
  {| method := js "GET"; path := js "/posts/"; url := js "/posts/?page=2" |}.

(** A request whose target is in absolute form,
    [GET http://example.org/posts/ HTTP/1.1]: the URL is the target as
    sent, the path is its path name. *)
Definition getAbsoluteForm : Request :=
  {| method := js "GET"; path := js "/posts/";
     url := js "http://example.org/posts/" |}.

(** A primary region that no header can carry: [i], U+2713, [ad]. *)
Definition lhr_check : ProcessEnv :=
  {| FLY_REGION := Some (js "lhr");
     PRIMARY_REGION := Some ([105%N; 10003%N] ++ js "ad") |}.

(** The same for the current region. *)
Definition check_iad : ProcessEnv :=
  {| FLY_REGION := Some ([108%N; 10003%N] ++ js "hr");
     PRIMARY_REGION := Some (js "iad") |}.


(** *** Notions for the two own layers together *)

(** The line the gate writes to the console. *)
Definition replayLog (env : ProcessEnv) (req : Request) : LogInfo :=
  {| log_pathname := path req;
     log_method := method req;
     log_PRIMARY_REGION := envValue (PRIMARY_REGION env);
     log_FLY_REGION := envValue (FLY_REGION env) |}.

(** The state a handler leaves, whether it ends the response or not. *)
Definition outcomeState (o : Outcome) : State :=
  match o with
  | Next st => st
  | End st _ => st
  | Fail st _ => st
  end.

(** A fresh response once the first layer has stamped it. *)
Definition stamped (env : ProcessEnv) : State :=
  {| headers :=
       <[js "Strict-Transport-Security" := js "max-age=3153600000"]>
       (<[js "x-fly-region" := default (js "unknown") (FLY_REGION env)]> ∅);
     console := [] |}.

(** The test of the first layer: the path ends with a separator and is
    longer than one code unit. *)
Definition hasTrailingSlash (req : Request) : Prop :=
  endsWith (js "/") (path req) = true ∧ (1 < length (path req))%nat.

(** The path of the redirect target, [safepath] in the source. *)
Definition safepath (req : Request) : jsstring :=
  collapseSlashes (slice (path req) 0 (-1)).

Section Library.

Variables (compression staticBuild staticPublic morgan remix : Handler).

(** The layers registered after the replay gate. *)
Definition libraryLayers : list (Layer * Handler) :=
  [ (LCompression, compression);
    (LStaticBuild, staticBuild);
    (LStaticPublic, staticPublic);
    (LMorgan, morgan);
    (LRemix, remix) ].

End Library.

(** *** The build in development *)

(** [path.join(process.cwd(), 'build')] *)
Definition BUILD_DIR (cwd : jsstring) : jsstring := cwd ++ SLASH :: js "build".

Section Build.

(** A loaded module, as [require.cache] holds it by resolved file name. *)
Context {Mod : Type}.

(** One turn of the loop of [purgeRequiredCache]. *)
Definition purgeKey (buildDir : jsstring) (cache : gmap jsstring Mod)
    (key : jsstring) : gmap jsstring Mod :=
  if startsWith buildDir key then delete key cache else cache.

(** [purgeRequiredCache]: the keys of [require.cache] are visited, and a
    key that starts with the build directory is deleted.  The order of
    the visit is that of the enumeration of the keys. *)
Definition purgeRequiredCache (buildDir : jsstring)
    (cache : gmap jsstring Mod) : gmap jsstring Mod :=
  foldl (purgeKey buildDir) cache (map_to_list cache).*1.

(** What Node and Remix provide: [require] as a function of the cache it
    finds, yielding the cache it leaves and the exports of the module,
    and [createRequestHandler] with its [build] and [mode]. *)
Variable require : gmap jsstring Mod → jsstring → gmap jsstring Mod * Mod.
Variable createRequestHandler : Mod → value → Handler.

(** The handler of the last [app.all] outside production: the cache is
    purged, the build required, and the request handed to a handler
    created for that build. *)
Definition developmentHandler (MODE : value) (buildDir : jsstring)
    (cache : gmap jsstring Mod) (req : Request) (st : State)
  : gmap jsstring Mod * Outcome :=
  let cache := purgeRequiredCache buildDir cache in
  let '(cache, build) := require cache buildDir in
  let requestHandler := createRequestHandler build MODE in
  (cache, requestHandler req st).

End Build.

(** More sample requests, and a module cache with a stale build. *)
Definition getProtocolRelative : Request :=
  {| method := js "GET"; path := js "//example.org/";
     url := js "//example.org/" |}.



Definition staleCache : gmap jsstring jsstring :=
  <[js "/app/build/index.js" := js "stale"]>
  (<[js "/app/node_modules/express/index.js" := js "express"]> ∅).

Definition freshCache : gmap jsstring jsstring :=
  <[js "/app/node_modules/express/index.js" := js "express"]> ∅.

(** A [require] that loads what is not cached, and a handler that serves
    the build it was created for. *)
Definition sampleRequire (cache : gmap jsstring jsstring)
    (request : jsstring) : gmap jsstring jsstring * jsstring :=
  let filename := request ++ js "/index.js" in
  match cache !! filename with
  | Some m => (cache, m)
  | None => (<[filename := js "fresh"]> cache, js "fresh")
  end.

Definition sampleCreateRequestHandler (build : jsstring) (mode : value)
  : Handler := λ req st, End st (Served build).

End Server.

(** ** The initializer (remix.init/index.js) *)

Module Init.

(** *** Errors and results *)

Inductive ErrorKind : Type :=
  | TypeError          (* calling or reading through [undefined] *)
  | ENOENT             (* no such file or directory *)
  | EACCES             (* operation not permitted on the path *)
  | EISDIR             (* a directory where a file is needed *)
  | SyntaxError        (* a parser rejected its input *)
  | ESCRIPTSINVALID    (* @npmcli/package-json: a script that is no string *)
  | CommandFailed      (* [execSync]: the command exited non-zero *)
  | PromptNotRendered  (* inquirer: no interactive terminal *)
  | PromptCancelled.   (* inquirer: the user closed the prompt *)

(** A thrown value: its kind and what reading [error.isTtyError] yields
    ([VUndefined] when the property is absent). *)
Record Error : Type := mkError {
  kind : ErrorKind;
  isTtyError : value
}.

Definition plain (k : ErrorKind) : Error :=
  {| kind := k; isTtyError := VUndefined |}.

Inductive Result (A : Type) : Type :=
  | Ok (a : A)
  | Throw (e : Error).
Arguments Ok {A} a.
Arguments Throw {A} e.

Definition isOk {A} (r : Result A) : bool :=
  match r with Ok _ => true | Throw _ => false end.

(** *** Files *)

Inductive Node : Type :=
  | File (content : jsstring)
  | Directory.

Abbreviation Files := (gmap jsstring Node).

(** [path.join(a, b)] for a normalized [a] and a relative [b] without dot
    segments: the two joined by one separator. *)
Definition join (a b : jsstring) : jsstring := a ++ SLASH :: b.

(** [path.basename(p)] (POSIX): the last segment of [p], trailing
    separators ignored.  The scan goes from the left and keeps the segment
    collected since the last separator and the last complete segment. *)
Fixpoint basenameFrom (cur last : jsstring) (p : jsstring) : jsstring :=
  match p with
  | [] => match cur with [] => last | _ => cur end
  | c :: rest =>
      if (c =? SLASH)%N
      then basenameFrom [] (match cur with [] => last | _ => cur end) rest
      else basenameFrom (cur ++ [c]) last rest
  end.

Definition basename (p : jsstring) : jsstring := basenameFrom [] [] p.

(** An operation of [fs/promises] started by the batch. *)
Inductive FileOp : Type :=
  | WriteFile (p : jsstring) (content : jsstring)
  | CopyFile (src dst : jsstring)
  | Rm (p : jsstring) (recursive : bool).

(** [q] lies inside the directory [p]. *)
Definition under (p q : jsstring) : bool := startsWith (p ++ [SLASH]) q.

(** The state of the disk: the nodes by path, and the paths at which a
    write, a copy destination or a removal fails whatever the content
    (permissions, missing parent directory, full disk, ...). *)
Record Disk : Type := mkDisk {
  files : Files;
  locked : gset jsstring
}.

Definition withFiles (d : Disk) (f : Files) : Disk :=
  {| files := f; locked := locked d |}.

(** [fs.readFile(p, 'utf-8')] *)
Definition readFile (d : Disk) (p : jsstring) : Result jsstring :=
  match files d !! p with
  | Some (File c) => Ok c
  | Some Directory => Throw (plain EISDIR)
  | None => Throw (plain ENOENT)
  end.

Definition writeFile (d : Disk) (p content : jsstring) : Result Disk :=
  if bool_decide (p ∈ locked d) then Throw (plain EACCES)
  else match files d !! p with
       | Some Directory => Throw (plain EISDIR)
       | _ => Ok (withFiles d (<[p := File content]> (files d)))
       end.

(** One operation, run to completion: the new disk, or the rejection that
    leaves the disk as it was. *)
Definition perform (op : FileOp) (d : Disk) : Result Disk :=
  match op with
  | WriteFile p content => writeFile d p content
  | CopyFile src dst =>
      match readFile d src with
      | Ok c => writeFile d dst c
      | Throw e => Throw e
      end
  | Rm p recursive =>
      match files d !! p with
      | None => Throw (plain ENOENT)
      | Some n =>
          if bool_decide (p ∈ locked d) then Throw (plain EACCES)
          else match n with
               | File _ => Ok (withFiles d (delete p (files d)))
               | Directory =>
                   if recursive
                   then Ok (withFiles d
                              (filter (λ kv, negb (under p kv.1) = true)
                                      (delete p (files d))))
                   else Throw (plain EISDIR)
               end
      end
  end.

(** The disk after an operation has settled, fulfilled or rejected. *)
Definition settle (d : Disk) (op : FileOp) : Disk :=
  match perform op d with
  | Ok d' => d'
  | Throw _ => d
  end.

(** Starting a list of operations.  The operations run concurrently; here
    each one takes effect on the disk the earlier ones of the list left,
    and the outcomes of the promises are kept in the order of the list.
    For the operations of the initializer every other order leaves the
    same disk ([batch_order_irrelevant]). *)
Fixpoint start (ops : list FileOp) (d : Disk) : Disk * list (Result unit) :=
  match ops with
  | [] => (d, [])
  | op :: rest =>
      let r := perform op d in
      let '(d', rs) := start rest (settle d op) in
      (d', (match r with Ok _ => Ok tt | Throw e => Throw e end) :: rs)
  end.

(** [Promise.all(promises)]: rejected with a rejection of its members when
    there is one, fulfilled otherwise. *)
Fixpoint promiseAll (rs : list (Result unit)) : Result unit :=
  match rs with
  | [] => Ok tt
  | Ok _ :: rest => promiseAll rest
  | Throw e :: _ => Throw e
  end.

(** [try { await p } catch (error) { }] *)
Definition tryCatchEmpty (r : Result unit) : Result unit :=
  match r with
  | Ok _ => Ok tt
  | Throw _ => Ok tt
  end.

(** *** The application name *)

(** The class [[a-zA-Z0-9-_]] of the sanitizing regular expression. *)
Definition isAppNameChar (c : N) : bool :=
  ((97 <=? c)%N && (c <=? 122)%N)
  || ((65 <=? c)%N && (c <=? 90)%N)
  || ((48 <=? c)%N && (c <=? 57)%N)
  || (c =? HYPHEN)%N
  || (c =? UNDERSCORE)%N.

(** [s.replace(/[^a-zA-Z0-9-_]/g, '-')]: the expression matches one code
    unit at a time, so the global replacement is a map. *)
Definition replaceDisallowed (s : jsstring) : jsstring :=
  map (λ c, if isAppNameChar c then c else HYPHEN) s.

Definition DIR_NAME (rootDirectory : jsstring) : jsstring :=
  basename rootDirectory.

Definition APP_NAME (rootDirectory : jsstring) : jsstring :=
  replaceDisallowed (DIR_NAME rootDirectory).

(** *** The session secret *)

Definition hexDigit (d : N) : N :=
  if (d <? 10)%N then (48 + d)%N else (87 + d)%N.

(** [buffer.toString('hex')] *)
Definition toHex (bytes : list N) : jsstring :=
  flat_map (λ b, [hexDigit (b / 16); hexDigit (b mod 16)]) bytes.

Definition isHexDigit (c : N) : bool :=
  ((48 <=? c)%N && (c <=? 57)%N) || ((97 <=? c)%N && (c <=? 102)%N).

Definition SESSION_SECRET_ASSIGN : jsstring := js "SESSION_SECRET=".

(** What [.*] consumes is dropped: the rest of the input from the next
    line terminator on, where [$] matches. *)
Fixpoint afterLine (s : jsstring) : jsstring :=
  match s with
  | [] => []
  | c :: rest => if isLineTerminator c then s else afterLine rest
  end.

(** [env.replace(/^SESSION_SECRET=.*$/m, rep)]: the leftmost match is
    replaced, and only that one (the expression has no [g] flag).
    [lineStart] tells whether [^] matches at the current position. *)
Fixpoint replaceSessionSecretFrom (lineStart : bool) (rep s : jsstring)
  : jsstring :=
  if lineStart && startsWith SESSION_SECRET_ASSIGN s
  then rep ++ afterLine (drop (length SESSION_SECRET_ASSIGN) s)
  else match s with
       | [] => []
       | c :: rest =>
           c :: replaceSessionSecretFrom (isLineTerminator c) rep rest
       end.

Definition replaceSessionSecret (rep env : jsstring) : jsstring :=
  replaceSessionSecretFrom true rep env.

(** *** The package manifest *)

(** The fields of [packageJson.content] that the initializer or
    [packageJson.update] read or write; the other fields are kept as they
    were parsed.  The order of the keys of an object is not modelled. *)
Record PackageContent : Type := mkPackageContent {
  pkg_name : value;
  dependencies : option (gmap jsstring jsstring);
  devDependencies : option (gmap jsstring jsstring);
  peerDependencies : option (gmap jsstring jsstring);
  scripts : option (gmap jsstring value);
  pkg_others : gmap jsstring jsstring
}.

(** Reading a property of an object: [undefined] when it is absent. *)
Definition prop (o : gmap jsstring value) (k : jsstring) : value :=
  default VUndefined (o !! k).

Definition removeUnusedDependencies (dependencies : gmap jsstring jsstring)
    (unusedDependencies : list jsstring) : gmap jsstring jsstring :=
  filter (λ kv, negb (includes unusedDependencies kv.1) = true) dependencies.

(** The object [updatePackageJson] hands to [packageJson.update]: a name,
    dev dependencies ([undefined] when the manifest has none and they are
    passed on as they are) and scripts. *)
Record Update : Type := mkUpdate {
  upd_name : jsstring;
  upd_devDependencies : option (gmap jsstring jsstring);
  upd_scripts : gmap jsstring value
}.

Definition isString (v : value) : bool :=
  match v with
  | VStr _ => true
  | _ => false
  end.

(** An object of dependencies, or nothing in its place when it is
    empty. *)
Definition pruneEmpty (deps : gmap jsstring jsstring)
  : option (gmap jsstring jsstring) :=
  if bool_decide (deps = ∅) then None else Some deps.

(** The first step of [packageJson.update]: dependencies of a type given
    in the update replace those of the manifest, and a type given as an
    empty object is pruned from the manifest; the update of the
    initializer gives the dev dependencies only.  A dependency of the
    manifest that is also one of its peer dependencies takes the range
    of the peer dependency. *)
Definition updateDependencies (u : Update) (original : PackageContent)
  : PackageContent :=
  {| pkg_name := pkg_name original;
     dependencies :=
       match dependencies original, peerDependencies original with
       | Some prod, Some peer =>
           Some (map_imap (λ name range, Some (default range (peer !! name)))
                          prod)
       | prod, _ => prod
       end;
     devDependencies :=
       match upd_devDependencies u with
       | None => devDependencies original
       | Some deps => pruneEmpty deps
       end;
     peerDependencies := peerDependencies original;
     scripts := scripts original;
     pkg_others := pkg_others original |}.

(** The second step: the scripts of the update replace those of the
    manifest, unless one of them is no string. *)
Definition updateScripts (u : Update) (original : PackageContent)
  : Result PackageContent :=
  if bool_decide (map_Forall (λ _ x, isString x = true) (upd_scripts u))
  then Ok {| pkg_name := pkg_name original;
             dependencies := dependencies original;
             devDependencies := devDependencies original;
             peerDependencies := peerDependencies original;
             scripts := Some (upd_scripts u);
             pkg_others := pkg_others original |}
  else Throw (plain ESCRIPTSINVALID).

(** [packageJson.update(u)] of @npmcli/package-json: the two steps, then
    the fields no step knows, here the name, are overwritten. *)
Definition update (original : PackageContent) (u : Update)
  : Result PackageContent :=
  match updateScripts u (updateDependencies u original) with
  | Ok c => Ok {| pkg_name := VStr (upd_name u);
                  dependencies := dependencies c;
                  devDependencies := devDependencies c;
                  peerDependencies := peerDependencies c;
                  scripts := scripts c;
                  pkg_others := pkg_others c |}
  | Throw e => Throw e
  end.

(** [updatePackageJson]: the content after [packageJson.update(...)].
    Destructuring an absent [scripts], listing the entries of an absent
    [devDependencies] and calling [replace] on a [validate] that is no
    string throw before the update is made. *)
Definition updatePackageJson (APP_NAME : jsstring) (isTypeScript : bool)
    (content : PackageContent) : Result PackageContent :=
  match scripts content with
  | None => Throw (plain TypeError)
  | Some all =>
      let typecheck := prop all (js "typecheck") in
      let validate := prop all (js "validate") in
      let scripts := delete (js "validate") (delete (js "typecheck") all) in
      let newDevDependencies :=
        if isTypeScript then Ok (devDependencies content)
        else match devDependencies content with
             | Some deps =>
                 Ok (Some (removeUnusedDependencies deps [js "ts-node"]))
             | None => Throw (plain TypeError)
             end in
      let newScripts :=
        if isTypeScript
        then Ok (<[js "validate" := validate]>
                   (<[js "typecheck" := typecheck]> scripts))
        else match validate with
             | VStr v =>
                 Ok (<[js "validate" :=
                         VStr (replaceFirst (js " typecheck") [] v)]> scripts)
             | _ => Throw (plain TypeError)
             end in
      match newDevDependencies, newScripts with
      | Ok d, Ok s =>
          update content {| upd_name := APP_NAME;
                            upd_devDependencies := d;
                            upd_scripts := s |}
      | Throw e, _ => Throw e
      | _, Throw e => Throw e
      end
  end.

(** *** The deploy workflow *)

Record Job : Type := mkJob {
  needs : option (list jsstring);
  job_others : jsstring
}.

Record Workflow : Type := mkWorkflow {
  jobs : option (gmap jsstring Job);
  workflow_others : jsstring
}.

(** *** The package-manager command table *)

Inductive PackageManager : Type := npm | pnpm | yarn.

(** A member of a command set: a string, or a function of a first
    argument and an optional second one. *)
Inductive Member : Type :=
  | MStr (s : jsstring)
  | MFun (f : jsstring → value → jsstring).

Abbreviation CommandSet := (gmap jsstring Member).

Definition npmCommands : CommandSet :=
  <[js "exec" := MStr (js "npx")]>
  (<[js "lockfile" := MStr (js "package-lock.json")]>
  (<[js "run" := MFun (λ script args,
        js "npm run " ++ script ++ js " "
        ++ (if truthy args then js "-- " ++ template args else []))]>
  (<[js "install" := MFun (λ name args,
        js "npm install " ++ (if truthy args then template args else [])
        ++ js " " ++ name)]> ∅))).

Definition pnpmCommands (includeDoubleDashBeforeArgs useExec : bool)
  : CommandSet :=
  <[js "exec" := MStr (if useExec then js "pnpm exec" else js "pnpx")]>
  (<[js "lockfile" := MStr (js "pnpm-lock.yaml")]>
  (<[js "run" := MFun (λ script args,
        if includeDoubleDashBeforeArgs
        then js "pnpm run " ++ script ++ js " "
             ++ (if truthy args then js "-- " ++ template args else [])
        else js "pnpm run " ++ script ++ js " "
             ++ template (or_ args (VStr [])))]> ∅)).

Definition yarnCommands : CommandSet :=
  <[js "exec" := MStr (js "yarn")]>
  (<[js "lockfile" := MStr (js "yarn.lock")]>
  (<[js "run" := MFun (λ script args,
        js "yarn " ++ script ++ js " " ++ template (or_ args (VStr [])))]> ∅)).

(** *** The world of the initializer *)

(** What the initializer does that its user can observe, besides the
    files: questions shown, commands run, lines printed. *)
Inductive Event : Type :=
  | Asked (name : jsstring)
  | Executed (command : jsstring) (cwd : option jsstring)
  | Logged (message : jsstring).

Global Instance Event_eq_dec : EqDecision Event.
Proof. solve_decision. Defined.

Record World : Type := mkWorld {
  disk : Disk;
  events : list Event
}.

(** A computation that may change the world and may throw. *)
Definition M (A : Type) : Type := World → World * Result A.

Definition ret {A} (a : A) : M A := λ w, (w, Ok a).

Definition throw {A} (e : Error) : M A := λ w, (w, Throw e).

Definition bind {A B} (m : M A) (k : A → M B) : M B := λ w,
  match m w with
  | (w', Ok a) => k a w'
  | (w', Throw e) => (w', Throw e)
  end.

Notation "'do' x <- m ; k" := (bind m (λ x, k))
  (at level 20, x name, m at level 100, k at level 200).
Notation "'run' m ; k" := (bind m (λ _, k))
  (at level 20, m at level 100, k at level 200).

Definition lift {A} (r : Result A) : M A := λ w, (w, r).

(** [promise.catch(handler)] *)
Definition catch {A} (m : M A) (handler : Error → M A) : M A := λ w,
  match m w with
  | (w', Ok a) => (w', Ok a)
  | (w', Throw e) => handler e w'
  end.

Definition emit (e : Event) : M unit := λ w,
  ({| disk := disk w; events := events w ++ [e] |}, Ok tt).

(** [console.log(message)] *)
Definition log (message : jsstring) : M unit := emit (Logged message).

Definition read (p : jsstring) : M jsstring := λ w, (w, readFile (disk w) p).

(** Creating the promises of a list of file operations starts them. *)
Definition startOps (ops : list FileOp) : M (list (Result unit)) := λ w,
  let '(d, rs) := start ops (disk w) in
  ({| disk := d; events := events w |}, Ok rs).

(** A [confirm] question of inquirer. *)
Record Question : Type := mkQuestion {
  q_name : jsstring;
  q_message : jsstring;
  q_default : bool
}.

(** What happens at a question: the user answers; or the prompt rejects,
    after the question was shown or without showing it. *)
Inductive PromptOutcome : Type :=
  | Answered (answer : bool)
  | Rejected (shown : bool) (e : Error).

(** Calling [obj.name(a, b)]: a [TypeError] unless the member is a
    function. *)
Definition call (obj : CommandSet) (name : jsstring) (a : jsstring)
    (b : value) : Result jsstring :=
  match obj !! name with
  | Some (MFun f) => Ok (f a b)
  | _ => Throw (plain TypeError)
  end.

(** What the initializer gets from outside its own source: what a shell
    command does in a working directory (the disk it leaves, and its
    output or the error of a non-zero exit), what happens at each
    question, the bytes of the random source, and the [semver], JSON and
    YAML libraries. *)
Record Host : Type := mkHost {
  execSync : jsstring → option jsstring → Disk → Disk * Result jsstring;
  respond : jsstring → PromptOutcome;
  entropy : nat → N;
  semver_lt : jsstring → jsstring → Result bool;
  semver_gte : jsstring → jsstring → Result bool;
  JSON_parse : jsstring → Result PackageContent;
  JSON_stringify : PackageContent → jsstring;
  YAML_parse : jsstring → Result Workflow;
  YAML_stringify : Workflow → jsstring
}.

Section Host.

Variable host : Host.

(** [crypto.randomBytes(length)] *)
Definition randomBytes (length : nat) : list N :=
  map (λ i, (entropy host i mod 256)%N) (seq 0 length).

Definition getRandomString (length : nat) : jsstring :=
  toHex (randomBytes length).

(** A command run by the shell: it finds the disk as it is and leaves
    the disk it leaves. *)
Definition spawn (command : jsstring) (cwd : option jsstring)
  : M jsstring := λ w,
  let r := execSync host command cwd (disk w) in
  ({| disk := r.1; events := events w |}, r.2).

(** [execSync(command, { cwd })], recorded. *)
Definition exec (command : jsstring) (cwd : option jsstring)
  : M jsstring :=
  run emit (Executed command cwd); spawn command cwd.

Definition getPackageManagerVersion (packageManager : jsstring)
  : M jsstring :=
  do out <- exec (packageManager ++ js " --version") None;
  ret (trim out).

Definition getPackageManagerCommand (packageManager : PackageManager)
  : M CommandSet :=
  match packageManager with
  | npm => ret npmCommands
  | pnpm =>
      do pnpmVersion <- getPackageManagerVersion (js "pnpm");
      do includeDoubleDashBeforeArgs <-
        lift (semver_lt host pnpmVersion (js "7.0.0"));
      do useExec <- lift (semver_gte host pnpmVersion (js "6.13.0"));
      ret (pnpmCommands includeDoubleDashBeforeArgs useExec)
  | yarn => ret yarnCommands
  end.

(** [inquirer.prompt(questions)]: the questions are asked in order, none
    of them is conditional. *)
Fixpoint prompt (questions : list Question) : M (gmap jsstring bool) :=
  match questions with
  | [] => ret ∅
  | q :: rest =>
      match respond host (q_name q) with
      | Answered a =>
          run emit (Asked (q_name q));
          do answers <- prompt rest;
          ret (<[q_name q := a]> answers)
      | Rejected shown e =>
          run (if shown then emit (Asked (q_name q)) else ret tt);
          throw e
      end
  end.

(** [answers.name], tested for truthiness. *)
Definition answered (answers : gmap jsstring bool) (name : jsstring)
  : bool :=
  default false (answers !! name).

Definition amplifyQuestion : Question :=
  {| q_name := js "amplify";
     q_message := js "Do you want to use Amplify?";
     q_default := false |}.

Definition cliQuestion : Question :=
  {| q_name := js "cli";
     q_message :=
       js "It is recommended to install the amplify-cli globally. It is not required, but make sure to use npx when running any amplify command."
       ++ [10%N] ++ js "Would you like to install the CLI globally?";
     q_default := true |}.

Definition validateQuestion : Question :=
  {| q_name := js "validate";
     q_message :=
       js "Do you want to run the build/tests/etc to verify things are setup properly?";
     q_default := false |}.

Section Questions.

Variable rootDirectory : jsstring.

Definition execInProject (command : jsstring) : M jsstring :=
  exec command (Some rootDirectory).

(** The commands of the Amplify branch, run when [answers.amplify]. *)
Definition setupAmplify (pm : CommandSet) (cli : bool) : M unit :=
  run (if cli then
         run log (js "Installing CLI globally");
         do command <- lift (call pm (js "install") (js "@aws-amplify/cli")
                                  (VStr (js "-g")));
         run execInProject command; ret tt
       else ret tt);
  run log (js "Installing amplify in project");
  do command <- lift (call pm (js "install") (js "aws-amplify") VUndefined);
  run execInProject command;
  run log (js "Amplify npm package has been installed.");
  run log (js "In order to proceed, you will need an AWS account. If you do not have one, you will be able to create one.");
  run execInProject (js "npx amplify configure");
  run log (js "Initializing amplify project");
  run execInProject (js "npx amplify init");
  ret tt.

(** The template literal of the last [console.log]: a line feed, the
    three code units U+00E2, U+0153 and U+2026 the source file holds
    there, and the text with the command between double quotes. *)
Definition readyMessage (command : jsstring) : jsstring :=
  [10%N; 226%N; 339%N; 8230%N]
  ++ js "  Project is ready! Start development with "
  ++ [DQUOTE] ++ command ++ [DQUOTE].

Definition askSetupQuestions (packageManager : PackageManager) : M unit :=
  do answers <- prompt [amplifyQuestion; cliQuestion];
  do pm <- getPackageManagerCommand packageManager;
  run (if answered answers (js "amplify")
       then setupAmplify pm (answered answers (js "cli"))
       else ret tt);
  do validationAnswers <- prompt [validateQuestion];
  run (if answered validationAnswers (js "validate") then
         run log (js "Running the validate script to make sure everything was set up properly");
         do command <- lift (call pm (js "run") (js "validate") VUndefined);
         run execInProject command; ret tt
       else ret tt);
  do command <- lift (call pm (js "run") (js "dev") VUndefined);
  log (readyMessage command).

End Questions.

(** *** The scaffold *)

Definition readFileIfNotTypeScript {A} (isTypeScript : bool)
    (filePath : jsstring) (parseFunction : jsstring → Result A)
  : M (option A) :=
  if isTypeScript then ret None
  else do s <- read filePath;
       do v <- lift (parseFunction s);
       ret (Some v).

(** [PackageJson.load(rootDirectory)] *)
Definition load (rootDirectory : jsstring) : M PackageContent :=
  do s <- read (join rootDirectory (js "package.json"));
  lift (JSON_parse host s).

(** The mutation of the parsed workflow in [cleanupDeployWorkflow]. *)
Definition dropTypecheckJob (deployWorkflow : option Workflow)
  : Result Workflow :=
  match deployWorkflow with
  | None => Throw (plain TypeError)
  | Some w =>
      match jobs w with
      | None => Throw (plain TypeError)
      | Some js0 =>
          let js1 := delete (js "typecheck") js0 in
          match js1 !! js "deploy" with
          | None => Throw (plain TypeError)
          | Some deploy =>
              match needs deploy with
              | None => Throw (plain TypeError)
              | Some ns =>
                  let deploy' :=
                    {| needs := Some (filter (λ need, need ≠ js "typecheck") ns);
                       job_others := job_others deploy |} in
                  Ok {| jobs := Some (<[js "deploy" := deploy']> js1);
                        workflow_others := workflow_others w |}
              end
          end
      end
  end.

Definition cleanupDeployWorkflow (deployWorkflow : option Workflow)
    (deployWorkflowPath : jsstring) : Result (list FileOp) :=
  match dropTypecheckJob deployWorkflow with
  | Ok w => Ok [WriteFile deployWorkflowPath (YAML_stringify host w)]
  | Throw e => Throw e
  end.

Definition newRemixConfig (remixConfig : jsstring) : jsstring :=
  replaceFirst (js "create-user.ts") (js "create-user.js")
    (replaceFirst (js "server.ts") (js "server.js") remixConfig).

Definition cleanupRemixConfig (remixConfig : option jsstring)
    (remixConfigPath : jsstring) : Result (list FileOp) :=
  match remixConfig with
  | Some c => Ok [WriteFile remixConfigPath (newRemixConfig c)]
  | None => Throw (plain TypeError)
  end.

Definition newVitestConfig (vitestConfig : jsstring) : jsstring :=
  replaceFirst (js "setup-test-env.ts") (js "setup-test-env.js") vitestConfig.

Definition cleanupVitestConfig (vitestConfig : option jsstring)
    (vitestConfigPath : jsstring) : Result (list FileOp) :=
  match vitestConfig with
  | Some c => Ok [WriteFile vitestConfigPath (newVitestConfig c)]
  | None => Throw (plain TypeError)
  end.

Definition newEnv (env : jsstring) : jsstring :=
  replaceSessionSecret
    (js "SESSION_SECRET=" ++ [DQUOTE] ++ getRandomString 16 ++ [DQUOTE])
    env.

Section Scaffold.

Variable isTypeScript : bool.
Variable rootDirectory : jsstring.

Definition FILE_EXTENSION : jsstring :=
  if isTypeScript then js "ts" else js "js".
Definition EXAMPLE_ENV_PATH := join rootDirectory (js ".env.example").
Definition ENV_PATH := join rootDirectory (js ".env").
Definition README_PATH := join rootDirectory (js "README.md").
Definition DEPLOY_WORKFLOW_PATH :=
  join (join (join rootDirectory (js ".github")) (js "workflows"))
       (js "deploy.yml").
Definition REMIX_CONFIG_PATH := join rootDirectory (js "remix.config.js").
Definition VITEST_CONFIG_PATH :=
  join rootDirectory (js "vitest.config." ++ FILE_EXTENSION).

(** The seven operations every run starts (the initial value of
    [fileOperationPromises]). *)
Definition fileOperations (envText readmeText manifestText : jsstring)
  : list FileOp :=
  [ WriteFile ENV_PATH envText;
    WriteFile README_PATH readmeText;
    WriteFile (join rootDirectory (js "package.json")) manifestText;
    CopyFile (join (join rootDirectory (js "remix.init")) (js "gitignore"))
             (join rootDirectory (js ".gitignore"));
    Rm (join (join rootDirectory (js ".github")) (js "ISSUE_TEMPLATE")) true;
    Rm (join (join rootDirectory (js ".github")) (js "dependabot.yml")) false;
    Rm (join (join rootDirectory (js ".github")) (js "PULL_REQUEST_TEMPLATE.md"))
       false ].

(** The three operations pushed when the plain variant was chosen. *)
Definition cleanupOperations (deployText remixText vitestText : jsstring)
  : list FileOp :=
  [ WriteFile DEPLOY_WORKFLOW_PATH deployText;
    WriteFile REMIX_CONFIG_PATH remixText;
    WriteFile VITEST_CONFIG_PATH vitestText ].

(** The handler of the [catch] after the questions. *)
Definition ignoreTtyError (error : Error) : M unit :=
  if truthy (isTtyError error) then ret tt else throw error.

(** From [Promise.all(fileOperationPromises)] on: the swallowed batch,
    then the questions with their [catch]. *)
Definition finish (packageManager : PackageManager)
    (fileOperationPromises : list (Result unit)) : M unit :=
  run lift (tryCatchEmpty (promiseAll fileOperationPromises));
  catch (askSetupQuestions rootDirectory packageManager) ignoreTtyError.

(** [main] up to the creation of the last promise: the reads, the
    rewrites, and the file operations started; the result is the list of
    the promises in [fileOperationPromises]. *)
Definition scaffold : M (list (Result unit)) :=
  do env <- read EXAMPLE_ENV_PATH;
  do readme <- read README_PATH;
  do deployWorkflow <-
    readFileIfNotTypeScript isTypeScript DEPLOY_WORKFLOW_PATH
      (YAML_parse host);
  do remixConfig <-
    readFileIfNotTypeScript isTypeScript REMIX_CONFIG_PATH Ok;
  do vitestConfig <-
    readFileIfNotTypeScript isTypeScript VITEST_CONFIG_PATH Ok;
  do packageJson <- load rootDirectory;
  do packageJson <-
    lift (updatePackageJson (APP_NAME rootDirectory) isTypeScript packageJson);
  do started <-
    startOps (fileOperations
                (newEnv env)
                (replaceAll (js "RemixStack") (APP_NAME rootDirectory) readme)
                (JSON_stringify host packageJson));
  do pushed <-
    (if negb isTypeScript then
       do ops1 <- lift (cleanupDeployWorkflow deployWorkflow DEPLOY_WORKFLOW_PATH);
       do rs1 <- startOps ops1;
       do ops2 <- lift (cleanupRemixConfig remixConfig REMIX_CONFIG_PATH);
       do rs2 <- startOps ops2;
       do ops3 <- lift (cleanupVitestConfig vitestConfig VITEST_CONFIG_PATH);
       do rs3 <- startOps ops3;
       ret (rs1 ++ rs2 ++ rs3)
     else ret []);
  ret (started ++ pushed).

Definition main (packageManager : PackageManager) : M unit :=
  do fileOperationPromises <- scaffold;
  finish packageManager fileOperationPromises.

End Scaffold.

End Host.

(** *** Notions of the specification *)

(** The class [[A-Za-z0-9-_]] as the specification writes it. *)
Definition spec_allowed (c : N) : Prop :=
  (65 ≤ c ≤ 90)%N ∨ (97 ≤ c ≤ 122)%N ∨ (48 ≤ c ≤ 57)%N
  ∨ c = HYPHEN ∨ c = UNDERSCORE.

(** [d] is [c], or a hyphen in its place when [c] is outside the class. *)
Definition spec_sanitized (c d : N) : Prop :=
  (spec_allowed c ∧ d = c) ∨ (¬ spec_allowed c ∧ d = HYPHEN).

(** The four members the specification lists for a command set. *)
Definition spec_complete (cs : CommandSet) : Prop :=
  is_Some (cs !! js "exec") ∧ is_Some (cs !! js "lockfile")
  ∧ is_Some (cs !! js "run") ∧ is_Some (cs !! js "install").

(** Positions in an environment file, by ECMAScript line terminators:
    [pre] ends where a line starts, [post] starts where a line ends. *)
Definition lineStartFrom (first : bool) (pre : jsstring) : Prop :=
  (pre = [] ∧ first = true)
  ∨ ∃ p t, pre = p ++ [t] ∧ isLineTerminator t = true.

Definition lineStart (pre : jsstring) : Prop := lineStartFrom true pre.

Definition lineEnd (post : jsstring) : Prop :=
  post = [] ∨ ∃ t p, post = t :: p ∧ isLineTerminator t = true.

Definition noTerminator (s : jsstring) : Prop :=
  Forall (λ c, isLineTerminator c = false) s.

(** [env] is [pre], then the line [SESSION_SECRET=old], then [post]. *)
Definition isAssignLine (env pre old post : jsstring) : Prop :=
  env = pre ++ SESSION_SECRET_ASSIGN ++ old ++ post
  ∧ lineStart pre ∧ noTerminator old ∧ lineEnd post.

(** No line that starts inside [pre] begins with [SESSION_SECRET=];
    [rest] is what follows [pre]. *)
Definition noAssignLineIn (first : bool) (pre rest : jsstring) : Prop :=
  ∀ a b, pre = a ++ b → b ≠ [] → lineStartFrom first a →
         startsWith SESSION_SECRET_ASSIGN (b ++ rest) = false.

(** The value of a hexadecimal digit in lower case. *)
Definition spec_hexValue (c : N) : option N :=
  if (48 <=? c)%N && (c <=? 57)%N then Some (c - 48)%N
  else if (97 <=? c)%N && (c <=? 102)%N then Some (c - 87)%N
  else None.

(** [hex] writes the bytes [byte 0], ..., [byte (n - 1)] in hexadecimal:
    two digits a byte, the high one first. *)
Definition spec_hexOf (byte : nat → N) (n : nat) (hex : jsstring) : Prop :=
  length hex = 2 * n
  ∧ ∀ i, i < n →
      ∃ hi lo h l,
        hex !! (2 * i) = Some hi ∧ hex !! (2 * i + 1) = Some lo
        ∧ spec_hexValue hi = Some h ∧ spec_hexValue lo = Some l
        ∧ (16 * h + l)%N = byte i.

(** The bytes the random source of the host yields, one after the
    other. *)
Definition spec_byte (host : Host) (i : nat) : N :=
  (entropy host i mod 256)%N.

(** The line that assigns the secret [hex]. *)
Definition secretLine (hex : jsstring) : jsstring :=
  js "SESSION_SECRET=" ++ [DQUOTE] ++ hex ++ [DQUOTE].

(** The line between [pre] and [post] is the one rewritten, the rest is
    kept. *)
Definition rewritesLineAt (host : Host) (env pre post : jsstring)
  : Prop :=
  newEnv host env = pre ++ secretLine (getRandomString host 16) ++ post.

(** A file with the assignment between two other lines. *)
Definition sampleEnv : jsstring :=
  js "A=1" ++ [10%N] ++ js "SESSION_SECRET=old" ++ [10%N] ++ js "B=2".

(** A file with two assignments of the secret. *)
Definition twoSecrets : jsstring :=
  js "SESSION_SECRET=a" ++ [10%N] ++ js "SESSION_SECRET=b".

(** The range a manifest gives for a dev dependency, if it has it. *)
Definition devDependency (c : PackageContent) (name : jsstring)
  : option jsstring :=
  match devDependencies c with
  | Some deps => deps !! name
  | None => None
  end.

(** Every script is a string. *)
Definition stringScripts (all : gmap jsstring value) : Prop :=
  map_Forall (λ _ x, isString x = true) all.

(** A manifest in the shape of the template's. *)
Definition sampleScripts : gmap jsstring value :=
  <[js "build" := VStr (js "remix build")]>
  (<[js "typecheck" := VStr (js "tsc -b")]>
  (<[js "validate" := VStr (js "run-p lint typecheck test")]> ∅)).

Definition sampleDevDependencies : gmap jsstring jsstring :=
  <[js "ts-node" := js "^10.7.0"]> (<[js "vitest" := js "^0.8.2"]> ∅).

Definition samplePackage : PackageContent :=
  {| pkg_name := VStr (js "remix-stack-template");
     dependencies := None;
     devDependencies := Some sampleDevDependencies;
     peerDependencies := None;
     scripts := Some sampleScripts;
     pkg_others := ∅ |}.

(** The sample manifest without its [typecheck] script, and with
    [ts-node] as its only dev dependency. *)
Definition withoutTypecheck : PackageContent :=
  {| pkg_name := pkg_name samplePackage;
     dependencies := None;
     devDependencies := Some sampleDevDependencies;
     peerDependencies := None;
     scripts := Some (delete (js "typecheck") sampleScripts);
     pkg_others := ∅ |}.

Definition onlyTsNode : PackageContent :=
  {| pkg_name := pkg_name samplePackage;
     dependencies := None;
     devDependencies := Some (<[js "ts-node" := js "^10.7.0"]> ∅);
     peerDependencies := None;
     scripts := Some sampleScripts;
     pkg_others := ∅ |}.

(** A host for the examples: every command succeeds and leaves the disk
    as it is, every question is answered no, the random source yields
    zeros, and the parsers return the sample manifest and workflow. *)
Definition sampleWorkflow : Workflow :=
  {| jobs := Some (<[js "typecheck" := {| needs := None; job_others := [] |}]>
                   (<[js "deploy" :=
                        {| needs := Some [js "lint"; js "typecheck"];
                           job_others := [] |}]> ∅));
     workflow_others := [] |}.

Definition sampleHost : Host :=
  {| execSync := λ _ _ d, (d, Ok []);
     respond := λ _, Answered false;
     entropy := λ _, 0%N;
     semver_lt := λ _ _, Ok false;
     semver_gte := λ _ _, Ok true;
     JSON_parse := λ _, Ok samplePackage;
     JSON_stringify := λ _, js "{}";
     YAML_parse := λ _, Ok sampleWorkflow;
     YAML_stringify := λ _, js "jobs: {}" |}.

(** A host whose random source counts: its bytes are 0x00, 0x11, 0x22
    and so on. *)
Definition counting : Host :=
  {| execSync := execSync sampleHost;
     respond := respond sampleHost;
     entropy := λ i, (17 * N.of_nat i)%N;
     semver_lt := semver_lt sampleHost;
     semver_gte := semver_gte sampleHost;
     JSON_parse := JSON_parse sampleHost;
     JSON_stringify := JSON_stringify sampleHost;
     YAML_parse := YAML_parse sampleHost;
     YAML_stringify := YAML_stringify sampleHost |}.

(** The same host with other reactions to the questions. *)
Definition answering (r : jsstring → PromptOutcome) : Host :=
  {| execSync := execSync sampleHost;
     respond := r;
     entropy := entropy sampleHost;
     semver_lt := semver_lt sampleHost;
     semver_gte := semver_gte sampleHost;
     JSON_parse := JSON_parse sampleHost;
     JSON_stringify := JSON_stringify sampleHost;
     YAML_parse := YAML_parse sampleHost;
     YAML_stringify := YAML_stringify sampleHost |}.

(** [pat] does not occur in [a ++ pat ++ b] before the position where
    [a] ends: the occurrence after [a] is the first one. *)
Definition firstOccurrence (pat a b : jsstring) : Prop :=
  ∀ a1 a2, a = a1 ++ a2 → a2 ≠ [] → startsWith pat (a2 ++ pat ++ b) = false.

(** A freshly cloned typed project without the template's housekeeping
    files, and the two errors inquirer can reject with. *)
Definition sampleRoot : jsstring := js "/app".

Definition sampleDisk : Disk :=
  {| files :=
       <[join sampleRoot (js ".env.example") := File (js "SESSION_SECRET=old")]>
       (<[join sampleRoot (js "README.md") := File (js "# RemixStack")]>
       (<[join sampleRoot (js "package.json") := File (js "{}")]> ∅));
     locked := ∅ |}.

Definition sampleWorld : World := {| disk := sampleDisk; events := [] |}.

Definition ttyError : Error :=
  {| kind := PromptNotRendered; isTtyError := VBool true |}.

Definition cancellation : Error := plain PromptCancelled.

(** What is observed between the two prompts when the integration is
    declined: nothing, or the version probe of pnpm. *)
Definition versionProbe (probe : list Event) : Prop :=
  probe = [] ∨ probe = [Executed (js "pnpm --version") None].

(** A computation that only adds to what was observed. *)
Definition grows {A} (m : M A) : Prop :=
  ∀ w, ∃ es, events (m w).1 = events w ++ es.

(** A computation that leaves the disk alone. *)
Definition keepsDisk {A} (m : M A) : Prop :=
  ∀ w, disk (m w).1 = disk w.

(** A computation that changes nothing in the world. *)
Definition pure {A} (m : M A) : Prop := ∀ w, (m w).1 = w.

(** A computation that shows, runs and prints nothing. *)
Definition silent {A} (m : M A) : Prop :=
  ∀ w, events (m w).1 = events w.

(** The claim that the question about the CLI is conditional, and the
    errors the specification has the initializer swallow. *)
Definition spec_cliOnlyAfterYes (host : Host) (rootDirectory : jsstring)
    (packageManager : PackageManager) (w : World) : Prop :=
  Asked (js "cli")
    ∈ events (askSetupQuestions host rootDirectory packageManager w).1 →
  respond host (js "amplify") = Answered true.

Definition spec_swallowed (e : Error) : Prop :=
  kind e = PromptCancelled ∨ kind e = PromptNotRendered.

(** *** The footprint of a file operation *)

(** The path an operation changes. *)
Definition target (op : FileOp) : jsstring :=
  match op with
  | WriteFile p _ => p
  | CopyFile _ dst => dst
  | Rm p _ => p
  end.

(** The path whose node decides what the operation does. *)
Definition control (op : FileOp) : jsstring :=
  match op with
  | WriteFile p _ => p
  | CopyFile src _ => src
  | Rm p _ => p
  end.

Definition recursiveRm (op : FileOp) : bool :=
  match op with
  | Rm _ r => r
  | _ => false
  end.

(** The paths an operation can change: its target, and what lies under
    it for a recursive removal. *)
Definition covered (op : FileOp) (k : jsstring) : bool :=
  bool_decide (k = target op) || (recursiveRm op && under (target op) k).

(** Two paths, neither equal to nor inside the other. *)
Definition apart (p q : jsstring) : bool :=
  negb (bool_decide (p = q)) && negb (under p q) && negb (under q p).

(** Two operations whose paths are pairwise apart. *)
Definition independent (a b : FileOp) : bool :=
  apart (target a) (target b) && apart (target a) (control b)
  && apart (control a) (target b).

Fixpoint pairwiseIndependent (ops : list FileOp) : bool :=
  match ops with
  | [] => true
  | a :: rest => forallb (independent a) rest && pairwiseIndependent rest
  end.

(** The node at [k] after the operation, from the locked paths, the node
    [ctl] at the control path and the node [old] at [k] before it. *)
Definition effect (op : FileOp) (L : gset jsstring) (ctl : option Node)
    (k : jsstring) (old : option Node) : option Node :=
  let written (p content : jsstring) :=
    if bool_decide (p ∈ L) then old
    else match old with
         | Some Directory => old
         | _ => Some (File content)
         end in
  match op with
  | WriteFile p content =>
      if bool_decide (k = p) then written p content else old
  | CopyFile _ dst =>
      if bool_decide (k = dst)
      then match ctl with
           | Some (File content) => written dst content
           | _ => old
           end
      else old
  | Rm p recursive =>
      match ctl with
      | None => old
      | Some n =>
          if bool_decide (p ∈ L) then old
          else match n with
               | File _ => if bool_decide (k = p) then None else old
               | Directory =>
                   if recursive
                   then if bool_decide (k = p) || under p k then None
                        else old
                   else old
               end
      end
  end.

(** An operation on paths relative to the project, moved under [root]. *)
Definition rebase (root : jsstring) (op : FileOp) : FileOp :=
  match op with
  | WriteFile p content => WriteFile (join root p) content
  | CopyFile src dst => CopyFile (join root src) (join root dst)
  | Rm p recursive => Rm (join root p) recursive
  end.

(** The operations of a run, by paths relative to the project. *)
Definition relativeOperations (isTypeScript : bool)
    (envText readmeText manifestText deployText remixText vitestText
       : jsstring) : list FileOp :=
  [ WriteFile (js ".env") envText;
    WriteFile (js "README.md") readmeText;
    WriteFile (js "package.json") manifestText;
    CopyFile (js "remix.init/gitignore") (js ".gitignore");
    Rm (js ".github/ISSUE_TEMPLATE") true;
    Rm (js ".github/dependabot.yml") false;
    Rm (js ".github/PULL_REQUEST_TEMPLATE.md") false ]
  ++ (if isTypeScript then []
      else [ WriteFile (js ".github/workflows/deploy.yml") deployText;
             WriteFile (js "remix.config.js") remixText;
             WriteFile (js "vitest.config.js") vitestText ]).

(** All the operations a run of the initializer starts. *)
Definition allOperations (isTypeScript : bool) (rootDirectory : jsstring)
    (envText readmeText manifestText deployText remixText vitestText
       : jsstring) : list FileOp :=
  fileOperations rootDirectory envText readmeText manifestText
  ++ (if isTypeScript then []
      else cleanupOperations isTypeScript rootDirectory
             deployText remixText vitestText).


(** *** Notions for the rewrites, the flow and the scaffold *)

(** [pat] does not occur in [s]. *)
Definition noOccurrence (pat s : jsstring) : Prop :=
  ∀ a b, s = a ++ b → startsWith pat b = false.

(** The pieces [first], [p1], [p2], ... joined by [sep]. *)
Fixpoint joinWith (sep first : jsstring) (rest : list jsstring) : jsstring :=
  match rest with
  | [] => first
  | p :: ps => first ++ sep ++ joinWith sep p ps
  end.

(** The pieces of a text cut at every occurrence of [pat] met when
    scanning from the left: no occurrence starts inside a piece. *)
Fixpoint cutAt (pat first : jsstring) (rest : list jsstring) : Prop :=
  match rest with
  | [] => noOccurrence pat first
  | p :: ps => firstOccurrence pat first (joinWith pat p ps) ∧ cutAt pat p ps
  end.

(** The disk after the commands of a trace have run, one after the
    other. *)
Definition played (host : Host) (d : Disk) (es : list Event) : Disk :=
  foldl (λ d e, match e with
                | Executed command cwd => (execSync host command cwd d).1
                | _ => d
                end) d es.

(** The commands of a trace, in the order in which they were run. *)
Definition commandsOf (es : list Event) : list jsstring :=
  omap (λ e, match e with
             | Executed command _ => Some command
             | _ => None
             end) es.

(** The world after a trace: its events observed, its commands run. *)
Definition elapse (host : Host) (w : World) (es : list Event) : World :=
  {| disk := played host (disk w) es; events := events w ++ es |}.

(** What looking the commands up runs: the version probe of pnpm. *)
Definition probeOf (packageManager : PackageManager) : list Event :=
  match packageManager with
  | pnpm => [Executed (js "pnpm --version") None]
  | _ => []
  end.

(** The command that starts development, as the ready message shows
    it. *)
Definition devCommand (packageManager : PackageManager) : jsstring :=
  match packageManager with
  | npm => js "npm run dev "
  | pnpm => js "pnpm run dev "
  | yarn => js "yarn dev "
  end.

(** What is observed in the Amplify branch with npm when every command
    succeeds. *)
Definition amplifyTrace (rootDirectory : jsstring) (cli : bool)
  : list Event :=
  (if cli
   then [ Logged (js "Installing CLI globally");
          Executed (js "npm install -g @aws-amplify/cli") (Some rootDirectory) ]
   else [])
  ++ [ Logged (js "Installing amplify in project");
       Executed (js "npm install  aws-amplify") (Some rootDirectory);
       Logged (js "Amplify npm package has been installed.");
       Logged (js "In order to proceed, you will need an AWS account. If you do not have one, you will be able to create one.");
       Executed (js "npx amplify configure") (Some rootDirectory);
       Logged (js "Initializing amplify project");
       Executed (js "npx amplify init") (Some rootDirectory) ].

(** The command that runs the validate script. *)
Definition validateCommand (packageManager : PackageManager) : jsstring :=
  match packageManager with
  | npm => js "npm run validate "
  | pnpm => js "pnpm run validate "
  | yarn => js "yarn validate "
  end.

(** What is observed after the validation question when the validate
    script succeeds. *)
Definition validateTrace (rootDirectory : jsstring)
    (packageManager : PackageManager) (validate : bool) : list Event :=
  if validate
  then [ Logged (js "Running the validate script to make sure everything was set up properly");
         Executed (validateCommand packageManager) (Some rootDirectory) ]
  else [].

(** What the promise of an operation holds. *)
Definition outcome (r : Result Disk) : Result unit :=
  match r with
  | Ok _ => Ok tt
  | Throw e => Throw e
  end.

(** The paths a run can change. *)
Definition touched (isTypeScript : bool) (rootDirectory k : jsstring) : bool :=
  existsb (λ op, covered op k)
          (allOperations isTypeScript rootDirectory [] [] [] [] [] []).

(** A computation that observes nothing, locks nothing and changes no
    path outside [S]. *)
Definition confined {A} (S : jsstring → bool) (m : M A) : Prop :=
  ∀ w, events (m w).1 = events w
       ∧ locked (disk (m w).1) = locked (disk w)
       ∧ ∀ k, S k = false → files (disk (m w).1) !! k = files (disk w) !! k.

(** What the scaffold has read and parsed when it starts its
    operations. *)
Record Sources : Type := mkSources {
  src_env : jsstring;
  src_readme : jsstring;
  src_package : PackageContent;
  src_deploy : option Workflow;
  src_remix : option jsstring;
  src_vitest : option jsstring
}.

(** The sources are those of the project on disk [d]. *)
Definition readFrom (host : Host) (isTypeScript : bool)
    (rootDirectory : jsstring) (d : Disk) (s : Sources) : Prop :=
  readFile d (EXAMPLE_ENV_PATH rootDirectory) = Ok (src_env s)
  ∧ readFile d (README_PATH rootDirectory) = Ok (src_readme s)
  ∧ (∃ text, readFile d (join rootDirectory (js "package.json")) = Ok text
             ∧ JSON_parse host text = Ok (src_package s))
  ∧ if isTypeScript
    then src_deploy s = None ∧ src_remix s = None ∧ src_vitest s = None
    else (∃ text wf, readFile d (DEPLOY_WORKFLOW_PATH rootDirectory) = Ok text
                     ∧ YAML_parse host text = Ok wf
                     ∧ src_deploy s = Some wf)
         ∧ (∃ text, readFile d (REMIX_CONFIG_PATH rootDirectory) = Ok text
                    ∧ src_remix s = Some text)
         ∧ (∃ text, readFile d (VITEST_CONFIG_PATH false rootDirectory) = Ok text
                    ∧ src_vitest s = Some text).

(** The contents the plain variant writes into its three files. *)
Definition plainTexts (host : Host) (s : Sources)
  : option (jsstring * jsstring * jsstring) :=
  match dropTypecheckJob (src_deploy s), src_remix s, src_vitest s with
  | Ok wf, Some rc, Some vc =>
      Some (YAML_stringify host wf, newRemixConfig rc, newVitestConfig vc)
  | _, _, _ => None
  end.

(** Between two disks, [content] was written at [p], unless the path
    was locked or held a directory. *)
Definition writtenAt (before after : Disk) (p content : jsstring) : Prop :=
  p ∉ locked before → files before !! p ≠ Some Directory →
  readFile after p = Ok content.

(** A plain project as the template ships it, with its housekeeping
    files. *)
Definition templateDisk : Disk :=
  {| files :=
       <[join sampleRoot (js ".env.example") := File (js "SESSION_SECRET=old")]>
       (<[join sampleRoot (js "README.md") := File (js "# RemixStack")]>
       (<[join sampleRoot (js "package.json") := File (js "{}")]>
       (<[DEPLOY_WORKFLOW_PATH sampleRoot := File (js "jobs: {}")]>
       (<[REMIX_CONFIG_PATH sampleRoot := File (js "server.ts")]>
       (<[VITEST_CONFIG_PATH false sampleRoot := File (js "setup-test-env.ts")]>
       (<[join sampleRoot (js "remix.init/gitignore") := File (js "node_modules")]>
       (<[join sampleRoot (js ".github/ISSUE_TEMPLATE") := Directory]>
       (<[join sampleRoot (js ".github/ISSUE_TEMPLATE/bug_report.yml")
            := File (js "name: Bug")]>
       (<[join sampleRoot (js ".github/dependabot.yml") := File (js "version: 2")]>
       (<[join sampleRoot (js ".github/PULL_REQUEST_TEMPLATE.md") := Directory]>
        ∅))))))))));
     locked := ∅ |}.

Definition templateWorld : World := {| disk := templateDisk; events := [] |}.

(** Hosts for the examples: one that answers yes to every question, one
    that accepts the integration only, and one whose workflow has no
    job. *)
Definition accepting : Host := answering (λ _, Answered true).

Definition amplifyOnly : Host :=
  answering (λ name, Answered (bool_decide (name = js "amplify"))).

(** A host whose commands succeed and leave, in their working directory,
    a file [npm-debug.log] that holds the command. *)
Definition logging (r : jsstring → PromptOutcome) : Host :=
  {| execSync := λ command cwd d,
       (withFiles d
          (<[join (default (js "/tmp") cwd) (js "npm-debug.log")
               := File command]> (files d)),
        Ok []);
     respond := r;
     entropy := entropy sampleHost;
     semver_lt := semver_lt sampleHost;
     semver_gte := semver_gte sampleHost;
     JSON_parse := JSON_parse sampleHost;
     JSON_stringify := JSON_stringify sampleHost;
     YAML_parse := YAML_parse sampleHost;
     YAML_stringify := YAML_stringify sampleHost |}.

Definition withoutJobs : Host :=
  {| execSync := execSync sampleHost;
     respond := respond sampleHost;
     entropy := entropy sampleHost;
     semver_lt := semver_lt sampleHost;
     semver_gte := semver_gte sampleHost;
     JSON_parse := JSON_parse sampleHost;
     JSON_stringify := JSON_stringify sampleHost;
     YAML_parse := λ _, Ok {| jobs := Some ∅; workflow_others := [] |};
     YAML_stringify := YAML_stringify sampleHost |}.

End Init.


(** * Properties *)

(** ** Facts about the string methods *)

Module JSFacts.

Lemma startsWith_app (p s : jsstring) : startsWith p (p ++ s) = true.
Proof.
  induction p as [|a p IH]; simpl; [done|].
  by rewrite N.eqb_refl, IH.
Qed.

Lemma startsWith_inv (p s : jsstring) :
  startsWith p s = true → ∃ t, s = p ++ t.
Proof.
  revert s. induction p as [|a p IH]; intros s H.
  - by exists s.
  - destruct s as [|b s]; simpl in H; [done|].
    apply andb_true_iff in H as [Hab Hps].
    apply N.eqb_eq in Hab as ->.
    destruct (IH _ Hps) as [t ->]. by exists t.
Qed.

Lemma startsWith_cancel (r p s : jsstring) :
  startsWith (r ++ p) (r ++ s) = startsWith p s.
Proof.
  induction r as [|a r IH]; simpl; [done|].
  by rewrite N.eqb_refl, IH.
Qed.

(** A string ends with the separator exactly when it is some string
    followed by the separator. *)
Lemma endsWith_slash (s : jsstring) :
  endsWith (js "/") s = true ↔ ∃ t, s = t ++ [SLASH].
Proof.
  unfold endsWith. change (js "/") with [SLASH].
  change (length [SLASH]) with 1. split.
  - intros H. apply andb_true_iff in H as [Hlen Hsuf].
    apply Nat.leb_le in Hlen. apply bool_decide_eq_true in Hsuf.
    exists (take (length s - 1) s).
    rewrite <- Hsuf. by rewrite take_drop.
  - intros [t ->]. rewrite length_app.
    change (length [SLASH]) with 1.
    apply andb_true_iff. split; [apply Nat.leb_le; lia|].
    apply bool_decide_eq_true.
    replace (length t + 1 - 1) with (length t) by lia.
    by rewrite drop_app_length.
Qed.

Lemma endsWith_slash_false (t : jsstring) (c : N) :
  endsWith (js "/") (t ++ [c]) = false ↔ c ≠ SLASH.
Proof.
  split.
  - intros H ->. assert (endsWith (js "/") (t ++ [SLASH]) = true) as E
      by (apply endsWith_slash; eauto). congruence.
  - intros Hc. apply not_true_is_false. intros H.
    apply endsWith_slash in H as [u Hu].
    apply app_inj_tail in Hu as [_ ?]. done.
Qed.

(** [s.slice(0, -1)] drops the last code unit. *)
Lemma slice_0_m1 (t : jsstring) (c : N) : slice (t ++ [c]) 0 (-1) = t.
Proof.
  unfold slice.
  assert (clampIndex (length (t ++ [c])) 0 = 0) as -> by done.
  assert (clampIndex (length (t ++ [c])) (-1) = length t) as ->.
  { unfold clampIndex. rewrite length_app.
    change (-1 <? 0)%Z with true. cbv iota. simpl length. lia. }
  rewrite Nat.sub_0_r, drop_0. by rewrite take_app_length.
Qed.

Lemma slice_0_m1_removelast (s : jsstring) : slice s 0 (-1) = removelast s.
Proof.
  destruct (decide (s = [])) as [->|Hs]; [done|].
  destruct (exists_last Hs) as (t & c & ->).
  by rewrite slice_0_m1, removelast_last.
Qed.

(** [(p + q).slice(p.length)] is [q]. *)
Lemma sliceFrom_app (p q : jsstring) :
  sliceFrom (p ++ q) (Z.of_nat (length p)) = q.
Proof.
  unfold sliceFrom, clampIndex.
  destruct (Z.ltb_spec (Z.of_nat (length p)) 0) as [?|_]; [lia|].
  rewrite Nat2Z.id, length_app, Nat.min_l by lia.
  by rewrite drop_app_length.
Qed.

Lemma collapseSlashes_head (s : jsstring) (c : N) :
  head (collapseSlashes (c :: s)) = Some c.
Proof.
  revert c. induction s as [|d s IH]; intros c.
  - simpl. by destruct (c =? SLASH)%N.
  - change (collapseSlashes (c :: d :: s)) with
      (if (c =? SLASH)%N
       then if (d =? SLASH)%N then collapseSlashes (d :: s)
            else c :: collapseSlashes (d :: s)
       else c :: collapseSlashes (d :: s)).
    destruct (N.eqb_spec c SLASH) as [->|Hc]; [|done].
    destruct (N.eqb_spec d SLASH) as [->|Hd]; [|done].
    apply IH.
Qed.

(** After the replacement no run of separators is left. *)
Lemma collapseSlashes_noSlashRun (s : jsstring) :
  noSlashRun (collapseSlashes s) = true.
Proof.
  induction s as [|c s IH]; [done|].
  destruct s as [|d s]; [simpl; by destruct (c =? SLASH)%N|].
  pose proof (collapseSlashes_head s d) as Hd.
  change (collapseSlashes (c :: d :: s)) with
    (if (c =? SLASH)%N
     then if (d =? SLASH)%N then collapseSlashes (d :: s)
          else c :: collapseSlashes (d :: s)
     else c :: collapseSlashes (d :: s)).
  destruct (collapseSlashes (d :: s)) as [|e r] eqn:E; [done|].
  simpl in Hd. injection Hd as ->.
  destruct (N.eqb_spec c SLASH) as [->|Hc].
  - destruct (N.eqb_spec d SLASH) as [->|Hd]; [done|].
    simpl. simpl in IH. rewrite IH.
    destruct (N.eqb_spec d SLASH); [done|]. by destruct r.
  - simpl. simpl in IH. rewrite IH.
    destruct (N.eqb_spec c SLASH); [done|]. by destruct r.
Qed.

(** The replacement touches separators only. *)
Lemma collapseSlashes_others (s : jsstring) :
  filter (λ c, c ≠ SLASH) (collapseSlashes s) = filter (λ c, c ≠ SLASH) s.
Proof.
  induction s as [|c s IH]; [done|].
  destruct s as [|d s].
  { simpl. by destruct (c =? SLASH)%N. }
  change (collapseSlashes (c :: d :: s)) with
    (if (c =? SLASH)%N
     then if (d =? SLASH)%N then collapseSlashes (d :: s)
          else c :: collapseSlashes (d :: s)
     else c :: collapseSlashes (d :: s)).
  destruct (N.eqb_spec c SLASH) as [->|Hc].
  - rewrite (filter_cons_False _ SLASH (d :: s)) by (intros H; by apply H).
    destruct (N.eqb_spec d SLASH) as [->|Hd]; [done|].
    rewrite (filter_cons_False _ SLASH) by (intros H; by apply H). done.
  - rewrite !(filter_cons_True _ c) by done. f_equal. apply IH.
Qed.


End JSFacts.

(** ** The edge request gate *)

Module ServerFacts.

Import Server JSFacts.

(** *** Header values *)

Lemma set_legal (field val : jsstring) (st : State) :
  isHeaderValue val = true → set field val st = Done (withHeader field val st).
Proof. intros H. unfold set. by rewrite H. Qed.

Lemma set_illegal (field val : jsstring) (st : State) :
  isHeaderValue val = false → set field val st = Thrown ERR_INVALID_CHAR.
Proof. intros H. unfold set. by rewrite H. Qed.

Lemma isHeaderValue_app (u v : jsstring) :
  isHeaderValue (u ++ v) = isHeaderValue u && isHeaderValue v.
Proof. apply forallb_app. Qed.

Lemma legalRegion_dec (v : option jsstring) :
  legalRegion v ∨ ¬ legalRegion v.
Proof.
  destruct v as [s|]; [|left; by intros s].
  destruct (isHeaderValue s) eqn:E.
  - left. by intros ? [= <-].
  - right. intros H. specialize (H s eq_refl). congruence.
Qed.

Lemma legalRegion_Some (s : jsstring) :
  legalRegion (Some s) ↔ isHeaderValue s = true.
Proof.
  split; [intros H; by apply H|]. by intros H ? [= <-].
Qed.

(** The value stamped for the region is legal exactly when the variable
    is unset or legal. *)
Lemma regionStamp_legal (env : ProcessEnv) :
  isHeaderValue (default (js "unknown") (FLY_REGION env)) = true
  ↔ legalRegion (FLY_REGION env).
Proof.
  destruct (FLY_REGION env) as [f|]; simpl.
  - symmetry. apply legalRegion_Some.
  - split; [by intros _ s|done].
Qed.

(** *** The replay gate *)

Lemma shouldReply_truthy (env : ProcessEnv) (req : Request) :
  truthy (shouldReply env req) = true ↔ replayCondition env req.
Proof.
  unfold shouldReply, isMethodReplayable, isReadOnlyRegion, replayCondition,
    includes, and_, strictNe.
  destruct env as [fly primary]; simpl.
  case_bool_decide as Hm; simpl.
  { split; [done|]. intros [Hn _]. done. }
  destruct fly as [[|a f]|]; simpl.
  1, 3: split; [done | intros (_ & ? & ? & ? & ? & ? & ? & ?); congruence].
  destruct primary as [[|b p]|]; simpl.
  1, 3: split; [done | intros (_ & ? & ? & ? & ? & ? & ? & ?); congruence].
  case_bool_decide as Hfp; simpl.
  - split; [done|]. intros (_ & ? & ? & ? & ? & ? & ? & ?). congruence.
  - split; [|done]. intros _. split; [done|].
    exists (a :: f), (b :: p). repeat split; congruence.
Qed.

Lemma getReplaceResponse_fires (env : ProcessEnv) (req : Request) (st : State)
    (p : jsstring) :
  replayCondition env req → PRIMARY_REGION env = Some p →
  isHeaderValue p = true →
  getReplaceResponse env req st =
    End (withHeader (js "fly-replay") (js "region=" ++ p)
           (info (replayLog env req) st))
        (SendStatus 409).
Proof.
  intros H Hp Hlegal. apply shouldReply_truthy in H.
  unfold getReplaceResponse, setThen, replayLog. rewrite H, Hp.
  cbn [negb envValue template].
  rewrite set_legal; [done|].
  rewrite isHeaderValue_app, Hlegal. reflexivity.
Qed.

Lemma getReplaceResponse_throws (env : ProcessEnv) (req : Request) (st : State)
    (p : jsstring) :
  replayCondition env req → PRIMARY_REGION env = Some p →
  isHeaderValue p = false →
  getReplaceResponse env req st
  = Fail (info (replayLog env req) st) ERR_INVALID_CHAR.
Proof.
  intros H Hp Hillegal. apply shouldReply_truthy in H.
  unfold getReplaceResponse, setThen, replayLog. rewrite H, Hp.
  cbn [negb envValue template].
  rewrite set_illegal; [done|].
  rewrite isHeaderValue_app, Hillegal. apply andb_false_r.
Qed.

Lemma getReplaceResponse_passes (env : ProcessEnv) (req : Request) (st : State) :
  ¬ replayCondition env req → getReplaceResponse env req st = Next st.
Proof.
  intros H. unfold getReplaceResponse.
  destruct (truthy (shouldReply env req)) eqn:E; [|done].
  apply shouldReply_truthy in E. done.
Qed.

Lemma replayCondition_dec (env : ProcessEnv) (req : Request) :
  replayCondition env req ∨ ¬ replayCondition env req.
Proof.
  destruct (truthy (shouldReply env req)) eqn:E.
  - left. by apply shouldReply_truthy.
  - right. intros H. apply shouldReply_truthy in H. congruence.
Qed.

(** The gate ends the response only with status 409. *)
Lemma getReplaceResponse_End (env : ProcessEnv) (req : Request)
    (st st' : State) (r : Reply) :
  getReplaceResponse env req st = End st' r → r = SendStatus 409.
Proof.
  unfold getReplaceResponse, setThen.
  destruct (negb _); [done|]. destruct (set _ _ _); [|done].
  by intros [= _ <-].
Qed.

Lemma replays_iff (env : ProcessEnv) (req : Request) (st : State) :
  replays env req st
  ↔ replayCondition env req ∧ legalRegion (PRIMARY_REGION env).
Proof.
  split.
  - intros (p & st' & Hp & Hr & _).
    destruct (replayCondition_dec env req) as [Hc|Hn].
    2: { rewrite (getReplaceResponse_passes _ _ _ Hn) in Hr. done. }
    split; [done|]. rewrite Hp. apply legalRegion_Some.
    destruct (isHeaderValue p) eqn:E; [done|].
    rewrite (getReplaceResponse_throws _ _ _ p Hc Hp E) in Hr. done.
  - intros [H Hlegal]. pose proof H as (_ & f & p & Hf & Hp & _).
    exists p. eexists. split; [done|]. split.
    + apply getReplaceResponse_fires; [done..|]. by apply Hlegal.
    + unfold withHeader. simpl. by rewrite lookup_insert_eq.
Qed.

(** *** The stamping layer *)

Lemma maxAge_legal :
  isHeaderValue (js "max-age=" ++ numberToString (60 * 60 * 24 * 365 * 100))
  = true.
Proof. reflexivity. Qed.

Lemma stampAndNormalize_fails (env : ProcessEnv) (req : Request) (st : State) :
  ¬ legalRegion (FLY_REGION env) →
  stampAndNormalize env req st = Fail st ERR_INVALID_CHAR.
Proof.
  intros H. unfold stampAndNormalize, setThen.
  rewrite set_illegal; [done|].
  apply not_true_is_false. intros E. by apply regionStamp_legal in E.
Qed.

(** With a legal region the two headers are stamped, and the path
    decides between the redirect and the next layer. *)
Lemma stampAndNormalize_eq (env : ProcessEnv) (req : Request) (st : State) :
  legalRegion (FLY_REGION env) →
  stampAndNormalize env req st
  = let st' :=
      withHeader (js "Strict-Transport-Security") (js "max-age=3153600000")
        (withHeader (js "x-fly-region")
           (default (js "unknown") (FLY_REGION env)) st) in
    if endsWith (js "/") (path req) && (1 <? length (path req))%nat
    then End st' (Redirect 301
                    (collapseSlashes (slice (path req) 0 (-1))
                     ++ sliceFrom (url req) (Z.of_nat (length (path req)))))
    else Next st'.
Proof.
  intros H. apply regionStamp_legal in H.
  unfold stampAndNormalize, setThen.
  rewrite (set_legal _ _ _ H), (set_legal _ _ _ maxAge_legal). reflexivity.
Qed.

Lemma stampAndNormalize_state (env : ProcessEnv) (req : Request) (st : State) :
  legalRegion (FLY_REGION env) →
  outcomeState (stampAndNormalize env req st)
  = withHeader (js "Strict-Transport-Security") (js "max-age=3153600000")
      (withHeader (js "x-fly-region")
         (default (js "unknown") (FLY_REGION env)) st).
Proof.
  intros H. rewrite (stampAndNormalize_eq _ _ _ H). cbv zeta.
  by destruct (endsWith (js "/") (path req) && (1 <? length (path req))%nat).
Qed.

Lemma stampAndNormalize_redirects (env : ProcessEnv) (req : Request)
    (st : State) :
  legalRegion (FLY_REGION env) → hasTrailingSlash req →
  stampAndNormalize env req st
  = End (outcomeState (stampAndNormalize env req st))
        (Redirect 301 (safepath req
                       ++ sliceFrom (url req) (Z.of_nat (length (path req))))).
Proof.
  intros H [He Hl]. apply Nat.ltb_lt in Hl.
  rewrite (stampAndNormalize_state _ _ _ H), (stampAndNormalize_eq _ _ _ H).
  cbv zeta. by rewrite He, Hl.
Qed.

Lemma stampAndNormalize_passes (env : ProcessEnv) (req : Request)
    (st : State) :
  legalRegion (FLY_REGION env) → ¬ hasTrailingSlash req →
  stampAndNormalize env req st
  = Next (outcomeState (stampAndNormalize env req st)).
Proof.
  intros H Hn.
  rewrite (stampAndNormalize_state _ _ _ H), (stampAndNormalize_eq _ _ _ H).
  cbv zeta.
  destruct (endsWith (js "/") (path req)) eqn:He; [|done].
  destruct (1 <? length (path req))%nat eqn:Hl; [|done].
  apply Nat.ltb_lt in Hl. destruct Hn. by split.
Qed.

(** The first layer ends the response only where its region is legal. *)
Lemma stampAndNormalize_End (env : ProcessEnv) (req : Request)
    (st st' : State) (r : Reply) :
  stampAndNormalize env req st = End st' r → legalRegion (FLY_REGION env).
Proof.
  intros H. destruct (legalRegion_dec (FLY_REGION env)) as [?|Hn]; [done|].
  by rewrite (stampAndNormalize_fails _ _ _ Hn) in H.
Qed.

Lemma hasTrailingSlash_dec (req : Request) :
  hasTrailingSlash req ∨ ¬ hasTrailingSlash req.
Proof.
  unfold hasTrailingSlash.
  destruct (endsWith (js "/") (path req)); [|right; by intros [? _]].
  destruct (Nat.ltb_spec 1 (length (path req))); [by left|].
  right. intros [_ ?]. lia.
Qed.

(** *** Precedence in the chain of layers *)

Lemma dispatch_Next (l : Layer) (h : Handler) (rest : list (Layer * Handler))
    (req : Request) (st st' : State) :
  h req st = Next st' →
  dispatch ((l, h) :: rest) req st
  = (l :: (dispatch rest req st').1, (dispatch rest req st').2).
Proof. intros H. simpl. rewrite H. by destruct (dispatch rest req st'). Qed.

Lemma dispatch_End (l : Layer) (h : Handler) (rest : list (Layer * Handler))
    (req : Request) (st st' : State) (r : Reply) :
  h req st = End st' r →
  dispatch ((l, h) :: rest) req st = ([l], Replied l st' r).
Proof. intros H. simpl. by rewrite H. Qed.

Lemma dispatch_Fail (l : Layer) (h : Handler) (rest : list (Layer * Handler))
    (req : Request) (st st' : State) (e : Error) :
  h req st = Fail st' e →
  dispatch ((l, h) :: rest) req st = ([l], Failed l st' e).
Proof. intros H. simpl. by rewrite H. Qed.

Section Chain.

Variables (compression staticBuild staticPublic morgan remix : Handler).

Abbreviation handle :=
  (handle compression staticBuild staticPublic morgan remix).

(** Under the replay condition a request is settled by the first two
    layers: it is redirected or fails in the first, or is replayed or
    fails in the gate. *)
Lemma handle_replay (env : ProcessEnv) (req : Request) :
  replayCondition env req →
  (handle env req).1 = [LStampAndNormalize]
  ∨ (handle env req).1 = [LStampAndNormalize; LReplayGate].
Proof.
  intros H. unfold Server.handle, app. simpl.
  destruct (stampAndNormalize env req _) as [st1|st1 r|st1 e]; [|by left..].
  pose proof H as (_ & f & p & _ & Hp & _).
  destruct (isHeaderValue p) eqn:E.
  - rewrite (getReplaceResponse_fires _ _ _ p H Hp E). by right.
  - rewrite (getReplaceResponse_throws _ _ _ p H Hp E). by right.
Qed.

(** A reply of the gate is preceded by the stamping layer only. *)
Lemma handle_gate_reply (env : ProcessEnv) (req : Request) (st' : State)
    (r : Reply) :
  (handle env req).2 = Replied LReplayGate st' r →
  (handle env req).1 = [LStampAndNormalize; LReplayGate] ∧ r = SendStatus 409.
Proof.
  unfold Server.handle, app. simpl.
  destruct (stampAndNormalize env req _) as [st1|st1 r1|st1 e1]; [|done..].
  destruct (getReplaceResponse env req st1) as [st2|st2 r2|st2 e2] eqn:E2.
  - destruct (compression req st2) as [st3| |]; [|done..].
    destruct (staticBuild req st3) as [st4| |]; [|done..].
    destruct (staticPublic req st4) as [st5| |]; [|done..].
    destruct (morgan req st5) as [st6| |]; [|done..].
    destruct (remix req st6); done.
  - simpl. intros [= <- <-]. split; [done|].
    by apply getReplaceResponse_End in E2.
  - done.
Qed.

End Chain.

(** C1 (amended).  The gate answers 409 with a [fly-replay] header naming
    the primary region exactly when the method is none of GET, HEAD,
    OPTIONS, both region variables are non-empty strings that differ, and
    the primary region is a legal header value.  When the condition on
    the method and the regions fails, the gate hands the request on with
    the response untouched; when only the header value is illegal, the
    gate throws with no header set.  A reply of the gate is preceded by
    the stamping layer only, and under the replay condition neither
    static layer is ever entered. *)
Theorem replay_gate_correct (env : ProcessEnv) (req : Request) (st : State) :
  (replays env req st
   ↔ replayCondition env req ∧ legalRegion (PRIMARY_REGION env))
  ∧ (¬ replayCondition env req → getReplaceResponse env req st = Next st)
  ∧ (replayCondition env req → ¬ legalRegion (PRIMARY_REGION env) →
     ∃ st', getReplaceResponse env req st = Fail st' ERR_INVALID_CHAR
            ∧ headers st' = headers st)
  ∧ (∀ compression staticBuild staticPublic morgan remix : Handler,
       let visited :=
         (Server.handle compression staticBuild staticPublic morgan remix
            env req).1 in
       let result :=
         (Server.handle compression staticBuild staticPublic morgan remix
            env req).2 in
       (∀ st' r, result = Replied LReplayGate st' r →
          visited = [LStampAndNormalize; LReplayGate] ∧ r = SendStatus 409)
       ∧ (replayCondition env req →
          (LStaticBuild ∉ visited) ∧ (LStaticPublic ∉ visited))).
Proof.
  split; [apply replays_iff|].
  split; [apply getReplaceResponse_passes|].
  split.
  { intros H Hn. pose proof H as (_ & f & p & _ & Hp & _).
    exists (info (replayLog env req) st). split; [|done].
    apply (getReplaceResponse_throws _ _ _ p H Hp).
    apply not_true_is_false. intros E. apply Hn. rewrite Hp.
    by apply legalRegion_Some. }
  intros compression staticBuild staticPublic morgan remix visited result.
  split.
  - intros st' r. apply handle_gate_reply.
  - intros H.
    destruct (handle_replay compression staticBuild staticPublic morgan remix
                env req H) as [E|E];
      subst visited; rewrite E; split; intros Hin;
      repeat (apply elem_of_cons in Hin as [?|Hin]; [done|]);
      by apply elem_of_nil in Hin.
Qed.

(** The example of the specification: a POST in region lhr with primary
    iad is answered 409 with [fly-replay: region=iad]. *)
Example replay_post_widgets :
  ∃ st', getReplaceResponse lhr_iad postWidgets st0 = End st' (SendStatus 409)
    ∧ headers st' !! js "fly-replay" = Some (js "region=iad").
Proof. eexists. split; [reflexivity|]. by vm_compute. Qed.

(** The trailing-slash layer comes first: a POST for [/posts/] in a
    secondary region is redirected, and the gate is not entered. *)
Example replay_after_redirect (compression staticBuild staticPublic morgan
    remix : Handler) :
  replayCondition lhr_iad postPostsSlash
  ∧ ∃ st', Server.handle compression staticBuild staticPublic morgan remix
             lhr_iad postPostsSlash
           = ([LStampAndNormalize],
              Replied LStampAndNormalize st' (Redirect 301 (js "/posts"))).
Proof.
  split.
  - apply shouldReply_truthy. reflexivity.
  - eexists. reflexivity.
Qed.

(** A primary region that no header can carry: the regions are set and
    differ and the method is POST, and the gate throws after its console
    line, with no [fly-replay] header; the request ends as a failure of
    the gate. *)
Example replay_illegal_region (compression staticBuild staticPublic morgan
    remix : Handler) :
  replayCondition lhr_check postWidgets
  ∧ ¬ replays lhr_check postWidgets st0
  ∧ getReplaceResponse lhr_check postWidgets st0
    = Fail (info (replayLog lhr_check postWidgets) st0) ERR_INVALID_CHAR
  ∧ Server.handle compression staticBuild staticPublic morgan remix
      lhr_check postWidgets
    = ([LStampAndNormalize; LReplayGate],
       Failed LReplayGate (info (replayLog lhr_check postWidgets)
                             (stamped lhr_check))
         ERR_INVALID_CHAR).
Proof.
  assert (replayCondition lhr_check postWidgets) as Hc.
  { apply shouldReply_truthy. reflexivity. }
  split; [exact Hc|]. split; [|split].
  - intros [_ H]%replays_iff. specialize (H _ eq_refl). done.
  - reflexivity.
  - reflexivity.
Qed.

(** C1, as stated, fails: with the current region set to the empty string
    both variables are set and differ and the method is POST, yet the gate
    does not replay. *)
Lemma replay_gate_empty_region :
  spec_replayCondition empty_iad postWidgets
  ∧ ¬ replays empty_iad postWidgets st0
  ∧ getReplaceResponse empty_iad postWidgets st0 = Next st0.
Proof.
  split; [|split].
  - repeat split; try (by eexists); [|done].
    intros Hin. repeat (apply elem_of_cons in Hin as [?|Hin]; [done|]).
    by apply elem_of_nil in Hin.
  - intros (p & st' & _ & H & _). vm_compute in H. done.
  - reflexivity.
Qed.

(** *** The trailing-slash redirect *)

Lemma stripTrailingSlashes_slash (p : jsstring) :
  stripTrailingSlashes (p ++ [SLASH]) = stripTrailingSlashes p.
Proof.
  induction p as [|a p IH]; [done|].
  simpl. by rewrite IH.
Qed.

Lemma stripTrailingSlashes_other (p : jsstring) (c : N) :
  c ≠ SLASH → stripTrailingSlashes (p ++ [c]) = p ++ [c].
Proof.
  intros Hc. induction p as [|a p IH].
  - simpl. by destruct (N.eqb_spec c SLASH).
  - simpl. rewrite IH. by destruct p.
Qed.

(** With a single trailing separator, the path the source computes is the
    canonical path of the specification. *)
Lemma safepath_canonical (t : jsstring) :
  t ≠ [] → endsWith (js "/") t = false →
  collapseSlashes t = spec_canonicalPath (t ++ [SLASH]).
Proof.
  intros Ht He. unfold spec_canonicalPath.
  rewrite stripTrailingSlashes_slash.
  destruct (exists_last Ht) as (u & c & ->).
  apply endsWith_slash_false in He.
  by rewrite stripTrailingSlashes_other.
Qed.

(** C2 (amended).  With a current region that is unset or a legal header
    value, a request whose path is longer than one code unit and ends in
    a separator is answered with a 301 redirect to the path without its
    last code unit, every run of separators collapsed to one, followed
    by the URL without as many leading code units as the path has.  When
    the URL is the path followed by the query, that is the query as
    received; and when moreover the path ends in exactly one separator,
    the target is the canonical path of the specification followed by
    the query. *)
Theorem trailing_slash_redirect (env : ProcessEnv) (req : Request)
    (st : State) :
  (1 < length (path req))%nat →
  endsWith (js "/") (path req) = true →
  legalRegion (FLY_REGION env) →
  let target :=
    collapseSlashes (removelast (path req))
    ++ sliceFrom (url req) (Z.of_nat (length (path req))) in
  (∃ st', stampAndNormalize env req st = End st' (Redirect 301 target))
  ∧ noSlashRun (collapseSlashes (removelast (path req))) = true
  ∧ (∀ query, url req = path req ++ query →
       target = collapseSlashes (removelast (path req)) ++ query
       ∧ (endsWith (js "/") (removelast (path req)) = false →
          spec_redirects env req st query)).
Proof.
  intros Hlen Hend Hlegal target.
  pose proof Hend as Hend'. apply endsWith_slash in Hend' as [t Ht].
  assert (Hcode : stampAndNormalize env req st
                  = End (outcomeState (stampAndNormalize env req st))
                        (Redirect 301 target)).
  { rewrite (stampAndNormalize_redirects env req st Hlegal) at 1 by done.
    unfold safepath. by rewrite slice_0_m1_removelast. }
  split; [by eexists|].
  split; [apply collapseSlashes_noSlashRun|].
  intros query Hurl.
  assert (target = collapseSlashes (removelast (path req)) ++ query) as Et.
  { subst target. by rewrite Hurl, sliceFrom_app. }
  split; [exact Et|].
  intros Hone. eexists. rewrite Hcode, Et. do 2 f_equal. f_equal.
  rewrite Ht in *. rewrite removelast_last in *.
  apply safepath_canonical; [|done].
  intros ->. simpl in Hlen. lia.
Qed.

(** The second example of the specification: [/posts/?page=2] is
    redirected to [/posts?page=2]. *)
Lemma trailing_slash_redirect_page2 :
  ∃ st', stampAndNormalize lhr_iad getPostsPage2 st0 =
           End st' (Redirect 301 (js "/posts?page=2")).
Proof.
  destruct (trailing_slash_redirect lhr_iad getPostsPage2 st0)
    as [H _].
  - vm_compute. lia.
  - reflexivity.
  - intros s [= <-]. reflexivity.
  - exact H.
Defined.

(** C2, as stated, fails on its own first example: [/posts//] is
    redirected to [/posts/], one separator removed, and not to the
    canonical [/posts]. *)
Lemma trailing_slash_double :
  (∃ st', stampAndNormalize lhr_iad getPostsDoubleSlash st0 =
            End st' (Redirect 301 (js "/posts/")))
  ∧ spec_canonicalPath (path getPostsDoubleSlash) = js "/posts"
  ∧ ¬ spec_redirects lhr_iad getPostsDoubleSlash st0 [].
Proof.
  split; [eexists; reflexivity|]. split; [reflexivity|].
  intros [st' H]. vm_compute in H. done.
Qed.

(** A request target in absolute form: what follows the first seven code
    units of the URL, the length of the path, is appended, and that is
    no query. *)
Example trailing_slash_absolute_form :
  stampAndNormalize lhr_iad getAbsoluteForm st0
  = End (stamped lhr_iad) (Redirect 301 (js "/postsexample.org/posts/")).
Proof. reflexivity. Qed.

(** A current region that no header can carry: the first layer throws
    before any header is set, whatever the path. *)
Example stamp_illegal_region :
  stampAndNormalize check_iad getPostsPage2 st0 = Fail st0 ERR_INVALID_CHAR.
Proof. reflexivity. Qed.

(** *** The two own layers together *)

Section Table.

Variables (compression staticBuild staticPublic morgan remix : Handler).

(** X1.  What the application does with a request is decided by its
    first two layers in five disjoint cases.  With a current region that
    no header can carry, the first layer throws with no header set.
    Otherwise a path longer than one code unit that ends with a
    separator is redirected by the first layer, the response carrying
    the two stamped headers only.  Any other request under the replay
    condition is answered 409 by the gate, with the two stamped headers,
    the [fly-replay] header and one console line, when the primary
    region is a legal header value, and makes the gate throw after the
    console line when it is not.  Every other request reaches the
    library layers with exactly the two stamped headers and nothing
    logged, and ends as those layers end it. *)
Theorem handle_cases (env : ProcessEnv) (req : Request) :
  let handle :=
    Server.handle compression staticBuild staticPublic morgan remix in
  let library :=
    dispatch (libraryLayers compression staticBuild staticPublic morgan remix)
             req (stamped env) in
  let logged := info (replayLog env req) (stamped env) in
  (¬ legalRegion (FLY_REGION env) →
   handle env req
   = ([LStampAndNormalize], Failed LStampAndNormalize st0 ERR_INVALID_CHAR))
  ∧ (legalRegion (FLY_REGION env) → hasTrailingSlash req →
     handle env req
     = ([LStampAndNormalize],
        Replied LStampAndNormalize (stamped env)
          (Redirect 301
             (safepath req
              ++ sliceFrom (url req) (Z.of_nat (length (path req)))))))
  ∧ (legalRegion (FLY_REGION env) → ¬ hasTrailingSlash req →
     replayCondition env req → legalRegion (PRIMARY_REGION env) →
     handle env req
     = ([LStampAndNormalize; LReplayGate],
        Replied LReplayGate
          (withHeader (js "fly-replay")
             (js "region=" ++ default [] (PRIMARY_REGION env)) logged)
          (SendStatus 409)))
  ∧ (legalRegion (FLY_REGION env) → ¬ hasTrailingSlash req →
     replayCondition env req → ¬ legalRegion (PRIMARY_REGION env) →
     handle env req
     = ([LStampAndNormalize; LReplayGate],
        Failed LReplayGate logged ERR_INVALID_CHAR))
  ∧ (legalRegion (FLY_REGION env) → ¬ hasTrailingSlash req →
     ¬ replayCondition env req →
     handle env req
     = (LStampAndNormalize :: LReplayGate :: library.1, library.2)).
Proof.
  intros handle library logged. subst handle library logged.
  assert (Hst : legalRegion (FLY_REGION env) →
                outcomeState (stampAndNormalize env req st0) = stamped env).
  { intros H. by rewrite stampAndNormalize_state. }
  unfold Server.handle, app.
  fold (libraryLayers compression staticBuild staticPublic morgan remix).
  split_and!.
  - intros H. apply dispatch_Fail. by apply stampAndNormalize_fails.
  - intros Hl H. apply dispatch_End.
    by rewrite (stampAndNormalize_redirects _ _ _ Hl H), Hst.
  - intros Hl H Hr Hp.
    rewrite (dispatch_Next _ _ _ _ _ (stamped env))
      by by rewrite (stampAndNormalize_passes _ _ _ Hl H), Hst.
    pose proof Hr as (_ & f & p & _ & Ep & _).
    rewrite (dispatch_End _ _ _ _ _ _ _
               (getReplaceResponse_fires _ _ _ p Hr Ep (Hp _ Ep))).
    by rewrite Ep.
  - intros Hl H Hr Hp.
    rewrite (dispatch_Next _ _ _ _ _ (stamped env))
      by by rewrite (stampAndNormalize_passes _ _ _ Hl H), Hst.
    pose proof Hr as (_ & f & p & _ & Ep & _).
    rewrite (dispatch_Fail _ _ _ _ _ (info (replayLog env req) (stamped env))
               ERR_INVALID_CHAR); [done|].
    apply (getReplaceResponse_throws _ _ _ p Hr Ep).
    apply not_true_is_false. intros E. apply Hp. rewrite Ep.
    by apply legalRegion_Some.
  - intros Hl H Hr.
    rewrite (dispatch_Next _ _ _ _ _ (stamped env))
      by by rewrite (stampAndNormalize_passes _ _ _ Hl H), Hst.
    by rewrite (dispatch_Next _ _ _ _ _ (stamped env))
      by by apply getReplaceResponse_passes.
Qed.

End Table.

(** *** Where a redirect leads *)

Lemma safepath_nonempty (t : jsstring) : t ≠ [] → collapseSlashes t ≠ [].
Proof.
  destruct t as [|c t]; [done|]. intros _ H.
  pose proof (collapseSlashes_head t c) as Hh. by rewrite H in Hh.
Qed.

(** X2.  A redirect of the first layer has status 301 and a target that
    is not empty and does not begin with two separators, so that it
    cannot be read as a host name: provided the query, what follows the
    path in the URL, does not itself begin with a separator. *)
Theorem redirect_not_protocol_relative (env : ProcessEnv) (req : Request)
    (st st' : State) (status : N) (target query : jsstring) :
  stampAndNormalize env req st = End st' (Redirect status target) →
  url req = path req ++ query →
  head query ≠ Some SLASH →
  status = 301%N
  ∧ target = safepath req ++ query
  ∧ target ≠ []
  ∧ startsWith [SLASH; SLASH] target = false.
Proof.
  intros H Hurl Hq.
  pose proof (stampAndNormalize_End _ _ _ _ _ H) as Hl.
  destruct (hasTrailingSlash_dec req) as [Ht|Ht].
  2: { rewrite (stampAndNormalize_passes _ _ _ Hl Ht) in H. done. }
  rewrite (stampAndNormalize_redirects _ _ _ Hl Ht) in H.
  injection H as _ <- <-. split; [done|].
  rewrite Hurl, sliceFrom_app. split; [done|].
  destruct Ht as [He Hlen]. apply endsWith_slash in He as [t Et].
  unfold safepath. rewrite Et, slice_0_m1.
  assert (t ≠ []) as Hne.
  { intros ->. rewrite Et in Hlen. simpl in Hlen. lia. }
  pose proof (safepath_nonempty t Hne) as Hs.
  pose proof (collapseSlashes_noSlashRun t) as Hrun.
  destruct (collapseSlashes t) as [|c [|d r]]; [done| |].
  - split; [done|]. apply not_true_is_false. intros Hss.
    apply startsWith_inv in Hss as [r Hr].
    destruct query as [|q query]; [done|].
    injection Hr as -> ->. by destruct Hq.
  - split; [done|]. apply not_true_is_false. intros Hss.
    apply startsWith_inv in Hss as [r' Hr].
    injection Hr as -> -> _. done.
Qed.

(** A request for [//example.org/] is redirected to [/example.org]. *)
Lemma redirect_not_protocol_relative_sample :
  stampAndNormalize lhr_iad getProtocolRelative st0
  = End (stamped lhr_iad) (Redirect 301 (js "/example.org"))
  ∧ startsWith [SLASH; SLASH] (js "/example.org") = false.
Proof.
  split; [reflexivity|].
  apply (redirect_not_protocol_relative lhr_iad getProtocolRelative st0
           (stamped lhr_iad) 301 (js "/example.org") []);
    [reflexivity|reflexivity|done].
Defined.






(** *** The build in development *)

Section BuildFacts.

Context {Mod : Type}.

Implicit Types cache : gmap jsstring Mod.

Lemma purgeKey_lookup (buildDir : jsstring) cache (key k : jsstring) :
  purgeKey buildDir cache key !! k
  = if startsWith buildDir k && bool_decide (k = key) then None
    else cache !! k.
Proof.
  unfold purgeKey.
  destruct (bool_decide_reflect (k = key)) as [->|Hk].
  - destruct (startsWith buildDir key); [|done]. by rewrite lookup_delete_eq.
  - rewrite andb_false_r.
    destruct (startsWith buildDir key); [|done]. by rewrite lookup_delete_ne.
Qed.

Lemma purge_keys_lookup (buildDir : jsstring) (keys : list jsstring) cache
    (k : jsstring) :
  foldl (purgeKey buildDir) cache keys !! k
  = if startsWith buildDir k && bool_decide (k ∈ keys) then None
    else cache !! k.
Proof.
  revert cache. induction keys as [|key keys IH]; intros cache.
  - by rewrite andb_false_r.
  - simpl. rewrite IH, purgeKey_lookup.
    destruct (startsWith buildDir k); [|done]. simpl.
    destruct (bool_decide_reflect (k = key)) as [->|Hk].
    + rewrite (bool_decide_eq_true_2 (key ∈ key :: keys)) by by left.
      by destruct (bool_decide (key ∈ keys)).
    + destruct (bool_decide_reflect (k ∈ keys)) as [Hin|Hin].
      * by rewrite bool_decide_eq_true_2 by by right.
      * rewrite bool_decide_eq_false_2; [done|].
        intros [?|?]%elem_of_cons; done.
Qed.

Lemma purgeRequiredCache_lookup (buildDir : jsstring) cache (k : jsstring) :
  purgeRequiredCache buildDir cache !! k
  = if startsWith buildDir k then None else cache !! k.
Proof.
  unfold purgeRequiredCache. rewrite purge_keys_lookup.
  destruct (startsWith buildDir k); [|done]. simpl.
  destruct (bool_decide_reflect (k ∈ (map_to_list cache).*1)) as [Hin|Hin];
    [done|].
  destruct (cache !! k) as [m|] eqn:E; [|done].
  destruct Hin. apply list_elem_of_fmap. exists (k, m). split; [done|].
  by apply elem_of_map_to_list.
Qed.

(** X4.  The purge removes from the module cache exactly the entries
    whose key begins with the build directory, whatever follows in the
    key, and keeps every other entry with its module; in whatever order
    the keys are visited.  Purging twice is purging once. *)
Theorem purgeRequiredCache_correct (buildDir : jsstring) cache :
  (∀ k : jsstring,
     purgeRequiredCache buildDir cache !! k
     = if startsWith buildDir k then None else cache !! k)
  ∧ (∀ k : jsstring, is_Some (cache !! k) →
       purgeRequiredCache buildDir cache !! k = None
       ↔ ∃ rest, k = buildDir ++ rest)
  ∧ purgeRequiredCache buildDir (purgeRequiredCache buildDir cache)
    = purgeRequiredCache buildDir cache.
Proof.
  split; [apply purgeRequiredCache_lookup|]. split.
  - intros k [m Hm]. rewrite purgeRequiredCache_lookup. split.
    + destruct (startsWith buildDir k) eqn:E.
      * intros _. by apply startsWith_inv.
      * intros Hn. rewrite Hn in Hm. done.
    + intros [rest ->]. by rewrite startsWith_app.
  - apply map_eq. intros k. rewrite !purgeRequiredCache_lookup.
    by destruct (startsWith buildDir k).
Qed.

Variable require : gmap jsstring Mod → jsstring → gmap jsstring Mod * Mod.
Variable createRequestHandler : Mod → value → Handler.

(** X5.  Outside production, what the module cache holds under the build
    directory has no influence on how a request is served: two caches
    that agree on every key not beginning with the build directory give
    the same reply and leave the same cache. *)
Theorem developmentHandler_fresh (MODE : value) (buildDir : jsstring)
    cache cache' (req : Request) (st : State) :
  (∀ k : jsstring,
     startsWith buildDir k = false → cache !! k = cache' !! k) →
  developmentHandler require createRequestHandler MODE buildDir cache req st
  = developmentHandler require createRequestHandler MODE buildDir cache'
      req st.
Proof.
  intros H. unfold developmentHandler.
  assert (purgeRequiredCache buildDir cache
          = purgeRequiredCache buildDir cache') as ->; [|done].
  apply map_eq. intros k. rewrite !purgeRequiredCache_lookup.
  destruct (startsWith buildDir k) eqn:E; [done|]. by apply H.
Qed.

End BuildFacts.

(** With a stale build in the cache, a request is served as with none. *)
Lemma developmentHandler_fresh_sample :
  developmentHandler sampleRequire sampleCreateRequestHandler VUndefined
    (BUILD_DIR (js "/app")) staleCache getPostsPage2 st0
  = developmentHandler sampleRequire sampleCreateRequestHandler VUndefined
      (BUILD_DIR (js "/app")) freshCache getPostsPage2 st0.
Proof.
  apply developmentHandler_fresh. intros k Hk. unfold staleCache.
  rewrite lookup_insert_ne; [done|]. intros <-. by vm_compute in Hk.
Defined.

End ServerFacts.

(** ** The scaffold initializer *)

Module InitFacts.

Import Init JSFacts.

(** *** The application name *)

Lemma isAppNameChar_spec (c : N) : isAppNameChar c = true ↔ spec_allowed c.
Proof.
  unfold isAppNameChar, spec_allowed, HYPHEN, UNDERSCORE.
  rewrite !orb_true_iff, !andb_true_iff, !N.leb_le, !N.eqb_eq. lia.
Qed.

Lemma replaceDisallowed_spec (s : jsstring) :
  Forall2 spec_sanitized s (replaceDisallowed s).
Proof.
  induction s as [|c s IH]; constructor; [|exact IH].
  unfold spec_sanitized.
  destruct (isAppNameChar c) eqn:E.
  - left. split; [by apply isAppNameChar_spec | done].
  - right. split; [|done]. rewrite <- isAppNameChar_spec. congruence.
Qed.

Lemma replaceDisallowed_allowed (s : jsstring) :
  Forall spec_allowed (replaceDisallowed s).
Proof.
  induction s as [|c s IH]; constructor; [|exact IH].
  destruct (isAppNameChar c) eqn:E.
  - by apply isAppNameChar_spec.
  - unfold spec_allowed. auto.
Qed.

(** C9.  The application name is the base name of the target directory
    with every code unit outside [[A-Za-z0-9-_]] replaced by a hyphen, the
    others kept; a directory named [My Cool App!] yields
    [My-Cool-App-]. *)
Theorem APP_NAME_correct (rootDirectory : jsstring) :
  Forall2 spec_sanitized (basename rootDirectory) (APP_NAME rootDirectory)
  ∧ Forall spec_allowed (APP_NAME rootDirectory)
  ∧ APP_NAME (js "My Cool App!") = js "My-Cool-App-"
  ∧ APP_NAME (js "/home/dev/My Cool App!") = js "My-Cool-App-".
Proof.
  split; [apply replaceDisallowed_spec|].
  split; [apply replaceDisallowed_allowed|].
  split; reflexivity.
Qed.

(** *** The command table *)

Lemma npmCommands_complete : spec_complete npmCommands.
Proof. repeat split; by eexists. Qed.

(** C3 fails for two of the three package managers: the command sets of
    pnpm and yarn have an exec command, a lockfile name and a run-command
    builder, but no install-command builder; only the one of npm is
    complete.  Calling [install] on the set of yarn is a [TypeError]. *)
Theorem install_only_for_npm :
  spec_complete npmCommands
  ∧ (∀ a b, pnpmCommands a b !! js "install" = None
            ∧ ¬ spec_complete (pnpmCommands a b)
            ∧ is_Some (pnpmCommands a b !! js "exec")
            ∧ is_Some (pnpmCommands a b !! js "lockfile")
            ∧ is_Some (pnpmCommands a b !! js "run"))
  ∧ yarnCommands !! js "install" = None
  ∧ ¬ spec_complete yarnCommands
  ∧ is_Some (yarnCommands !! js "exec")
  ∧ is_Some (yarnCommands !! js "lockfile")
  ∧ is_Some (yarnCommands !! js "run")
  ∧ call yarnCommands (js "install") (js "aws-amplify") VUndefined
    = Throw (plain TypeError)
  ∧ (∀ host packageManager w w' cs,
       getPackageManagerCommand host packageManager w = (w', Ok cs) →
       spec_complete cs ↔ packageManager = npm).
Proof.
  assert (∀ a b, ¬ spec_complete (pnpmCommands a b)) as Hpnpm.
  { intros a b (_ & _ & _ & [m Hm]). done. }
  assert (¬ spec_complete yarnCommands) as Hyarn.
  { intros (_ & _ & _ & [m Hm]). done. }
  split; [apply npmCommands_complete|].
  split.
  { intros a b. split; [done|]. split; [apply Hpnpm|].
    repeat split; by eexists. }
  split; [done|]. split; [exact Hyarn|].
  split; [by eexists|]. split; [by eexists|]. split; [by eexists|].
  split; [done|].
  intros host [| |] w w' cs; simpl.
  - intros [= <- <-]. split; [done|]. intros _.
    apply npmCommands_complete.
  - unfold getPackageManagerVersion, exec, spawn, bind, emit, lift, ret. simpl.
    destruct (execSync host _ None _) as [d [out|e]]; [|done]. simpl.
    destruct (semver_lt host _ _); [|done]. simpl.
    destruct (semver_gte host _ _); [|done]. simpl.
    intros [= <- <-]. split; [|done]. intros H. by apply Hpnpm in H.
  - intros [= <- <-]. split; [|done]. intros H. by apply Hyarn in H.
Qed.

(** *** The base name *)

Lemma basenameFrom_noslash (s cur last : jsstring) :
  Forall (λ c, c ≠ SLASH) s →
  basenameFrom cur last s = match cur ++ s with [] => last | r => r end.
Proof.
  revert cur. induction s as [|c s IH]; intros cur Hs.
  - simpl. rewrite app_nil_r. by destruct cur.
  - apply Forall_cons in Hs as [Hc Hs]. simpl.
    destruct (N.eqb_spec c SLASH) as [?|_]; [done|].
    rewrite IH by done. by rewrite <- app_assoc.
Qed.

Lemma basenameFrom_slash (a name cur last : jsstring) :
  ∃ last', basenameFrom cur last (a ++ SLASH :: name)
           = basenameFrom [] last' name.
Proof.
  revert cur last. induction a as [|c a IH]; intros cur last.
  - simpl. eauto.
  - simpl. destruct (c =? SLASH)%N; apply IH.
Qed.

(** The base name of a directory joined with a name is that name. *)
Lemma basename_join (dir name : jsstring) :
  name ≠ [] → Forall (λ c, c ≠ SLASH) name →
  basename (join dir name) = name.
Proof.
  intros Hne Hs. unfold basename, join.
  destruct (basenameFrom_slash dir name [] []) as [last' ->].
  rewrite basenameFrom_noslash by done. by destruct name.
Qed.

(** *** The session secret *)

Lemma length_toHex (bytes : list N) : length (toHex bytes) = 2 * length bytes.
Proof. induction bytes as [|b bs IH]; simpl; lia. Qed.

Lemma hexDigit_isHexDigit (d : N) : (d < 16)%N → isHexDigit (hexDigit d) = true.
Proof.
  intros Hd. unfold isHexDigit, hexDigit.
  destruct (N.ltb_spec d 10);
    rewrite orb_true_iff, !andb_true_iff, !N.leb_le; lia.
Qed.

Lemma toHex_isHexDigit (bytes : list N) :
  Forall (λ b, (b < 256)%N) bytes →
  Forall (λ c, isHexDigit c = true) (toHex bytes).
Proof.
  induction 1 as [|b bs Hb _ IH]; simpl; [constructor|].
  constructor; [|constructor; [|exact IH]].
  - apply hexDigit_isHexDigit. apply N.Div0.div_lt_upper_bound. lia.
  - apply hexDigit_isHexDigit. apply N.mod_lt. lia.
Qed.

(** The secret is 32 hexadecimal digits, whatever the random source. *)
Lemma getRandomString_16 (host : Host) :
  length (getRandomString host 16) = 32
  ∧ Forall (λ c, isHexDigit c = true) (getRandomString host 16).
Proof.
  unfold getRandomString. split.
  - rewrite length_toHex. unfold randomBytes. by rewrite length_map, length_seq.
  - apply toHex_isHexDigit. unfold randomBytes.
    apply Forall_map, Forall_forall. intros i _. simpl.
    apply N.mod_lt. lia.
Qed.

Lemma replaceSessionSecretFrom_eq (first : bool) (rep s : jsstring) :
  replaceSessionSecretFrom first rep s =
    if first && startsWith SESSION_SECRET_ASSIGN s
    then rep ++ afterLine (drop (length SESSION_SECRET_ASSIGN) s)
    else match s with
         | [] => []
         | c :: rest =>
             c :: replaceSessionSecretFrom (isLineTerminator c) rep rest
         end.
Proof. by destruct s. Qed.

Lemma afterLine_line (old post : jsstring) :
  noTerminator old → lineEnd post → afterLine (old ++ post) = post.
Proof.
  intros Hold Hpost. induction Hold as [|c old Hc _ IH]; simpl.
  - destruct Hpost as [->|(t & p & -> & Ht)]; [done|]. simpl. by rewrite Ht.
  - by rewrite Hc.
Qed.

(** Where a line starts with the assignment, the line is replaced. *)
Lemma replaceSessionSecretFrom_here (rep old post : jsstring) :
  noTerminator old → lineEnd post →
  replaceSessionSecretFrom true rep (SESSION_SECRET_ASSIGN ++ old ++ post)
  = rep ++ post.
Proof.
  intros Hold Hpost. rewrite replaceSessionSecretFrom_eq.
  rewrite startsWith_app. simpl andb. cbv iota.
  rewrite drop_app_length. by rewrite afterLine_line.
Qed.

(** The text before the first such line is copied. *)
Lemma replaceSessionSecretFrom_skip (rep pre rest : jsstring) (first : bool) :
  noAssignLineIn first pre rest →
  replaceSessionSecretFrom first rep (pre ++ rest)
  = pre ++ replaceSessionSecretFrom
             (match last pre with
              | None => first
              | Some t => isLineTerminator t
              end) rep rest.
Proof.
  revert first. induction pre as [|c pre IH]; intros first H; [done|].
  rewrite replaceSessionSecretFrom_eq.
  assert (first && startsWith SESSION_SECRET_ASSIGN ((c :: pre) ++ rest)
          = false) as ->.
  { destruct first; [|done]. simpl andb.
    apply (H [] (c :: pre)); [done|done|]. by left. }
  simpl app. f_equal. rewrite IH.
  - destruct pre as [|d l]; [done|].
    change (last (c :: d :: l)) with (last (d :: l)).
    destruct (last (d :: l)) eqn:E; [done|]. by apply last_None in E.
  - intros a b -> Hb Ha. apply (H (c :: a) b); [done|done|].
    right. destruct Ha as [[-> Hc]|(p & t & -> & Ht)].
    + by exists [], c.
    + by exists (c :: p), t.
Qed.

(** The first line that starts with the assignment is replaced by the
    new assignment, and what precedes and follows it is kept. *)
Lemma session_secret_first_line (host : Host)
    (env pre old post : jsstring) :
  isAssignLine env pre old post →
  noAssignLineIn true pre (SESSION_SECRET_ASSIGN ++ old ++ post) →
  newEnv host env
    = pre ++ secretLine (getRandomString host 16) ++ post
  ∧ length (getRandomString host 16) = 32
  ∧ Forall (λ c, isHexDigit c = true) (getRandomString host 16).
Proof.
  intros (-> & Hpre & Hold & Hpost) Hfirst.
  split; [|apply getRandomString_16].
  unfold newEnv, replaceSessionSecret.
  rewrite replaceSessionSecretFrom_skip by done.
  assert (match last pre with
          | None => true
          | Some t => isLineTerminator t
          end = true) as ->.
  { destruct Hpre as [[-> _]|(p & t & -> & Ht)]; [done|].
    by rewrite last_snoc. }
  rewrite replaceSessionSecretFrom_here by done.
  unfold secretLine. by rewrite <- !app_assoc.
Qed.

Lemma lineStartFrom_cons (first : bool) (c : N) (a : jsstring) :
  lineStartFrom (isLineTerminator c) a → lineStartFrom first (c :: a).
Proof.
  intros [[-> Hc]|(p & t & -> & Ht)]; right.
  - by exists [], c.
  - by exists (c :: p), t.
Qed.

Lemma lineStartFrom_uncons (first : bool) (c : N) (a : jsstring) :
  lineStartFrom first (c :: a) → lineStartFrom (isLineTerminator c) a.
Proof.
  intros [[? _]|(p & t & E & Ht)]; [done|].
  destruct p as [|c' p]; simpl in E; injection E as -> ->.
  - by left.
  - right. by exists p, t.
Qed.

#[local] Opaque SESSION_SECRET_ASSIGN.

(** Among the lines that start with the assignment there is a first
    one. *)
Lemma first_assign_line (s : jsstring) (first : bool) :
  (∃ a r, s = a ++ SESSION_SECRET_ASSIGN ++ r ∧ lineStartFrom first a) →
  ∃ pre rest,
    s = pre ++ SESSION_SECRET_ASSIGN ++ rest
    ∧ lineStartFrom first pre
    ∧ noAssignLineIn first pre (SESSION_SECRET_ASSIGN ++ rest).
Proof.
  revert first. induction s as [|c s IH]; intros first (a & r & E & Ha).
  { by destruct a. }
  destruct (first && startsWith SESSION_SECRET_ASSIGN (c :: s)) eqn:Eh.
  - apply andb_true_iff in Eh as [-> Hs].
    apply startsWith_inv in Hs as [rest Hs].
    exists [], rest. split; [done|]. split; [by left|].
    intros a' b Hab Hb. by destruct a', b.
  - destruct a as [|c' a].
    { destruct Ha as [[_ ->]|(p & t & Hp & _)]; [|by destruct p].
      rewrite E in Eh.
      change ([] ++ SESSION_SECRET_ASSIGN ++ r)
        with (SESSION_SECRET_ASSIGN ++ r) in Eh.
      by rewrite startsWith_app in Eh. }
    rewrite <- app_comm_cons in E. injection E as <- E.
    apply lineStartFrom_uncons in Ha.
    destruct (IH (isLineTerminator c)) as (pre & rest & -> & Hpre & Hfirst);
      [by eauto|].
    exists (c :: pre), rest. split; [done|].
    split; [by apply lineStartFrom_cons|].
    intros a' b Hab Hb Ha'. destruct a' as [|c' a'].
    + destruct Ha' as [[_ ->]|(p & t & Hp & _)]; [|by destruct p].
      change ([] ++ b) with b in Hab. subst b.
      by rewrite <- app_comm_cons.
    + rewrite <- app_comm_cons in Hab. injection Hab as <- Hab.
      apply (Hfirst a' b); [done|done|].
      by apply lineStartFrom_uncons in Ha'.
Qed.

#[local] Transparent SESSION_SECRET_ASSIGN.

(** Every text starts with a line: code units that are no terminators,
    up to a terminator or the end. *)
Lemma line_split (s : jsstring) :
  ∃ old post, s = old ++ post ∧ noTerminator old ∧ lineEnd post.
Proof.
  induction s as [|c s (old & post & -> & Hold & Hpost)].
  - exists [], []. split; [done|]. split; [constructor | by left].
  - destruct (isLineTerminator c) eqn:Ec.
    + exists [], (c :: old ++ post). split; [done|].
      split; [constructor|]. right. by exists c, (old ++ post).
    + exists (c :: old), post. split; [done|]. split; [by constructor|done].
Qed.

Lemma hexDigit_inj (d1 d2 : N) :
  (d1 < 16)%N → (d2 < 16)%N → hexDigit d1 = hexDigit d2 → d1 = d2.
Proof.
  unfold hexDigit. intros H1 H2.
  destruct (N.ltb_spec d1 10), (N.ltb_spec d2 10); lia.
Qed.

Lemma toHex_inj (bs1 bs2 : list N) :
  Forall (λ b, (b < 256)%N) bs1 → Forall (λ b, (b < 256)%N) bs2 →
  toHex bs1 = toHex bs2 → bs1 = bs2.
Proof.
  intros H1. revert bs2.
  induction H1 as [|b1 bs1 Hb1 _ IH]; intros bs2 H2 E.
  - by destruct bs2.
  - destruct H2 as [|b2 bs2 Hb2 H2]; [done|].
    simpl in E. injection E as Ehi Elo E.
    apply hexDigit_inj in Ehi;
      [|apply N.Div0.div_lt_upper_bound; lia..].
    apply hexDigit_inj in Elo; [|apply N.mod_lt; lia..].
    f_equal; [|by apply IH].
    rewrite (N.div_mod b1 16), (N.div_mod b2 16) by lia. congruence.
Qed.

Lemma randomBytes_bytes (host : Host) (n : nat) :
  Forall (λ b, (b < 256)%N) (randomBytes host n).
Proof.
  unfold randomBytes. apply Forall_map, Forall_forall. intros i _. simpl.
  apply N.mod_lt. lia.
Qed.

Lemma spec_hexValue_hexDigit (d : N) :
  (d < 16)%N → spec_hexValue (hexDigit d) = Some d.
Proof.
  intros Hd. unfold spec_hexValue, hexDigit.
  destruct (N.ltb_spec d 10).
  - rewrite (proj2 (N.leb_le _ _)), (proj2 (N.leb_le _ _)) by lia.
    simpl. f_equal. lia.
  - destruct (48 <=? 87 + d)%N eqn:E1, (87 + d <=? 57)%N eqn:E2; simpl;
      try (apply N.leb_le in E2; lia).
    + rewrite (proj2 (N.leb_le _ _)), (proj2 (N.leb_le _ _)) by lia.
      simpl. f_equal. lia.
    + rewrite (proj2 (N.leb_le _ _)), (proj2 (N.leb_le _ _)) by lia.
      simpl. f_equal. lia.
Qed.

(** The two digits at the place of a byte read as that byte. *)
Lemma toHex_lookup (bytes : list N) (i : nat) (b : N) :
  bytes !! i = Some b →
  toHex bytes !! (2 * i) = Some (hexDigit (b / 16))
  ∧ toHex bytes !! (2 * i + 1) = Some (hexDigit (b mod 16)).
Proof.
  revert i. induction bytes as [|b0 bytes IH]; intros i H; [done|].
  destruct i as [|i].
  - injection H as ->. done.
  - simpl in H. destruct (IH i H) as [H1 H2].
    replace (2 * S i) with (S (S (2 * i))) by lia.
    replace (S (S (2 * i)) + 1) with (S (S (2 * i + 1))) by lia.
    done.
Qed.

Lemma randomBytes_lookup (host : Host) (n i : nat) :
  i < n → randomBytes host n !! i = Some (spec_byte host i).
Proof.
  intros Hi. unfold randomBytes, spec_byte.
  rewrite list_lookup_fmap, lookup_seq_lt by done. done.
Qed.

(** The random string writes the bytes of the random source. *)
Lemma getRandomString_spec (host : Host) (n : nat) :
  spec_hexOf (spec_byte host) n (getRandomString host n).
Proof.
  unfold getRandomString. split.
  - rewrite length_toHex. unfold randomBytes.
    by rewrite length_map, length_seq.
  - intros i Hi.
    destruct (toHex_lookup _ _ _ (randomBytes_lookup host n i Hi))
      as [H1 H2].
    assert (spec_byte host i < 256)%N as Hb
      by (apply N.mod_lt; lia).
    eexists _, _, (spec_byte host i / 16)%N, (spec_byte host i mod 16)%N.
    split; [exact H1|]. split; [exact H2|].
    split; [apply spec_hexValue_hexDigit, N.Div0.div_lt_upper_bound; lia|].
    split; [apply spec_hexValue_hexDigit, N.mod_lt; lia|].
    symmetry. apply N.div_mod. lia.
Qed.

Lemma secretLine_inj (a b : jsstring) : secretLine a = secretLine b → a = b.
Proof.
  unfold secretLine. intros H.
  apply app_inv_head in H. apply app_inv_head in H.
  by apply app_inj_tail in H as [H _].
Qed.

(** C7.  When the environment file has a line of the form
    [SESSION_SECRET=old], one such line is replaced by the assignment of
    a quoted secret, and what precedes and what follows that line is
    kept as it is.  The line is the first of that form: no line starting
    with [SESSION_SECRET=] precedes it.  The secret is 32 hexadecimal
    digits that write the 16 bytes the random source yielded, so that
    two runs that leave the same file drew the same bytes. *)
Theorem session_secret_rewritten (host : Host) (env : jsstring) :
  (∃ pre old post, isAssignLine env pre old post) →
  ∃ pre old post secret,
    isAssignLine env pre old post
    ∧ noAssignLineIn true pre (SESSION_SECRET_ASSIGN ++ old ++ post)
    ∧ newEnv host env = pre ++ secretLine secret ++ post
    ∧ length secret = 32
    ∧ Forall (λ c, isHexDigit c = true) secret
    ∧ spec_hexOf (spec_byte host) 16 secret
    ∧ ∀ host', newEnv host' env = newEnv host env →
               ∀ i, i < 16 → spec_byte host' i = spec_byte host i.
Proof.
  intros (pre0 & old0 & post0 & -> & Hpre0 & _ & _).
  destruct (first_assign_line
              (pre0 ++ SESSION_SECRET_ASSIGN ++ old0 ++ post0) true)
    as (pre & rest & E & Hpre & Hfirst); [by exists pre0, (old0 ++ post0)|].
  destruct (line_split rest) as (old & post & -> & Hold & Hpost).
  assert (isAssignLine (pre0 ++ SESSION_SECRET_ASSIGN ++ old0 ++ post0)
            pre old post) as Hline by done.
  exists pre, old, post, (getRandomString host 16).
  split; [done|]. split; [done|].
  destruct (session_secret_first_line host _ pre old post Hline Hfirst)
    as (Hnew & Hlen & Hhex).
  split; [exact Hnew|]. split; [exact Hlen|]. split; [exact Hhex|].
  split; [apply getRandomString_spec|].
  intros host' Heq i Hi.
  destruct (session_secret_first_line host' _ pre old post Hline Hfirst)
    as (Hnew' & _ & _).
  rewrite Hnew, Hnew' in Heq.
  apply app_inv_head, app_inv_tail, secretLine_inj in Heq.
  apply toHex_inj in Heq; [|apply randomBytes_bytes..].
  pose proof (randomBytes_lookup host 16 i Hi) as H1.
  pose proof (randomBytes_lookup host' 16 i Hi) as H2.
  rewrite Heq in H2. congruence.
Qed.

(** On the example of the specification, between two other lines, with
    a random source that counts. *)
Lemma session_secret_rewritten_sample :
  ∃ pre old post secret,
    isAssignLine sampleEnv pre old post
    ∧ newEnv counting sampleEnv = pre ++ secretLine secret ++ post
    ∧ spec_hexOf (spec_byte counting) 16 secret.
Proof.
  destruct (session_secret_rewritten counting sampleEnv)
    as (pre & old & post & secret & Hline & _ & Hnew & _ & _ & Hhex & _).
  - exists (js "A=1" ++ [10%N]), (js "old"), ([10%N] ++ js "B=2").
    split; [reflexivity|]. split; [|split].
    + right. by exists (js "A=1"), 10%N.
    + repeat constructor.
    + right. by exists 10%N, (js "B=2").
  - by exists pre, old, post, secret.
Defined.

Example session_secret_counting_text :
  newEnv counting sampleEnv
  = js "A=1" ++ [10%N]
    ++ secretLine (js "00112233445566778899aabbccddeeff")
    ++ [10%N] ++ js "B=2".
Proof. reflexivity. Qed.

Example session_secret_sample_text :
  newEnv sampleHost sampleEnv
  = js "A=1" ++ [10%N]
    ++ secretLine (js "00000000000000000000000000000000")
    ++ [10%N] ++ js "B=2".
Proof. reflexivity. Qed.

(** When two lines assign the secret, the first one is rewritten and the
    second one is among the lines left as they are. *)
Lemma session_secret_second_line_kept :
  isAssignLine twoSecrets (js "SESSION_SECRET=a" ++ [10%N]) (js "b") []
  ∧ ¬ rewritesLineAt sampleHost twoSecrets (js "SESSION_SECRET=a" ++ [10%N]) []
  ∧ rewritesLineAt sampleHost twoSecrets [] ([10%N] ++ js "SESSION_SECRET=b")
  ∧ newEnv sampleHost twoSecrets
    = secretLine (getRandomString sampleHost 16) ++ [10%N]
      ++ js "SESSION_SECRET=b".
Proof.
  split; [|split].
  - split; [reflexivity|]. split; [|split].
    + right. by exists (js "SESSION_SECRET=a"), 10%N.
    + repeat constructor.
    + by left.
  - unfold rewritesLineAt. intros H. vm_compute in H. done.
  - split; reflexivity.
Qed.

(** *** The package manifest *)

Lemma replaceFirst_eq (pat rep s : jsstring) :
  replaceFirst pat rep s =
    if startsWith pat s then rep ++ drop (length pat) s
    else match s with
         | [] => []
         | c :: s' => c :: replaceFirst pat rep s'
         end.
Proof. by destruct s. Qed.

(** [replace] with a string pattern rewrites the first occurrence. *)
Lemma replaceFirst_first (pat rep a b : jsstring) :
  firstOccurrence pat a b →
  replaceFirst pat rep (a ++ pat ++ b) = a ++ rep ++ b.
Proof.
  induction a as [|c a IH]; intros H.
  - rewrite replaceFirst_eq. simpl app. rewrite startsWith_app.
    by rewrite drop_app_length.
  - rewrite replaceFirst_eq.
    rewrite (H [] (c :: a)) by done.
    simpl. f_equal. apply IH.
    intros a1 a2 -> Ha2. by apply (H (c :: a1) a2).
Qed.

(** Dropping the unused dependency is deleting its key. *)
Lemma removeUnusedDependencies_single
    (dependencies : gmap jsstring jsstring) (unused : jsstring) :
  removeUnusedDependencies dependencies [unused] = delete unused dependencies.
Proof.
  unfold removeUnusedDependencies, includes. apply map_eq. intros k.
  destruct (decide (k = unused)) as [->|Hk].
  - rewrite lookup_delete_eq. apply map_lookup_filter_None. right.
    intros x _. simpl.
    rewrite bool_decide_eq_true_2 by (by apply list_elem_of_singleton). done.
  - rewrite lookup_delete_ne by done.
    destruct (dependencies !! k) as [x|] eqn:E.
    + apply map_lookup_filter_Some. split; [done|]. simpl.
      rewrite bool_decide_eq_false_2 by (by rewrite list_elem_of_singleton).
      done.
    + apply map_lookup_filter_None. by left.
Qed.

Lemma update_eq (original : PackageContent) (u : Update) :
  update original u
  = if bool_decide (stringScripts (upd_scripts u))
    then Ok {| pkg_name := VStr (upd_name u);
               dependencies := dependencies (updateDependencies u original);
               devDependencies :=
                 match upd_devDependencies u with
                 | None => devDependencies original
                 | Some deps => pruneEmpty deps
                 end;
               peerDependencies := peerDependencies original;
               scripts := Some (upd_scripts u);
               pkg_others := pkg_others original |}
    else Throw (plain ESCRIPTSINVALID).
Proof.
  unfold update, updateScripts, stringScripts.
  by destruct (bool_decide _).
Qed.

Lemma prop_string (all : gmap jsstring value) (k t : jsstring) :
  prop all k = VStr t ↔ all !! k = Some (VStr t).
Proof.
  unfold prop. destruct (all !! k) as [x|]; simpl; [|done].
  split; congruence.
Qed.

Lemma isString_VStr (x : value) : isString x = true ↔ ∃ t, x = VStr t.
Proof.
  destruct x as [| |t]; simpl; split; try done; try (by intros [? ?]).
  by exists t.
Qed.

(** The scripts the plain variant hands to the update. *)
Lemma plainScripts_lookup (all : gmap jsstring value) (v : value)
    (k : jsstring) :
  <[js "validate" := v]> (delete (js "validate") (delete (js "typecheck") all))
    !! k
  = if decide (k = js "validate") then Some v
    else if decide (k = js "typecheck") then None
    else all !! k.
Proof.
  destruct (decide (k = js "validate")) as [->|Hv];
    [by rewrite lookup_insert_eq|].
  rewrite lookup_insert_ne, lookup_delete_ne by done.
  destruct (decide (k = js "typecheck")) as [->|Ht];
    [by rewrite lookup_delete_eq|].
  by rewrite lookup_delete_ne.
Qed.

(** The scripts the typed variant hands to the update. *)
Lemma typedScripts_lookup (all : gmap jsstring value) (k : jsstring) :
  <[js "validate" := prop all (js "validate")]>
    (<[js "typecheck" := prop all (js "typecheck")]>
       (delete (js "validate") (delete (js "typecheck") all))) !! k
  = if decide (k = js "validate") then Some (prop all (js "validate"))
    else if decide (k = js "typecheck") then Some (prop all (js "typecheck"))
    else all !! k.
Proof.
  destruct (decide (k = js "validate")) as [->|Hv];
    [by rewrite lookup_insert_eq|].
  rewrite lookup_insert_ne by done.
  destruct (decide (k = js "typecheck")) as [->|Ht];
    [by rewrite lookup_insert_eq|].
  by rewrite lookup_insert_ne, !lookup_delete_ne.
Qed.

Lemma plainScripts_strings (all : gmap jsstring value) (v : jsstring) :
  stringScripts
    (<[js "validate" := VStr v]>
       (delete (js "validate") (delete (js "typecheck") all)))
  ↔ ∀ k x, all !! k = Some x → k ≠ js "typecheck" → k ≠ js "validate" →
           isString x = true.
Proof.
  unfold stringScripts. rewrite map_Forall_lookup. split.
  - intros H k x Hk Ht Hv. apply (H k). rewrite plainScripts_lookup.
    by rewrite !decide_False.
  - intros H k x. rewrite plainScripts_lookup.
    destruct (decide (k = js "validate")); [by intros [= <-]|].
    destruct (decide (k = js "typecheck")); [done|]. intros Hk. by apply (H k).
Qed.

Lemma typedScripts_strings (all : gmap jsstring value) :
  stringScripts
    (<[js "validate" := prop all (js "validate")]>
       (<[js "typecheck" := prop all (js "typecheck")]>
          (delete (js "validate") (delete (js "typecheck") all))))
  ↔ stringScripts all
    ∧ is_Some (all !! js "typecheck") ∧ is_Some (all !! js "validate").
Proof.
  unfold stringScripts. rewrite !map_Forall_lookup. split.
  - intros H.
    assert (∀ k, k = js "typecheck" ∨ k = js "validate" →
                 ∃ t, all !! k = Some (VStr t)) as Hk.
    { intros k Hk.
      assert (isString (prop all k) = true) as Hp.
      { apply (H k). rewrite typedScripts_lookup. by destruct Hk as [-> | ->]. }
      apply isString_VStr in Hp as [t Ht]. exists t. by apply prop_string. }
    split; [|split].
    + intros k x Hx.
      destruct (decide (k = js "validate")) as [->|Hv].
      { destruct (Hk (js "validate")) as [t Ht]; [by right|]. by simplify_eq. }
      destruct (decide (k = js "typecheck")) as [->|Ht].
      { destruct (Hk (js "typecheck")) as [t Ht]; [by left|]. by simplify_eq. }
      apply (H k). rewrite typedScripts_lookup. by rewrite !decide_False.
    + destruct (Hk (js "typecheck")) as [t Ht]; [by left|]. by eexists.
    + destruct (Hk (js "validate")) as [t Ht]; [by right|]. by eexists.
  - intros (H & [t Ht] & [v Hv]) k x. rewrite typedScripts_lookup.
    unfold prop. rewrite Ht, Hv.
    destruct (decide (k = js "validate"));
      [intros [= <-]; by apply (H _ _ Hv)|].
    destruct (decide (k = js "typecheck"));
      [intros [= <-]; by apply (H _ _ Ht)|].
    apply H.
Qed.

(** With both scripts present the typed variant hands over the scripts
    it found. *)
Lemma typedScripts_same (all : gmap jsstring value) :
  is_Some (all !! js "typecheck") → is_Some (all !! js "validate") →
  <[js "validate" := prop all (js "validate")]>
    (<[js "typecheck" := prop all (js "typecheck")]>
       (delete (js "validate") (delete (js "typecheck") all)))
  = all.
Proof.
  intros [t Ht] [v Hv]. apply map_eq. intros k.
  rewrite typedScripts_lookup. unfold prop. rewrite Ht, Hv.
  destruct (decide (k = js "validate")) as [->|]; [done|].
  by destruct (decide (k = js "typecheck")) as [->|].
Qed.

Lemma pruneEmpty_lookup (deps : gmap jsstring jsstring) (k : jsstring) :
  match pruneEmpty deps with
  | Some d => d !! k
  | None => None
  end = deps !! k.
Proof.
  unfold pruneEmpty. case_bool_decide as E; [|done]. by rewrite E.
Qed.

Lemma pruneEmpty_nonempty (deps : gmap jsstring jsstring) (k x : jsstring) :
  deps !! k = Some x → pruneEmpty deps = Some deps.
Proof.
  intros H. unfold pruneEmpty. rewrite bool_decide_eq_false_2; [done|].
  intros ->. by rewrite lookup_empty in H.
Qed.

(** C8.  For a manifest with dev dependencies, a [validate] script that
    is a string and, [typecheck] aside, scripts that are all strings: in
    the plain variant the rewrite deletes [ts-node] from the dev
    dependencies, deletes the [typecheck] script, replaces [validate] by
    itself without its first [ typecheck] and keeps every other script.
    In the typed variant, when [typecheck] is a string as well, every
    dev dependency and the scripts are kept; when it is not, the rewrite
    fails.  Dev dependencies that are left empty are pruned from the
    manifest. *)
Theorem updatePackageJson_correct (APP_NAME : jsstring)
    (content : PackageContent) (all : gmap jsstring value)
    (deps : gmap jsstring jsstring) (v : jsstring) :
  scripts content = Some all →
  devDependencies content = Some deps →
  all !! js "validate" = Some (VStr v) →
  (∀ k x, all !! k = Some x → k ≠ js "typecheck" → isString x = true) →
  (∃ c' s',
      updatePackageJson APP_NAME false content = Ok c'
      ∧ devDependencies c' = pruneEmpty (delete (js "ts-node") deps)
      ∧ devDependency c' (js "ts-node") = None
      ∧ (∀ k, k ≠ js "ts-node" → devDependency c' k = deps !! k)
      ∧ scripts c' = Some s'
      ∧ s' !! js "typecheck" = None
      ∧ s' !! js "validate" = Some (VStr (replaceFirst (js " typecheck") [] v))
      ∧ (∀ a b, v = a ++ js " typecheck" ++ b →
                firstOccurrence (js " typecheck") a b →
                s' !! js "validate" = Some (VStr (a ++ b)))
      ∧ (∀ k, k ≠ js "typecheck" → k ≠ js "validate" → s' !! k = all !! k))
  ∧ (∀ t, all !! js "typecheck" = Some (VStr t) →
      ∃ c',
        updatePackageJson APP_NAME true content = Ok c'
        ∧ devDependencies c' = pruneEmpty deps
        ∧ (∀ k, devDependency c' k = deps !! k)
        ∧ scripts c' = Some all)
  ∧ ((∀ t, all !! js "typecheck" ≠ Some (VStr t)) →
     updatePackageJson APP_NAME true content = Throw (plain ESCRIPTSINVALID)).
Proof.
  intros Hs Hd Hv Hstr. split; [|split].
  - eexists _, _.
    split.
    { unfold updatePackageJson, prop. rewrite Hs, Hd, Hv. cbn [default from_option id].
      rewrite update_eq. cbn [upd_scripts upd_name upd_devDependencies].
      rewrite bool_decide_eq_true_2; [reflexivity|].
      apply plainScripts_strings. intros k x Hk Ht _. by apply (Hstr k). }
    unfold devDependency. cbn [devDependencies scripts].
    rewrite removeUnusedDependencies_single.
    split; [done|].
    split; [by rewrite pruneEmpty_lookup, lookup_delete_eq|].
    split; [intros k Hk; by rewrite pruneEmpty_lookup, lookup_delete_ne|].
    split; [reflexivity|].
    split; [by rewrite plainScripts_lookup|].
    split; [by rewrite plainScripts_lookup|].
    split.
    + intros a b -> Hfirst. rewrite plainScripts_lookup.
      rewrite decide_True by done.
      by rewrite (replaceFirst_first _ [] a b Hfirst).
    + intros k Ht Hval. rewrite plainScripts_lookup.
      by rewrite !decide_False.
  - intros t Ht. eexists.
    split.
    { unfold updatePackageJson. rewrite Hs.
      rewrite update_eq. cbn [upd_scripts upd_name upd_devDependencies].
      rewrite bool_decide_eq_true_2; [reflexivity|].
      apply typedScripts_strings. split; [|split; by eexists].
      intros k x Hk. destruct (decide (k = js "typecheck")) as [->|Hne].
      - by simplify_eq.
      - by apply (Hstr k). }
    unfold devDependency. cbn [devDependencies scripts]. rewrite Hd.
    split; [done|]. split; [intros k; apply pruneEmpty_lookup|].
    f_equal. apply typedScripts_same; by eexists.
  - intros Ht. unfold updatePackageJson. rewrite Hs.
    rewrite update_eq. cbn [upd_scripts upd_name upd_devDependencies].
    rewrite bool_decide_eq_false_2; [done|].
    intros (H & [x Hx] & _)%typedScripts_strings.
    pose proof (H _ _ Hx) as Hx'.
    apply isString_VStr in Hx' as [t ->]. by apply (Ht t).
Qed.

(** On a manifest shaped like the template's: the plain variant loses
    [ts-node] and [typecheck] and validates without type checking, the
    typed variant keeps dev dependencies and scripts. *)
Lemma updatePackageJson_sample :
  (∃ c' s',
      updatePackageJson (js "my-app") false samplePackage = Ok c'
      ∧ devDependencies c' = Some (delete (js "ts-node") sampleDevDependencies)
      ∧ scripts c' = Some s'
      ∧ s' !! js "typecheck" = None
      ∧ s' !! js "validate" = Some (VStr (js "run-p lint test"))
      ∧ s' !! js "build" = Some (VStr (js "remix build")))
  ∧ (∃ c',
      updatePackageJson (js "my-app") true samplePackage = Ok c'
      ∧ devDependencies c' = Some sampleDevDependencies
      ∧ scripts c' = Some sampleScripts).
Proof.
  destruct (updatePackageJson_correct (js "my-app") samplePackage
              sampleScripts sampleDevDependencies
              (js "run-p lint typecheck test"))
    as [(c1 & s1 & E1 & D1 & _ & _ & S1 & T1 & V1 & _ & O1) [H2 _]];
    [reflexivity..| |].
  { intros k x Hk _. unfold sampleScripts in Hk.
    repeat (apply lookup_insert_Some in Hk as [[_ <-]|[_ Hk]]; [done|]).
    done. }
  destruct (H2 (js "tsc -b") eq_refl) as (c2 & E2 & D2 & _ & S2).
  rewrite (pruneEmpty_nonempty _ (js "vitest") (js "^0.8.2")) in D1
    by (by vm_compute).
  rewrite (pruneEmpty_nonempty _ (js "vitest") (js "^0.8.2")) in D2
    by (by vm_compute).
  split.
  - exists c1, s1. split; [exact E1|]. split; [exact D1|].
    split; [exact S1|]. split; [exact T1|]. split; [exact V1|].
    by rewrite O1.
  - exists c2. split; [exact E2|]. split; [exact D2|exact S2].
Defined.

(** A manifest without a [typecheck] script, and one whose only dev
    dependency is [ts-node]: the typed rewrite of the first fails in the
    update, the plain rewrite of the second leaves no dev
    dependencies. *)
Example updatePackageJson_edges :
  updatePackageJson (js "my-app") true withoutTypecheck
  = Throw (plain ESCRIPTSINVALID)
  ∧ ∃ c', updatePackageJson (js "my-app") false onlyTsNode = Ok c'
          ∧ devDependencies c' = None.
Proof. split; [by vm_compute|]. eexists. split; by vm_compute. Qed.

(** *** The question flow *)

Lemma bind_Ok {A B} (m : M A) (k : A → M B) (w w' : World) (a : A) :
  m w = (w', Ok a) → bind m k w = k a w'.
Proof. intros H. unfold bind. by rewrite H. Qed.

Lemma bind_Throw {A B} (m : M A) (k : A → M B) (w w' : World) (e : Error) :
  m w = (w', Throw e) → bind m k w = (w', Throw e).
Proof. intros H. unfold bind. by rewrite H. Qed.

Lemma bind_ret {A B} (a : A) (k : A → M B) (w : World) :
  bind (ret a) k w = k a w.
Proof. done. Qed.

Lemma answered_insert (answers : gmap jsstring bool) (name : jsstring)
    (b : bool) :
  answered (<[name := b]> answers) name = b.
Proof. unfold answered. by rewrite lookup_insert_eq. Qed.

Lemma grows_ret {A} (a : A) : grows (ret a).
Proof. intros w. exists []. by rewrite app_nil_r. Qed.

Lemma grows_throw {A} (e : Error) : grows (@throw A e).
Proof. intros w. exists []. by rewrite app_nil_r. Qed.

Lemma grows_lift {A} (r : Result A) : grows (lift r).
Proof. intros w. exists []. by rewrite app_nil_r. Qed.

Lemma grows_emit (e : Event) : grows (emit e).
Proof. intros w. by exists [e]. Qed.

Lemma grows_bind {A B} (m : M A) (k : A → M B) :
  grows m → (∀ a, grows (k a)) → grows (bind m k).
Proof.
  intros Hm Hk w. unfold bind. destruct (Hm w) as [es1 H1].
  destruct (m w) as [w1 [a|e]]; simpl in H1.
  - destruct (Hk a w1) as [es2 H2]. exists (es1 ++ es2).
    by rewrite H2, H1, app_assoc.
  - by exists es1.
Qed.

Lemma grows_catch {A} (m : M A) (h : Error → M A) :
  grows m → (∀ e, grows (h e)) → grows (catch m h).
Proof.
  intros Hm Hh w. unfold catch. destruct (Hm w) as [es1 H1].
  destruct (m w) as [w1 [a|e]]; simpl in H1.
  - by exists es1.
  - destruct (Hh e w1) as [es2 H2]. exists (es1 ++ es2).
    by rewrite H2, H1, app_assoc.
Qed.

Lemma keepsDisk_ret {A} (a : A) : keepsDisk (ret a).
Proof. done. Qed.

Lemma keepsDisk_throw {A} (e : Error) : keepsDisk (@throw A e).
Proof. done. Qed.

Lemma keepsDisk_lift {A} (r : Result A) : keepsDisk (lift r).
Proof. done. Qed.

Lemma keepsDisk_emit (e : Event) : keepsDisk (emit e).
Proof. done. Qed.

Lemma keepsDisk_bind {A B} (m : M A) (k : A → M B) :
  keepsDisk m → (∀ a, keepsDisk (k a)) → keepsDisk (bind m k).
Proof.
  intros Hm Hk w. unfold bind. specialize (Hm w).
  destruct (m w) as [w1 [a|e]]; simpl in Hm; [|done].
  by rewrite Hk.
Qed.

Lemma keepsDisk_catch {A} (m : M A) (h : Error → M A) :
  keepsDisk m → (∀ e, keepsDisk (h e)) → keepsDisk (catch m h).
Proof.
  intros Hm Hh w. unfold catch. specialize (Hm w).
  destruct (m w) as [w1 [a|e]]; simpl in Hm; [done|].
  by rewrite Hh.
Qed.

Lemma grows_log (message : jsstring) : grows (log message).
Proof. apply grows_emit. Qed.

Lemma keepsDisk_log (message : jsstring) : keepsDisk (log message).
Proof. done. Qed.

Lemma silent_ret {A} (a : A) : silent (ret a).
Proof. done. Qed.

Lemma silent_lift {A} (r : Result A) : silent (lift r).
Proof. done. Qed.

Lemma silent_read (p : jsstring) : silent (read p).
Proof. done. Qed.

Lemma silent_startOps (ops : list FileOp) : silent (startOps ops).
Proof. intros w. unfold startOps. by destruct (start ops (disk w)). Qed.

Lemma silent_bind {A B} (m : M A) (k : A → M B) :
  silent m → (∀ a, silent (k a)) → silent (bind m k).
Proof.
  intros Hm Hk w. unfold bind. specialize (Hm w).
  destruct (m w) as [w1 [a|e]]; simpl in Hm; [|done].
  by rewrite Hk.
Qed.

Create HintDb flow.

#[local] Hint Resolve silent_ret silent_lift silent_read silent_startOps
  : flow.

#[local] Hint Resolve grows_ret grows_throw grows_lift grows_emit grows_log
  keepsDisk_ret keepsDisk_throw keepsDisk_lift keepsDisk_emit keepsDisk_log
  : flow.

(** Splits a computation of the flow into its steps. *)
Ltac flow :=
  repeat first
    [ solve [auto with flow]
    | apply grows_bind; [|intros ?]
    | apply grows_catch; [|intros ?]
    | apply keepsDisk_bind; [|intros ?]
    | apply keepsDisk_catch; [|intros ?]
    | apply silent_bind; [|intros ?]
    | match goal with
      | |- grows (if ?b then _ else _) => destruct b
      | |- keepsDisk (if ?b then _ else _) => destruct b
      | |- grows (match ?x with _ => _ end) => destruct x
      | |- keepsDisk (match ?x with _ => _ end) => destruct x
      | |- silent (if ?b then _ else _) => destruct b
      | |- silent (match ?x with _ => _ end) => destruct x
      end ].

Section Flow.

Variable host : Host.
Variable rootDirectory : jsstring.

Lemma grows_spawn (command : jsstring) (cwd : option jsstring) :
  grows (spawn host command cwd).
Proof. intros w. exists []. unfold spawn. simpl. by rewrite app_nil_r. Qed.

Lemma grows_exec (command : jsstring) (cwd : option jsstring) :
  grows (exec host command cwd).
Proof.
  unfold exec. apply grows_bind; [flow|]. intros _. apply grows_spawn.
Qed.

Lemma grows_prompt (questions : list Question) :
  grows (prompt host questions).
Proof. induction questions as [|q qs IH]; simpl; flow. Qed.

Lemma keepsDisk_prompt (questions : list Question) :
  keepsDisk (prompt host questions).
Proof. induction questions as [|q qs IH]; simpl; flow. Qed.

#[local] Hint Resolve grows_spawn grows_exec grows_prompt keepsDisk_prompt
  : flow.

Lemma grows_getPackageManagerCommand (packageManager : PackageManager) :
  grows (getPackageManagerCommand host packageManager).
Proof.
  destruct packageManager; unfold getPackageManagerCommand,
    getPackageManagerVersion; flow.
Qed.

Lemma grows_setupAmplify (pm : CommandSet) (cli : bool) :
  grows (setupAmplify host rootDirectory pm cli).
Proof. unfold setupAmplify, execInProject. flow. Qed.

#[local] Hint Resolve grows_getPackageManagerCommand grows_setupAmplify
  : flow.

(** The questions only add to what was observed. *)
Lemma grows_askSetupQuestions (packageManager : PackageManager) :
  grows (askSetupQuestions host rootDirectory packageManager).
Proof. unfold askSetupQuestions, execInProject. flow. Qed.

(** Both questions of the first prompt are asked, whatever the answer to
    the first one. *)
Lemma prompt_amplify_cli (a c : bool) (w : World) :
  respond host (js "amplify") = Answered a →
  respond host (js "cli") = Answered c →
  prompt host [amplifyQuestion; cliQuestion] w =
    ({| disk := disk w;
        events := events w ++ [Asked (js "amplify"); Asked (js "cli")] |},
     Ok (<[js "amplify" := a]> (<[js "cli" := c]> ∅))).
Proof.
  intros Ha Hc. unfold prompt, amplifyQuestion, cliQuestion. cbn [q_name].
  rewrite Ha, Hc. unfold bind, emit, ret. cbn [disk events].
  by rewrite <- app_assoc.
Qed.

(** Looking the commands up observes nothing, or the version probe. *)
Lemma getPackageManagerCommand_probe (packageManager : PackageManager)
    (w : World) :
  ∃ probe, versionProbe probe
    ∧ events (getPackageManagerCommand host packageManager w).1
      = events w ++ probe.
Proof.
  destruct packageManager; simpl.
  - exists []. split; [by left | by rewrite app_nil_r].
  - exists [Executed (js "pnpm --version") None]. split; [by right|].
    unfold getPackageManagerVersion, exec, spawn, bind, emit, lift, ret. simpl.
    destruct (execSync host _ None _) as [d [out|e]]; [|done]. simpl.
    destruct (semver_lt host _ _); [|done]. simpl.
    by destruct (semver_gte host _ _).
  - exists []. split; [by left | by rewrite app_nil_r].
Qed.

Lemma prompt_validate (w : World) :
  ∃ tail, events (prompt host [validateQuestion] w).1 = events w ++ tail
    ∧ (tail = [] ∨ tail = [Asked (js "validate")])
    ∧ (isOk (prompt host [validateQuestion] w).2 = true →
       tail = [Asked (js "validate")]).
Proof.
  unfold prompt, validateQuestion. cbn [q_name].
  destruct (respond host (js "validate")) as [v|[|] e];
    unfold bind, emit, ret, throw; simpl.
  - exists [Asked (js "validate")]. split; [done|]. split; [by right|done].
  - exists [Asked (js "validate")]. split; [done|]. split; [by right|done].
  - exists []. split; [by rewrite app_nil_r|]. split; [by left|done].
Qed.

(** C6 (amended).  When the two questions of the first prompt are
    answered, both are shown, the one about the CLI right after the one
    about the integration, whatever the first answer is.  When the first
    answer is no, nothing is observed between them and the validation
    question but the version probe of pnpm: no install and no
    provisioning command is run. *)
Theorem cli_question_unconditional (packageManager : PackageManager)
    (a c : bool) (w : World) :
  respond host (js "amplify") = Answered a →
  respond host (js "cli") = Answered c →
  ∃ rest,
    events (askSetupQuestions host rootDirectory packageManager w).1
    = events w ++ Asked (js "amplify") :: Asked (js "cli") :: rest
    ∧ (a = false →
       ∃ probe tail, rest = probe ++ tail ∧ versionProbe probe
         ∧ (tail = [] ∨ ∃ t, tail = Asked (js "validate") :: t)).
Proof.
  intros Ha Hc. unfold askSetupQuestions.
  rewrite (bind_Ok _ _ _ _ _ (prompt_amplify_cli a c w Ha Hc)).
  set (w1 := {| disk := disk w; events := _ |}).
  destruct a.
  { match goal with |- context [(?m w1).1] => assert (grows m) as G end.
    { unfold execInProject. flow. }
    destruct (G w1) as [es Hes]. exists es. split; [|done].
    rewrite Hes. subst w1. simpl. by rewrite <- app_assoc. }
  destruct (getPackageManagerCommand_probe packageManager w1)
    as (probe & Hprobe & Ew2).
  destruct (getPackageManagerCommand host packageManager w1)
    as [w2 [pm|e]] eqn:Epm; simpl in Ew2.
  2: { rewrite (bind_Throw _ _ _ _ _ Epm). exists probe. split.
       - simpl. rewrite Ew2. subst w1. simpl. by rewrite <- app_assoc.
       - intros _. exists probe, []. rewrite app_nil_r. auto. }
  rewrite (bind_Ok _ _ _ _ _ Epm).
  rewrite answered_insert, bind_ret.
  destruct (prompt_validate w2) as (tail & Et & Htail & Hok).
  destruct (prompt host [validateQuestion] w2) as [w3 [va|e]] eqn:Ev;
    simpl in Et, Hok.
  2: { rewrite (bind_Throw _ _ _ _ _ Ev). exists (probe ++ tail). split.
       - simpl. rewrite Et, Ew2. subst w1. simpl.
         by rewrite <- !app_assoc.
       - intros _. exists probe, tail. split; [done|]. split; [done|].
         destruct Htail as [->| ->]; eauto. }
  rewrite (bind_Ok _ _ _ _ _ Ev). rewrite Hok in Et by done.
  match goal with |- context [(?m w3).1] => assert (grows m) as G end.
  { unfold execInProject. flow. }
  destruct (G w3) as [es Hes].
  exists (probe ++ Asked (js "validate") :: es). split.
  - rewrite Hes, Et, Ew2. subst w1. simpl. by rewrite <- !app_assoc.
  - intros _. exists probe, (Asked (js "validate") :: es). eauto.
Qed.

End Flow.

(** With the integration declined on the sample host, the two questions
    of the first prompt are still both asked. *)
Lemma cli_question_asked_on_sample :
  ∃ rest,
    events (askSetupQuestions sampleHost sampleRoot npm sampleWorld).1
    = events sampleWorld ++ Asked (js "amplify") :: Asked (js "cli") :: rest.
Proof.
  destruct (cli_question_unconditional sampleHost sampleRoot npm false false
              sampleWorld) as (rest & H & _); [reflexivity..|].
  exists rest. exact H.
Defined.

(** C6, as stated, fails: the first question is answered no, and the
    question about the CLI is shown all the same. *)
Lemma cli_question_asked_after_no :
  respond sampleHost (js "amplify") = Answered false
  ∧ Asked (js "cli")
      ∈ events (askSetupQuestions sampleHost sampleRoot npm sampleWorld).1
  ∧ ¬ spec_cliOnlyAfterYes sampleHost sampleRoot npm sampleWorld.
Proof.
  assert (Asked (js "cli")
      ∈ events (askSetupQuestions sampleHost sampleRoot npm sampleWorld).1)
    as Hin.
  { apply list_elem_of_lookup. exists 1. reflexivity. }
  split; [reflexivity|]. split; [exact Hin|].
  intros H. specialize (H Hin). discriminate H.
Qed.

(** The command set of yarn has no [install]: with the integration
    accepted, the flow stops with a [TypeError] before any command is
    run. *)
Lemma yarn_install_TypeError :
  let host := answering (λ name,
                Answered (bool_decide (name = js "amplify"))) in
  (askSetupQuestions host sampleRoot yarn sampleWorld).2
    = Throw (plain TypeError)
  ∧ events (askSetupQuestions host sampleRoot yarn sampleWorld).1
    = [Asked (js "amplify"); Asked (js "cli");
       Logged (js "Installing amplify in project")].
Proof. split; reflexivity. Qed.

(** *** The batch and the errors of the flow *)

Lemma tryCatchEmpty_Ok (r : Result unit) : tryCatchEmpty r = Ok tt.
Proof. by destruct r. Qed.

Lemma start_settle (ops : list FileOp) (d : Disk) :
  (start ops d).1 = foldl settle d ops.
Proof.
  revert d. induction ops as [|op ops IH]; intros d; [done|].
  simpl. specialize (IH (settle d op)).
  by destruct (start ops (settle d op)).
Qed.

Lemma start_length (ops : list FileOp) (d : Disk) :
  length (start ops d).2 = length ops.
Proof.
  revert d. induction ops as [|op ops IH]; intros d; [done|].
  simpl. specialize (IH (settle d op)).
  destruct (start ops (settle d op)). simpl in *. by rewrite IH.
Qed.

(** The promise of the operation at a position holds the outcome the
    operation has on the disk the earlier ones left. *)
Lemma start_lookup (ops1 ops2 : list FileOp) (op : FileOp) (d : Disk) :
  (start (ops1 ++ op :: ops2) d).2 !! length ops1
  = Some (match perform op (foldl settle d ops1) with
          | Ok _ => Ok tt
          | Throw e => Throw e
          end).
Proof.
  revert d. induction ops1 as [|o ops1 IH]; intros d; simpl.
  - by destruct (start ops2 (settle d op)).
  - specialize (IH (settle d o)).
    by destruct (start (ops1 ++ op :: ops2) (settle d o)).
Qed.

(** An operation that fails is as if it had not been started: the
    operations before and after it all act as they would without it. *)
Lemma start_failure_skipped (ops1 ops2 : list FileOp) (op : FileOp)
    (d : Disk) (e : Error) :
  perform op (foldl settle d ops1) = Throw e →
  (start (ops1 ++ op :: ops2) d).1 = (start (ops1 ++ ops2) d).1.
Proof.
  intros H. rewrite !start_settle, !foldl_app. simpl.
  unfold settle at 2. by rewrite H.
Qed.

(** The scaffold reads, then starts the operations of [allOperations]:
    its promises and the disk it leaves are those of that batch. *)
Lemma bind_inv {A B} (m : M A) (k : A → M B) (w w1 : World) (b : B) :
  bind m k w = (w1, Ok b) →
  ∃ w' a, m w = (w', Ok a) ∧ k a w' = (w1, Ok b).
Proof.
  unfold bind. destruct (m w) as [w' [a|e]]; [|done]. eauto.
Qed.

Lemma pure_read (p : jsstring) : pure (read p).
Proof. done. Qed.

Lemma pure_lift {A} (r : Result A) : pure (lift r).
Proof. done. Qed.

Lemma pure_ret {A} (a : A) : pure (ret a).
Proof. done. Qed.

Lemma pure_bind {A B} (m : M A) (k : A → M B) :
  pure m → (∀ a, pure (k a)) → pure (bind m k).
Proof.
  intros Hm Hk w. unfold bind. specialize (Hm w).
  destruct (m w) as [w' [a|e]]; simpl in Hm; subst; [apply Hk|done].
Qed.

Lemma pure_readFileIfNotTypeScript {A} (isTypeScript : bool)
    (filePath : jsstring) (parseFunction : jsstring → Result A) :
  pure (readFileIfNotTypeScript isTypeScript filePath parseFunction).
Proof.
  unfold readFileIfNotTypeScript. destruct isTypeScript; [done|].
  apply pure_bind; [done|]. intros s. apply pure_bind; [done|]. done.
Qed.

Lemma pure_load (host : Host) (root : jsstring) : pure (load host root).
Proof. unfold load. apply pure_bind; [done|]. intros s. done. Qed.

Lemma pure_inv {A} (m : M A) (w w' : World) (r : Result A) :
  pure m → m w = (w', r) → w' = w.
Proof. intros H E. specialize (H w). by rewrite E in H. Qed.

Lemma startOps_inv (ops : list FileOp) (w w' : World)
    (rs : list (Result unit)) :
  startOps ops w = (w', Ok rs) →
  start ops (disk w) = (disk w', rs).
Proof.
  unfold startOps. destruct (start ops (disk w)) as [d rs'].
  by intros [= <- <-].
Qed.

Lemma start_app (l1 l2 : list FileOp) (d : Disk) :
  start (l1 ++ l2) d
  = ((start l2 (start l1 d).1).1,
     (start l1 d).2 ++ (start l2 (start l1 d).1).2).
Proof.
  revert d. induction l1 as [|a l1 IH]; intros d; simpl.
  - by destruct (start l2 d).
  - rewrite IH. by destruct (start l1 (settle d a)).
Qed.

Lemma start_cons (a : FileOp) (l : list FileOp) (d : Disk) :
  start (a :: l) d
  = ((start l (start [a] d).1).1,
     (start [a] d).2 ++ (start l (start [a] d).1).2).
Proof. exact (start_app [a] l d). Qed.

Lemma scaffold_batch (host : Host) (isTypeScript : bool) (root : jsstring)
    (w w1 : World) (ps : list (Result unit)) :
  scaffold host isTypeScript root w = (w1, Ok ps) →
  ∃ e r m dt rt vt,
    start (allOperations isTypeScript root e r m dt rt vt) (disk w)
    = (disk w1, ps).
Proof.
  unfold scaffold. intros H.
  apply bind_inv in H as (w' & env & E & H).
  apply (pure_inv _ _ _ _ (pure_read _)) in E as ->.
  apply bind_inv in H as (w' & readme & E & H).
  apply (pure_inv _ _ _ _ (pure_read _)) in E as ->.
  apply bind_inv in H as (w' & deployWorkflow & E & H).
  apply (pure_inv _ _ _ _ (pure_readFileIfNotTypeScript _ _ _)) in E as ->.
  apply bind_inv in H as (w' & remixConfig & E & H).
  apply (pure_inv _ _ _ _ (pure_readFileIfNotTypeScript _ _ _)) in E as ->.
  apply bind_inv in H as (w' & vitestConfig & E & H).
  apply (pure_inv _ _ _ _ (pure_readFileIfNotTypeScript _ _ _)) in E as ->.
  apply bind_inv in H as (w' & packageJson & E & H).
  apply (pure_inv _ _ _ _ (pure_load _ _)) in E as ->.
  apply bind_inv in H as (w' & packageJson' & E & H).
  apply (pure_inv _ _ _ _ (pure_lift _)) in E as ->.
  apply bind_inv in H as (w2 & started & E & H).
  apply startOps_inv in E.
  apply bind_inv in H as (w3 & pushed & Ep & H).
  injection H as <- <-.
  unfold allOperations.
  destruct isTypeScript; simpl negb in Ep; cbv iota in Ep.
  - injection Ep as <- <-. eexists _, _, _, [], [], []. rewrite !app_nil_r. exact E.
  - apply bind_inv in Ep as (w' & ops1 & E1 & Ep).
    pose proof (pure_inv _ _ _ _ (pure_lift _) E1) as ->.
    apply bind_inv in Ep as (w4 & rs1 & S1 & Ep).
    apply bind_inv in Ep as (w' & ops2 & E2 & Ep).
    pose proof (pure_inv _ _ _ _ (pure_lift _) E2) as ->.
    apply bind_inv in Ep as (w5 & rs2 & S2 & Ep).
    apply bind_inv in Ep as (w' & ops3 & E3 & Ep).
    pose proof (pure_inv _ _ _ _ (pure_lift _) E3) as ->.
    apply bind_inv in Ep as (w6 & rs3 & S3 & Ep).
    injection Ep as <- <-.
    apply startOps_inv in S1, S2, S3.
    unfold lift in E1, E2, E3.
    unfold cleanupDeployWorkflow in E1.
    destruct (dropTypecheckJob _) as [wf|]; [|done].
    unfold cleanupRemixConfig in E2. destruct remixConfig as [rc|]; [|done].
    unfold cleanupVitestConfig in E3. destruct vitestConfig as [vc|]; [|done].
    injection E1 as <-. injection E2 as <-. injection E3 as <-.
    eexists _, _, _, (YAML_stringify host wf), (newRemixConfig rc),
      (newVitestConfig vc).
    rewrite start_app, E. cbn [fst snd].
    unfold cleanupOperations.
    rewrite start_cons, S1. cbn [fst snd].
    rewrite start_cons, S2. cbn [fst snd].
    by rewrite S3.
Qed.

Section Main.

Variable host : Host.
Variable isTypeScript : bool.
Variable rootDirectory : jsstring.
Variable packageManager : PackageManager.

Lemma finish_eq (ps : list (Result unit)) (w : World) :
  finish host rootDirectory packageManager ps w
  = catch (askSetupQuestions host rootDirectory packageManager)
          ignoreTtyError w.
Proof. unfold finish. by rewrite tryCatchEmpty_Ok. Qed.

Lemma silent_scaffold : silent (scaffold host isTypeScript rootDirectory).
Proof. unfold scaffold, readFileIfNotTypeScript, load. flow. Qed.

(** C4 (amended).  When the scaffold has run and the question flow fails
    with an error, the initializer completes normally if reading
    [isTtyError] on the error yields a truthy value, the mark of
    inquirer's error for a terminal that is not interactive; every other
    error, a cancellation included, is the error the initializer fails
    with. *)
Theorem question_flow_errors (w : World) (ps : list (Result unit))
    (e : Error) :
  (scaffold host isTypeScript rootDirectory w).2 = Ok ps →
  (askSetupQuestions host rootDirectory packageManager
     (scaffold host isTypeScript rootDirectory w).1).2 = Throw e →
  (main host isTypeScript rootDirectory packageManager w).2
  = if truthy (isTtyError e) then Ok tt else Throw e.
Proof.
  intros Hs Ha. unfold main.
  destruct (scaffold host isTypeScript rootDirectory w) as [w1 r] eqn:E.
  simpl in Hs, Ha. subst r.
  rewrite (bind_Ok _ _ _ _ _ E), finish_eq. unfold catch.
  destruct (askSetupQuestions host rootDirectory packageManager w1)
    as [w2 r2].
  simpl in Ha. subst r2. unfold ignoreTtyError.
  by destruct (truthy (isTtyError e)).
Qed.

(** C5.  Whatever rejections the promises of the batch hold, the
    initializer goes on to the question flow, from the world the batch of
    its file operations left and with nothing printed; every operation of
    a batch is run to its end, and one that fails changes nothing for the
    others. *)
Theorem batch_failures_swallowed :
  (∀ ps w1,
     finish host rootDirectory packageManager ps w1
     = catch (askSetupQuestions host rootDirectory packageManager)
             ignoreTtyError w1)
  ∧ (∀ w w1 ps,
       scaffold host isTypeScript rootDirectory w = (w1, Ok ps) →
       main host isTypeScript rootDirectory packageManager w
       = catch (askSetupQuestions host rootDirectory packageManager)
               ignoreTtyError w1
       ∧ events w1 = events w
       ∧ ∃ e r m dt rt vt,
           start (allOperations isTypeScript rootDirectory e r m dt rt vt)
                 (disk w)
           = (disk w1, ps))
  ∧ (∀ ops d,
       (start ops d).1 = foldl settle d ops
       ∧ length (start ops d).2 = length ops
       ∧ tryCatchEmpty (promiseAll (start ops d).2) = Ok tt)
  ∧ (∀ ops1 op ops2 d e,
       perform op (foldl settle d ops1) = Throw e →
       (start (ops1 ++ op :: ops2) d).2 !! length ops1 = Some (Throw e)
       ∧ (start (ops1 ++ op :: ops2) d).1 = (start (ops1 ++ ops2) d).1).
Proof.
  split; [apply finish_eq|]. split; [|split].
  - intros w w1 ps E. split; [|split].
    + unfold main. by rewrite (bind_Ok _ _ _ _ _ E), finish_eq.
    + pose proof (silent_scaffold w) as H. by rewrite E in H.
    + by apply scaffold_batch in E.
  - intros ops d.
    split; [apply start_settle|].
    split; [apply start_length | apply tryCatchEmpty_Ok].
  - intros ops1 op ops2 d e H. split.
    + by rewrite start_lookup, H.
    + by apply start_failure_skipped with e.
Qed.

End Main.

(** In the sample project the copy and the three removals fail, their
    targets being absent; the environment file is written all the same
    and the questions are asked. *)
Example batch_failures_on_sample :
  let w := (main sampleHost true sampleRoot npm sampleWorld).1 in
  (scaffold sampleHost true sampleRoot sampleWorld).2
  = Ok [Ok tt; Ok tt; Ok tt; Throw (plain ENOENT); Throw (plain ENOENT);
        Throw (plain ENOENT); Throw (plain ENOENT)]
  ∧ (main sampleHost true sampleRoot npm sampleWorld).2 = Ok tt
  ∧ readFile (disk w) (join sampleRoot (js ".env"))
    = Ok (secretLine (js "00000000000000000000000000000000"))
  ∧ ∃ rest, events w = Asked (js "amplify") :: rest.
Proof.
  split; [by vm_compute|]. split; [by vm_compute|]. split; [by vm_compute|].
  eexists. by vm_compute.
Qed.

(** The initializer swallows the error of a terminal that is not
    interactive. *)
Lemma tty_error_swallowed_on_sample :
  (main (answering (λ _, Rejected false ttyError)) true sampleRoot npm
        sampleWorld).2 = Ok tt.
Proof.
  rewrite (question_flow_errors
             (answering (λ _, Rejected false ttyError)) true sampleRoot npm
             sampleWorld
             [Ok tt; Ok tt; Ok tt; Throw (plain ENOENT); Throw (plain ENOENT);
              Throw (plain ENOENT); Throw (plain ENOENT)]
             ttyError).
  - reflexivity.
  - by vm_compute.
  - by vm_compute.
Defined.

(** C4, as stated, fails for a cancellation: the error of a closed prompt
    carries no [isTtyError], and the initializer fails with it. *)
Lemma cancellation_propagates :
  let host := answering (λ _, Rejected true cancellation) in
  spec_swallowed cancellation
  ∧ (askSetupQuestions host sampleRoot npm
       (scaffold host true sampleRoot sampleWorld).1).2 = Throw cancellation
  ∧ (main host true sampleRoot npm sampleWorld).2 = Throw cancellation
  ∧ (main host true sampleRoot npm sampleWorld).2 ≠ Ok tt.
Proof.
  split; [by left|]. split; [by vm_compute|].
  assert ((main (answering (λ _, Rejected true cancellation)) true sampleRoot
             npm sampleWorld).2 = Throw cancellation) as H by (by vm_compute).
  split; [exact H|]. rewrite H. discriminate.
Qed.

(** *** Independent file operations *)

Lemma locked_settle (d : Disk) (op : FileOp) : locked (settle d op) = locked d.
Proof.
  unfold settle, perform, writeFile, readFile.
  destruct op as [p c|src dst|p r]; repeat case_match; by simplify_eq.
Qed.

(** What an operation leaves at a path. *)
Lemma lookup_settle (d : Disk) (op : FileOp) (k : jsstring) :
  files (settle d op) !! k
  = effect op (locked d) (files d !! control op) k (files d !! k).
Proof.
  unfold settle, perform, effect, writeFile, readFile.
  destruct op as [p c|src dst|p r]; simpl control.
  - destruct (bool_decide_reflect (k = p)) as [->|Hk];
      destruct (bool_decide_reflect (p ∈ locked d)) as [HL|HL];
      try done;
      destruct (files d !! p) as [[?|]|] eqn:E; simpl;
      rewrite ?lookup_insert_eq, ?lookup_insert_ne by done; done.
  - destruct (files d !! src) as [[c|]|] eqn:Es;
      [|by repeat case_match..].
    destruct (bool_decide_reflect (k = dst)) as [->|Hk];
      destruct (bool_decide_reflect (dst ∈ locked d)) as [HL|HL];
      try done;
      destruct (files d !! dst) as [[?|]|] eqn:E; simpl;
      rewrite ?lookup_insert_eq, ?lookup_insert_ne by done; done.
  - destruct (files d !! p) as [[c|]|] eqn:Ep; [| |done].
    + destruct (bool_decide_reflect (p ∈ locked d)) as [HL|HL]; [done|].
      simpl.
      destruct (bool_decide_reflect (k = p)) as [->|Hk];
        [by rewrite lookup_delete_eq|].
      by rewrite lookup_delete_ne.
    + destruct (bool_decide_reflect (p ∈ locked d)) as [HL|HL]; [done|].
      destruct r; [|done]. simpl.
      destruct (bool_decide_reflect (k = p)) as [->|Hk]; simpl.
      { apply map_lookup_filter_None. left. by rewrite lookup_delete_eq. }
      destruct (under p k) eqn:Eu.
      * apply map_lookup_filter_None. right. intros x _. simpl.
        by rewrite Eu.
      * destruct (files d !! k) as [x|] eqn:Ek.
        -- apply map_lookup_filter_Some. rewrite lookup_delete_ne by done.
           split; [done|]. simpl. by rewrite Eu.
        -- apply map_lookup_filter_None. left.
           by rewrite lookup_delete_ne.
Qed.

(** Outside the paths it covers, an operation changes nothing. *)
Lemma effect_not_covered (op : FileOp) (L : gset jsstring)
    (ctl old : option Node) (k : jsstring) :
  covered op k = false → effect op L ctl k old = old.
Proof.
  unfold covered, effect. intros H.
  apply orb_false_iff in H as [Hk Hu].
  apply bool_decide_eq_false in Hk.
  destruct op as [p c|src dst|p r]; simpl in *.
  - by rewrite bool_decide_eq_false_2.
  - by rewrite bool_decide_eq_false_2.
  - rewrite (bool_decide_eq_false_2 (k = p)) by done.
    destruct r; simpl in Hu; [rewrite Hu|]; by repeat case_match.
Qed.

Lemma disk_eq (d1 d2 : Disk) :
  files d1 = files d2 → locked d1 = locked d2 → d1 = d2.
Proof. destruct d1, d2. simpl. by intros -> ->. Qed.

Lemma apart_sym (p q : jsstring) : apart p q = apart q p.
Proof.
  unfold apart.
  rewrite (bool_decide_ext (p = q) (q = p)) by done.
  by destruct (bool_decide (q = p)), (under p q), (under q p).
Qed.

Lemma independent_sym (a b : FileOp) : independent a b = independent b a.
Proof.
  unfold independent.
  rewrite (apart_sym (target a) (target b)),
    (apart_sym (target a) (control b)), (apart_sym (control a) (target b)).
  by destruct (apart (target b) (target a)), (apart (control b) (target a)),
    (apart (target b) (control a)).
Qed.

Lemma apart_inv (p q : jsstring) :
  apart p q = true → p ≠ q ∧ under p q = false ∧ under q p = false.
Proof.
  unfold apart. rewrite !andb_true_iff, !negb_true_iff.
  intros [[H1 H2] H3]. by apply bool_decide_eq_false in H1.
Qed.

(** Two directories that hold a common path are equal or nested. *)
Lemma under_common (p q k : jsstring) :
  under p k = true → under q k = true →
  p = q ∨ under p q = true ∨ under q p = true.
Proof.
  unfold under. intros Hp Hq.
  apply startsWith_inv in Hp as [t1 H1].
  apply startsWith_inv in Hq as [t2 H2].
  rewrite <- !app_assoc in H1, H2. simpl in H1, H2.
  rewrite H1 in H2. apply app_eq_app in H2 as [l [[E1 E2]|[E1 E2]]].
  - destruct l as [|c l].
    + left. by rewrite app_nil_r in E1.
    + right. right. simpl in E2. injection E2 as <- _.
      rewrite E1, (cons_middle SLASH _ l), app_assoc. apply startsWith_app.
  - destruct l as [|c l].
    + left. by rewrite app_nil_r in E1.
    + right. left. simpl in E2. injection E2 as <- _.
      rewrite E1, (cons_middle SLASH _ l), app_assoc. apply startsWith_app.
Qed.

Lemma covered_inv (op : FileOp) (k : jsstring) :
  covered op k = true → k = target op ∨ under (target op) k = true.
Proof.
  unfold covered. intros H. apply orb_true_iff in H as [H|H].
  - left. by apply bool_decide_eq_true in H.
  - right. by apply andb_true_iff in H as [_ H].
Qed.

(** Independent operations cover no common path, and neither covers the
    control path of the other. *)
Lemma covered_disjoint (a b : FileOp) (k : jsstring) :
  independent a b = true → covered a k = true → covered b k = false.
Proof.
  unfold independent. rewrite !andb_true_iff. intros [[Htt _] _] Ha.
  apply apart_inv in Htt as (Hne & Hab & Hba).
  apply not_true_is_false. intros Hb.
  apply covered_inv in Ha as [->|Ha], Hb as [Hb|Hb]; try congruence.
  destruct (under_common _ _ _ Ha Hb) as [?|[?|?]]; congruence.
Qed.

Lemma control_not_covered (a b : FileOp) :
  independent a b = true → covered a (control b) = false.
Proof.
  unfold independent. rewrite !andb_true_iff. intros [[_ Htc] _].
  apply apart_inv in Htc as (Hne & Hab & Hba).
  apply not_true_is_false. intros Ha.
  apply covered_inv in Ha as [?|?]; congruence.
Qed.

(** Independent operations commute: the disk they leave does not depend
    on which of them acts first. *)
Lemma settle_commute (a b : FileOp) (d : Disk) :
  independent a b = true →
  settle (settle d a) b = settle (settle d b) a.
Proof.
  intros Hab. pose proof Hab as Hba. rewrite independent_sym in Hba.
  apply disk_eq; [|by rewrite !locked_settle].
  apply map_eq. intros k.
  rewrite !lookup_settle, !locked_settle.
  rewrite (effect_not_covered a _ _ _ (control b))
    by by apply control_not_covered.
  rewrite (effect_not_covered b _ _ _ (control a))
    by by apply control_not_covered.
  destruct (covered a k) eqn:Ea.
  - rewrite !(effect_not_covered b) by by apply covered_disjoint with a.
    done.
  - by rewrite !(effect_not_covered a).
Qed.

(** Running an operation again changes nothing more. *)
Lemma settle_idem (op : FileOp) (d : Disk) :
  settle (settle d op) op = settle d op.
Proof.
  apply disk_eq; [|by rewrite !locked_settle].
  apply map_eq. intros k.
  rewrite !lookup_settle, !locked_settle.
  destruct op as [p c|src dst|p r]; unfold effect; simpl control.
  - destruct (bool_decide_reflect (k = p)) as [->|Hk]; [|done].
    destruct (bool_decide (p ∈ locked d)); [done|].
    by destruct (files d !! p) as [[?|]|].
  - destruct (bool_decide_reflect (k = dst)) as [->|Hk]; [|done].
    destruct (bool_decide_reflect (src = dst)) as [->|Hsd].
    + destruct (files d !! dst) as [[c|]|]; try done.
      by destruct (bool_decide (dst ∈ locked d)).
    + destruct (files d !! src) as [[c|]|]; try done.
      destruct (bool_decide (dst ∈ locked d)); [done|].
      by destruct (files d !! dst) as [[?|]|].
  - destruct (files d !! p) as [[c|]|] eqn:Ep; [| |done];
      destruct (bool_decide (p ∈ locked d)) eqn:EL; try done;
      destruct r; try done;
      by rewrite ?(bool_decide_eq_true_2 (p = p)) by done.
Qed.

(** A removal that has settled fails when it is tried again. *)
Lemma rm_again_fails (p : jsstring) (r : bool) (d : Disk) :
  ∃ e, perform (Rm p r) (settle d (Rm p r)) = Throw e.
Proof.
  pose proof (lookup_settle d (Rm p r) p) as H.
  pose proof (locked_settle d (Rm p r)) as HL.
  unfold effect in H. simpl control in H.
  rewrite (bool_decide_eq_true_2 (p = p)) in H by done.
  unfold perform. set (d' := settle d (Rm p r)) in *.
  destruct (files d' !! p) as [n|] eqn:E; [|eauto].
  rewrite HL.
  destruct (bool_decide (p ∈ locked d)) eqn:EL; [eauto|].
  destruct (files d !! p) as [[c|]|] eqn:Ep; try done.
  destruct r; simpl in H; [done|]. simplify_eq. eauto.
Qed.

(** An operation independent of a list of others can be moved across
    them. *)
Lemma settle_foldl_commute (a : FileOp) (l : list FileOp) (d : Disk) :
  Forall (λ b, independent a b = true) l →
  settle (foldl settle d l) a = foldl settle (settle d a) l.
Proof.
  intros H. revert d. induction H as [|b l Hb _ IH]; intros d; [done|].
  simpl. rewrite IH. by rewrite (settle_commute a b).
Qed.

Lemma pairwiseIndependent_cons (a : FileOp) (l : list FileOp) :
  pairwiseIndependent (a :: l) = true →
  Forall (λ b, independent a b = true) l ∧ pairwiseIndependent l = true.
Proof.
  simpl. intros H. apply andb_true_iff in H as [H1 H2].
  split; [|done]. apply Forall_forall. intros b Hb.
  rewrite forallb_forall in H1. apply H1. by apply list_elem_of_In.
Qed.

Lemma pairwiseIndependent_middle (l1 l2 : list FileOp) (op : FileOp) :
  pairwiseIndependent (l1 ++ op :: l2) = true →
  Forall (λ b, independent op b = true) l1
  ∧ Forall (λ b, independent op b = true) l2.
Proof.
  induction l1 as [|a l1 IH]; intros H.
  - apply pairwiseIndependent_cons in H as [H _]. by split.
  - apply pairwiseIndependent_cons in H as [Ha H].
    destruct (IH H) as [H1 H2]. split; [|done].
    constructor; [|done]. rewrite independent_sym.
    rewrite Forall_forall in Ha. apply Ha.
    apply elem_of_app. right. by left.
Qed.

Lemma forallb_independent_perm (a : FileOp) (l l' : list FileOp) :
  l ≡ₚ l' → forallb (independent a) l = forallb (independent a) l'.
Proof.
  induction 1 as [|x l l' _ IH|x y l|l l' l'' _ IH1 _ IH2]; simpl.
  - done.
  - by rewrite IH.
  - by destruct (independent a x), (independent a y).
  - by rewrite IH1.
Qed.

Lemma pairwiseIndependent_perm (l l' : list FileOp) :
  l ≡ₚ l' → pairwiseIndependent l = pairwiseIndependent l'.
Proof.
  induction 1 as [|x l l' Hp IH|x y l|l l' l'' _ IH1 _ IH2]; simpl.
  - done.
  - by rewrite IH, (forallb_independent_perm x l l').
  - rewrite (independent_sym y x).
    by destruct (independent x y), (forallb (independent x) l),
      (forallb (independent y) l).
  - by rewrite IH1.
Qed.

(** The operations of a batch run concurrently.  When they are pairwise
    independent the disk they leave is the same in whatever order they
    take effect, so the order of the list stands for all of them. *)
Lemma foldl_settle_perm (l l' : list FileOp) (d : Disk) :
  l ≡ₚ l' → pairwiseIndependent l = true →
  foldl settle d l = foldl settle d l'.
Proof.
  intros Hp. revert d.
  induction Hp as [|x l l' Hp IH|x y l|l l' l'' Hp1 IH1 Hp2 IH2];
    intros d Hind.
  - done.
  - apply pairwiseIndependent_cons in Hind as [_ Hind]. simpl. by apply IH.
  - apply pairwiseIndependent_cons in Hind as [Hy _].
    apply Forall_cons in Hy as [Hyx _].
    simpl. by rewrite (settle_commute y x).
  - rewrite IH1 by done. apply IH2.
    by rewrite <- (pairwiseIndependent_perm l l').
Qed.

(** Running a list of pairwise independent operations a second time
    leaves the disk of the first run. *)
Lemma foldl_settle_idem (l : list FileOp) (d : Disk) :
  pairwiseIndependent l = true →
  foldl settle (foldl settle d l) l = foldl settle d l.
Proof.
  revert d. induction l as [|a l IH]; intros d H; [done|].
  apply pairwiseIndependent_cons in H as [Ha H]. simpl.
  rewrite (settle_foldl_commute a l (settle d a)) by done.
  rewrite settle_idem. by apply IH.
Qed.

(** In the second run of such a list, every removal is tried on a disk
    on which it has settled, and fails. *)
Lemma second_run_rm_fails (l1 l2 : list FileOp) (p : jsstring) (r : bool)
    (d : Disk) :
  pairwiseIndependent (l1 ++ Rm p r :: l2) = true →
  ∃ e, perform (Rm p r)
         (foldl settle (foldl settle d (l1 ++ Rm p r :: l2)) l1) = Throw e.
Proof.
  intros H. apply pairwiseIndependent_middle in H as [H1 H2].
  rewrite foldl_app. simpl.
  rewrite <- (settle_foldl_commute (Rm p r) l2) by done.
  rewrite <- (settle_foldl_commute (Rm p r) l1) by done.
  apply rm_again_fails.
Qed.

(** *** The operations of a run are independent *)

Lemma join_inj (root p q : jsstring) : join root p = join root q → p = q.
Proof. unfold join. intros H. apply app_inv_head in H. by injection H. Qed.

Lemma under_join (root p q : jsstring) :
  under (join root p) (join root q) = under p q.
Proof.
  unfold under, join. rewrite <- app_assoc. by rewrite startsWith_cancel.
Qed.

Lemma apart_join (root p q : jsstring) :
  apart (join root p) (join root q) = apart p q.
Proof.
  unfold apart. rewrite !under_join.
  rewrite (bool_decide_ext (join root p = join root q) (p = q)); [done|].
  split; [apply join_inj | by intros ->].
Qed.

Lemma independent_rebase (root : jsstring) (a b : FileOp) :
  independent (rebase root a) (rebase root b) = independent a b.
Proof.
  unfold independent. destruct a, b; simpl; by rewrite !apart_join.
Qed.

Lemma forallb_independent_rebase (root : jsstring) (a : FileOp)
    (l : list FileOp) :
  forallb (independent (rebase root a)) (map (rebase root) l)
  = forallb (independent a) l.
Proof.
  induction l as [|b l IH]; [done|].
  simpl. by rewrite IH, independent_rebase.
Qed.

Lemma pairwiseIndependent_rebase (root : jsstring) (l : list FileOp) :
  pairwiseIndependent (map (rebase root) l) = pairwiseIndependent l.
Proof.
  induction l as [|a l IH]; [done|].
  simpl. by rewrite IH, forallb_independent_rebase.
Qed.

Lemma allOperations_rebase (isTypeScript : bool) (root : jsstring)
    (e r m dt rt vt : jsstring) :
  allOperations isTypeScript root e r m dt rt vt
  = map (rebase root) (relativeOperations isTypeScript e r m dt rt vt).
Proof.
  unfold allOperations, relativeOperations, fileOperations,
    cleanupOperations, DEPLOY_WORKFLOW_PATH, REMIX_CONFIG_PATH,
    VITEST_CONFIG_PATH, ENV_PATH, README_PATH, FILE_EXTENSION, join.
  destruct isTypeScript; simpl; rewrite <- ?app_assoc; reflexivity.
Qed.

Lemma allOperations_independent (isTypeScript : bool) (root : jsstring)
    (e r m dt rt vt : jsstring) :
  pairwiseIndependent (allOperations isTypeScript root e r m dt rt vt) = true.
Proof.
  rewrite allOperations_rebase, pairwiseIndependent_rebase.
  by destruct isTypeScript; vm_compute.
Qed.

Lemma second_run_results (ops : list FileOp) (d : Disk) (i : nat)
    (p : jsstring) (r : bool) :
  pairwiseIndependent ops = true →
  ops !! i = Some (Rm p r) →
  ∃ e, (start ops (start ops d).1).2 !! i = Some (Throw e).
Proof.
  intros Hind Hi.
  pose proof (take_drop_middle ops i _ Hi) as Hsplit.
  assert (length (take i ops) = i) as Hlen.
  { apply length_take_le. apply lookup_lt_Some in Hi. lia. }
  remember (take i ops) as l1 eqn:E1.
  remember (drop (S i) ops) as l2 eqn:E2.
  clear E1 E2 Hi. subst ops i.
  destruct (second_run_rm_fails l1 l2 p r d Hind) as [e He].
  exists e. by rewrite start_lookup, start_settle, He.
Qed.

(** X16.  The disk a run leaves does not depend on the order in which
    its operations take effect. *)
Lemma batch_order_irrelevant (isTypeScript : bool) (rootDirectory : jsstring)
    (e r m dt rt vt : jsstring) (ops' : list FileOp) (d : Disk) :
  allOperations isTypeScript rootDirectory e r m dt rt vt ≡ₚ ops' →
  (start ops' d).1
  = (start (allOperations isTypeScript rootDirectory e r m dt rt vt) d).1.
Proof.
  intros Hp. rewrite !start_settle. symmetry.
  apply foldl_settle_perm; [done|]. apply allOperations_independent.
Qed.

(** Running the operations of a finished scaffold again, on the disk it
    left, changes nothing. *)
Corollary scaffold_rerun (host : Host) (isTypeScript : bool)
    (root : jsstring) (w w1 : World) (ps : list (Result unit)) :
  scaffold host isTypeScript root w = (w1, Ok ps) →
  ∃ ops, start ops (disk w) = (disk w1, ps)
         ∧ pairwiseIndependent ops = true
         ∧ (start ops (disk w1)).1 = disk w1.
Proof.
  intros H. apply scaffold_batch in H as (e & r & m & dt & rt & vt & H).
  pose proof (allOperations_independent isTypeScript root e r m dt rt vt)
    as Hind.
  set (ops := allOperations isTypeScript root e r m dt rt vt) in *.
  clearbody ops. exists ops. split; [exact H|]. split; [exact Hind|].
  assert (disk w1 = (start ops (disk w)).1) as -> by by rewrite H.
  rewrite !start_settle. by apply foldl_settle_idem.
Qed.

(** A write that succeeds leaves exactly what was written. *)
Lemma writeFile_overwrites (d d' : Disk) (p content : jsstring) :
  perform (WriteFile p content) d = Ok d' →
  files d' !! p = Some (File content).
Proof.
  simpl. unfold writeFile. intros H.
  destruct (bool_decide (p ∈ locked d)); [done|].
  destruct (files d !! p) as [[?|]|]; simplify_eq; simpl;
    by rewrite lookup_insert_eq.
Qed.

(** C10.  Starting the operations of a run a second time, with the same
    contents and paths, on the disk the first run left: the disk is left
    as it is, the step completes, every removal fails, and a write that
    succeeds leaves exactly the content written. *)
Theorem batch_idempotent (isTypeScript : bool) (rootDirectory : jsstring)
    (envText readmeText manifestText deployText remixText vitestText
       : jsstring) (d : Disk) :
  let ops := allOperations isTypeScript rootDirectory envText readmeText
               manifestText deployText remixText vitestText in
  let first := start ops d in
  let second := start ops first.1 in
  second.1 = first.1
  ∧ tryCatchEmpty (promiseAll second.2) = Ok tt
  ∧ (∀ i p recursive, ops !! i = Some (Rm p recursive) →
       ∃ e, second.2 !! i = Some (Throw e))
  ∧ (∀ d0 d1 p content, perform (WriteFile p content) d0 = Ok d1 →
       files d1 !! p = Some (File content)).
Proof.
  intros ops first second.
  pose proof (allOperations_independent isTypeScript rootDirectory envText
                readmeText manifestText deployText remixText vitestText)
    as Hind.
  fold ops in Hind.
  split; [|split; [|split]].
  - subst first second. rewrite !start_settle. by apply foldl_settle_idem.
  - apply tryCatchEmpty_Ok.
  - intros i p recursive Hi.
    by apply (second_run_results ops d i p recursive).
  - intros d0 d1 p content. apply writeFile_overwrites.
Qed.


(** *** The application name of a project directory *)

(** X21.  The application name depends on the last segment of the target
    directory only: for a directory [dir/name], whatever [dir], it is
    [name] with the code units outside [[a-zA-Z0-9-_]] replaced by
    hyphens.  It is as long as [name] and holds no dollar sign, so that
    no replacement pattern is expanded when it is put into the
    README. *)
Theorem APP_NAME_last_segment (dir name : jsstring) :
  name ≠ [] → Forall (λ c, c ≠ SLASH) name →
  APP_NAME (join dir name) = replaceDisallowed name
  ∧ length (APP_NAME (join dir name)) = length name
  ∧ 36%N ∉ APP_NAME (join dir name).
Proof.
  intros Hne Hs. unfold APP_NAME, DIR_NAME.
  rewrite basename_join by done.
  split; [done|]. split; [apply length_map|].
  intros Hin.
  pose proof (replaceDisallowed_allowed name) as Hall.
  rewrite Forall_forall in Hall. specialize (Hall _ Hin).
  unfold spec_allowed, HYPHEN, UNDERSCORE in Hall. lia.
Qed.

(** *** The random string *)

(** X6.  The random string of [n] bytes has [2 n] code units, all of
    them hexadecimal digits in lower case, and it determines the bytes
    it was made from: different bytes give different strings. *)
Theorem getRandomString_hex (host : Host) (n : nat) :
  length (getRandomString host n) = 2 * n
  ∧ Forall (λ c, isHexDigit c = true) (getRandomString host n)
  ∧ ∀ host', getRandomString host n = getRandomString host' n
             → randomBytes host n = randomBytes host' n.
Proof.
  unfold getRandomString. split; [|split].
  - rewrite length_toHex. unfold randomBytes.
    by rewrite length_map, length_seq.
  - apply toHex_isHexDigit, randomBytes_bytes.
  - intros host'. apply toHex_inj; apply randomBytes_bytes.
Qed.

(** *** The environment file without an assignment *)

(** X7.  An environment file in which no line begins with
    [SESSION_SECRET=] is written back unchanged: no secret is put into
    the file. *)
Theorem newEnv_unchanged (host : Host) (env : jsstring) :
  noAssignLineIn true env [] → newEnv host env = env.
Proof.
  intros H. unfold newEnv, replaceSessionSecret.
  rewrite <- (app_nil_r env) at 1.
  rewrite replaceSessionSecretFrom_skip by done.
  rewrite replaceSessionSecretFrom_eq.
  change (startsWith SESSION_SECRET_ASSIGN []) with false.
  by rewrite andb_false_r, app_nil_r.
Qed.

(** *** The project name in the README *)

Lemma replaceAllFrom_skip (pat rep l b : jsstring) :
  replaceAllFrom pat rep (length l) (l ++ b) = replaceAllFrom pat rep 0 b.
Proof. induction l as [|x l IH]; [by destruct b|]. exact IH. Qed.

Lemma replaceAll_cons (pat rep : jsstring) (c : N) (s : jsstring) :
  startsWith pat (c :: s) = false →
  replaceAll pat rep (c :: s) = c :: replaceAll pat rep s.
Proof. unfold replaceAll. simpl replaceAllFrom. by intros ->. Qed.

Lemma replaceAll_here (pat rep b : jsstring) :
  pat ≠ [] → replaceAll pat rep (pat ++ b) = rep ++ replaceAll pat rep b.
Proof.
  intros Hp. destruct pat as [|p pat]; [done|].
  unfold replaceAll. rewrite <- app_comm_cons.
  change (replaceAllFrom (p :: pat) rep 0 (p :: pat ++ b)) with
    (if startsWith (p :: pat) (p :: pat ++ b)
     then rep ++ replaceAllFrom (p :: pat) rep (length (p :: pat) - 1)
                  (pat ++ b)
     else p :: replaceAllFrom (p :: pat) rep 0 (pat ++ b)).
  rewrite (app_comm_cons pat b p), startsWith_app.
  replace (length (p :: pat) - 1) with (length pat) by (simpl; lia).
  by rewrite replaceAllFrom_skip.
Qed.

Lemma replaceAll_none (pat rep s : jsstring) :
  noOccurrence pat s → replaceAll pat rep s = s.
Proof.
  induction s as [|c s IH]; intros H; [done|].
  rewrite replaceAll_cons by by apply (H []).
  f_equal. apply IH. intros a b ->. by apply (H (c :: a)).
Qed.

Lemma replaceAll_occurrence (pat rep a b : jsstring) :
  pat ≠ [] → firstOccurrence pat a b →
  replaceAll pat rep (a ++ pat ++ b) = a ++ rep ++ replaceAll pat rep b.
Proof.
  intros Hp. induction a as [|c a IH]; intros H.
  - by apply (replaceAll_here pat rep b).
  - rewrite <- app_comm_cons, replaceAll_cons by by apply (H [] (c :: a)).
    rewrite <- app_comm_cons. f_equal. apply IH.
    intros a1 a2 -> Ha2. by apply (H (c :: a1) a2).
Qed.

(** X8.  The README is rewritten at every occurrence of [RemixStack]:
    the text being pieces separated by [RemixStack], where scanning from
    the left no occurrence starts inside a piece, the result is the same
    pieces separated by the application name. *)
Theorem readme_rewrite (rootDirectory first : jsstring)
    (rest : list jsstring) :
  cutAt (js "RemixStack") first rest →
  replaceAll (js "RemixStack") (APP_NAME rootDirectory)
    (joinWith (js "RemixStack") first rest)
  = joinWith (APP_NAME rootDirectory) first rest.
Proof.
  assert (js "RemixStack" ≠ []) as Hp by done.
  revert first. induction rest as [|p ps IH]; intros first H.
  - by apply replaceAll_none.
  - destruct H as [H1 H2]. cbn [joinWith].
    rewrite replaceAll_occurrence by done. by rewrite IH.
Qed.

(** *** When the manifest rewrite fails *)

Lemma updatePackageJson_typed (APP_NAME : jsstring)
    (content : PackageContent) (all : gmap jsstring value) :
  scripts content = Some all →
  updatePackageJson APP_NAME true content
  = update content
      {| upd_name := APP_NAME;
         upd_devDependencies := devDependencies content;
         upd_scripts :=
           <[js "validate" := prop all (js "validate")]>
             (<[js "typecheck" := prop all (js "typecheck")]>
                (delete (js "validate") (delete (js "typecheck") all))) |}.
Proof. intros H. unfold updatePackageJson. by rewrite H. Qed.

Lemma updatePackageJson_plain (APP_NAME : jsstring)
    (content : PackageContent) (all : gmap jsstring value)
    (deps : gmap jsstring jsstring) (v : jsstring) :
  scripts content = Some all → devDependencies content = Some deps →
  all !! js "validate" = Some (VStr v) →
  updatePackageJson APP_NAME false content
  = update content
      {| upd_name := APP_NAME;
         upd_devDependencies :=
           Some (removeUnusedDependencies deps [js "ts-node"]);
         upd_scripts :=
           <[js "validate" := VStr (replaceFirst (js " typecheck") [] v)]>
             (delete (js "validate") (delete (js "typecheck") all)) |}.
Proof.
  intros Hs Hd Hv. unfold updatePackageJson, prop. by rewrite Hs, Hd, Hv.
Qed.

(** Before the update is made the plain variant throws a [TypeError]
    without dev dependencies or without a [validate] that is a string. *)
Lemma updatePackageJson_plain_TypeError (APP_NAME : jsstring)
    (content : PackageContent) (all : gmap jsstring value) :
  scripts content = Some all →
  devDependencies content = None ∨ (∀ v, all !! js "validate" ≠ Some (VStr v)) →
  updatePackageJson APP_NAME false content = Throw (plain TypeError).
Proof.
  intros Hs H. unfold updatePackageJson, prop. rewrite Hs.
  destruct (devDependencies content) as [deps|]; [|done].
  destruct H as [?|H]; [done|].
  destruct (all !! js "validate") as [[| |v]|]; try done.
  by destruct (H v).
Qed.

Lemma update_fields (original content' : PackageContent) (u : Update) :
  update original u = Ok content' →
  pkg_name content' = VStr (upd_name u)
  ∧ pkg_others content' = pkg_others original
  ∧ peerDependencies content' = peerDependencies original
  ∧ scripts content' = Some (upd_scripts u)
  ∧ devDependencies content'
    = match upd_devDependencies u with
      | None => devDependencies original
      | Some deps => pruneEmpty deps
      end.
Proof.
  rewrite update_eq. destruct (bool_decide _); [|done]. by intros [= <-].
Qed.

Lemma update_Throw (original : PackageContent) (u : Update) (e : Error) :
  update original u = Throw e → e = plain ESCRIPTSINVALID.
Proof.
  rewrite update_eq. destruct (bool_decide _); [done|]. by intros [= <-].
Qed.

Lemma update_isOk (original : PackageContent) (u : Update) :
  isOk (update original u) = true ↔ stringScripts (upd_scripts u).
Proof.
  rewrite update_eq. case_bool_decide; simpl; split; done.
Qed.

(** X9.  The manifest rewrite succeeds exactly when the manifest has
    scripts and, in the typed variant, all of them are strings and
    [typecheck] and [validate] are among them; in the plain variant,
    there are dev dependencies, [validate] is a string and so is every
    other script but [typecheck].  It fails with a [TypeError] of its
    own exactly without scripts or, in the plain variant, without dev
    dependencies or without a [validate] that is a string, and otherwise
    with the error of the update for a script that is no string.  When
    it succeeds the name is the application name, the fields it does not
    rewrite are kept, and in the typed variant every dev dependency is
    kept. *)
Theorem updatePackageJson_outcome (APP_NAME : jsstring) (isTypeScript : bool)
    (content : PackageContent) :
  (isOk (updatePackageJson APP_NAME isTypeScript content) = true
   ↔ ∃ all, scripts content = Some all
       ∧ if isTypeScript
         then stringScripts all
              ∧ is_Some (all !! js "typecheck")
              ∧ is_Some (all !! js "validate")
         else is_Some (devDependencies content)
              ∧ (∃ v, all !! js "validate" = Some (VStr v))
              ∧ ∀ k x, all !! k = Some x → k ≠ js "typecheck" →
                       isString x = true)
  ∧ (updatePackageJson APP_NAME isTypeScript content = Throw (plain TypeError)
     ↔ scripts content = None
       ∨ (isTypeScript = false
          ∧ (devDependencies content = None
             ∨ ∃ all, scripts content = Some all
                      ∧ ∀ v, all !! js "validate" ≠ Some (VStr v))))
  ∧ (∀ e, updatePackageJson APP_NAME isTypeScript content = Throw e →
          e = plain TypeError ∨ e = plain ESCRIPTSINVALID)
  ∧ (∀ content', updatePackageJson APP_NAME isTypeScript content = Ok content' →
       pkg_name content' = VStr APP_NAME
       ∧ pkg_others content' = pkg_others content
       ∧ peerDependencies content' = peerDependencies content
       ∧ is_Some (scripts content')
       ∧ (isTypeScript = true →
          ∀ k, devDependency content' k = devDependency content k)).
Proof.
  destruct (scripts content) as [all|] eqn:Es.
  2: { assert (updatePackageJson APP_NAME isTypeScript content
               = Throw (plain TypeError)) as E.
       { unfold updatePackageJson. by rewrite Es. }
       rewrite E. split_and!.
       - split; [done|]. by intros (all & ? & _).
       - split; [by left|done].
       - intros e [= <-]. by left.
       - done. }
  destruct isTypeScript.
  { rewrite (updatePackageJson_typed _ _ _ Es). split_and!.
    - rewrite update_isOk. cbn [upd_scripts]. rewrite typedScripts_strings.
      split; [intros H; by exists all|]. by intros (a & [= <-] & H).
    - split.
      + intros H. by apply update_Throw in H.
      + intros [?|[? _]]; done.
    - intros e H. right. by apply update_Throw in H.
    - intros c' H. apply update_fields in H as (Hn & Ho & Hp & Hs & Hd).
      cbn [upd_name upd_scripts upd_devDependencies] in *.
      split_and!; [done|done|done|by eexists|].
      intros _ k. unfold devDependency. rewrite Hd.
      destruct (devDependencies content) as [deps|]; [|done].
      apply pruneEmpty_lookup. }
  destruct (devDependencies content) as [deps|] eqn:Ed.
  2: { rewrite (updatePackageJson_plain_TypeError _ _ _ Es) by by left.
       split_and!.
       - split; [done|]. intros (a & _ & [? ?] & _). done.
       - split; [|done]. intros _. right. split; [done|]. by left.
       - intros e [= <-]. by left.
       - done. }
  destruct (all !! js "validate") as [x|] eqn:Ev.
  2: { rewrite (updatePackageJson_plain_TypeError _ _ _ Es)
         by (right; congruence).
       split_and!.
       - split; [done|]. intros (a & [= <-] & _ & [v Hv] & _). congruence.
       - split; [|done]. intros _. right. split; [done|]. right.
         exists all. split; [done|]. congruence.
       - intros e [= <-]. by left.
       - done. }
  destruct (isString x) eqn:Ex.
  2: { rewrite (updatePackageJson_plain_TypeError _ _ _ Es).
       2: { right. intros v Hv. rewrite Ev in Hv. by simplify_eq. }
       split_and!.
       - split; [done|]. intros (a & [= <-] & _ & [v Hv] & _).
         rewrite Ev in Hv. by simplify_eq.
       - split; [|done]. intros _. right. split; [done|]. right.
         exists all. split; [done|]. intros v Hv. rewrite Ev in Hv.
         by simplify_eq.
       - intros e [= <-]. by left.
       - done. }
  apply isString_VStr in Ex as [v ->].
  rewrite (updatePackageJson_plain _ _ _ _ _ Es Ed Ev). split_and!.
  - rewrite update_isOk. cbn [upd_scripts]. rewrite plainScripts_strings.
    split.
    + intros H. exists all. split; [done|]. split; [by eexists|].
      split; [by exists v|]. intros k y Hk Ht.
      destruct (decide (k = js "validate")) as [->|Hv]; [by simplify_eq|].
      by apply (H k).
    + intros (a & [= <-] & _ & _ & H) k y Hk Ht _. by apply (H k).
  - split.
    + intros H. by apply update_Throw in H.
    + intros [?|[_ [?|(a & [= <-] & H)]]]; [done|done|]. by destruct (H v).
  - intros e H. right. by apply update_Throw in H.
  - intros c' H. apply update_fields in H as (Hn & Ho & Hp & Hs & Hd).
    cbn [upd_name upd_scripts upd_devDependencies] in *.
    split_and!; [done|done|done|by eexists|done].
Qed.

(** *** The deploy workflow *)

Lemma dropTypecheckJob_TypeError (o : option Workflow) (e : Error) :
  dropTypecheckJob o = Throw e → e = plain TypeError.
Proof.
  unfold dropTypecheckJob. intros H.
  destruct o as [w|]; [|by injection H].
  destruct (jobs w) as [js0|]; [|by injection H].
  destruct (delete (js "typecheck") js0 !! js "deploy") as [d|];
    [|by injection H].
  destruct (needs d); [done|by injection H].
Qed.

(** X10.  The workflow cleanup fails only with a [TypeError], and
    succeeds exactly when the workflow has jobs, a [deploy] job among
    them, and a list of needs in that job.  It then yields one write, to
    the given path, of the workflow in which the [typecheck] job is
    gone, the needs of [deploy] are the former ones without [typecheck]
    in their order, and every other job and the rest of the workflow are
    kept; cleaning the result again changes nothing. *)
Theorem cleanupDeployWorkflow_correct (host : Host)
    (deployWorkflow : option Workflow) (deployWorkflowPath : jsstring) :
  (∀ e, cleanupDeployWorkflow host deployWorkflow deployWorkflowPath = Throw e →
        e = plain TypeError)
  ∧ (isOk (cleanupDeployWorkflow host deployWorkflow deployWorkflowPath) = true
     ↔ ∃ w all deploy ns,
         deployWorkflow = Some w ∧ jobs w = Some all
         ∧ all !! js "deploy" = Some deploy ∧ needs deploy = Some ns)
  ∧ (∀ ops, cleanupDeployWorkflow host deployWorkflow deployWorkflowPath = Ok ops →
       ∃ w w' all all' deploy ns,
         deployWorkflow = Some w
         ∧ ops = [WriteFile deployWorkflowPath (YAML_stringify host w')]
         ∧ jobs w = Some all ∧ jobs w' = Some all'
         ∧ workflow_others w' = workflow_others w
         ∧ all' !! js "typecheck" = None
         ∧ all !! js "deploy" = Some deploy ∧ needs deploy = Some ns
         ∧ all' !! js "deploy"
           = Some {| needs := Some (filter (λ need, need ≠ js "typecheck") ns);
                     job_others := job_others deploy |}
         ∧ (∀ k, k ≠ js "typecheck" → k ≠ js "deploy" → all' !! k = all !! k)
         ∧ dropTypecheckJob (Some w') = Ok w').
Proof.
  assert (Hne : js "deploy" ≠ js "typecheck") by done.
  unfold cleanupDeployWorkflow. split; [|split].
  - intros e H. destruct (dropTypecheckJob deployWorkflow) eqn:E; [done|].
    injection H as <-. by apply dropTypecheckJob_TypeError in E.
  - unfold dropTypecheckJob. destruct deployWorkflow as [w|].
    2: { split; [done|]. by intros (? & ? & ? & ? & ? & _). }
    destruct (jobs w) as [all|] eqn:Ej.
    2: { split; [done|].
         intros (? & ? & ? & ? & [= <-] & ? & _). congruence. }
    rewrite lookup_delete_ne by done.
    destruct (all !! js "deploy") as [deploy|] eqn:Ed.
    2: { split; [done|].
         intros (? & ? & ? & ? & [= <-] & ? & ? & _). congruence. }
    destruct (needs deploy) as [ns|] eqn:En.
    + split; [|done]. intros _. by exists w, all, deploy, ns.
    + split; [done|].
      intros (? & ? & ? & ? & [= <-] & ? & ? & ?). congruence.
  - intros ops H.
    destruct (dropTypecheckJob deployWorkflow) as [w'|] eqn:E; [|done].
    injection H as <-. unfold dropTypecheckJob in E.
    destruct deployWorkflow as [w|]; [|done].
    destruct (jobs w) as [all|] eqn:Ej; [|done].
    rewrite lookup_delete_ne in E by done.
    destruct (all !! js "deploy") as [deploy|] eqn:Ed; [|done].
    destruct (needs deploy) as [ns|] eqn:En; [|done].
    injection E as <-.
    eexists w, _, all, _, deploy, ns. cbn [jobs workflow_others].
    split_and!; try done.
    + by rewrite lookup_insert_ne, lookup_delete_eq.
    + by rewrite lookup_insert_eq.
    + intros k Ht Hd. by rewrite lookup_insert_ne, lookup_delete_ne.
    + unfold dropTypecheckJob. cbn [jobs workflow_others].
      rewrite lookup_delete_ne, lookup_insert_eq by done. cbn [needs job_others].
      rewrite delete_insert_ne by done.
      rewrite delete_delete_eq, insert_insert_eq.
      by rewrite list_filter_filter_l.
Qed.

(** *** The configuration files of the plain variant *)

Lemma startsWith_length (p s : jsstring) :
  startsWith p s = true → (length p ≤ length s)%nat.
Proof.
  intros H. apply startsWith_inv in H as [t ->]. rewrite length_app. lia.
Qed.

Lemma replaceFirst_length (pat rep s : jsstring) :
  length pat = length rep → length (replaceFirst pat rep s) = length s.
Proof.
  intros Hl. induction s as [|c s IH].
  - rewrite replaceFirst_eq. destruct (startsWith pat []) eqn:E; [|done].
    apply startsWith_length in E. rewrite length_app, length_drop.
    simpl in *. lia.
  - rewrite replaceFirst_eq. destruct (startsWith pat (c :: s)) eqn:E.
    + apply startsWith_length in E. rewrite length_app, length_drop. lia.
    + simpl. by rewrite IH.
Qed.

Lemma replaceFirst_none (pat rep s : jsstring) :
  noOccurrence pat s → replaceFirst pat rep s = s.
Proof.
  induction s as [|c s IH]; intros H.
  - rewrite replaceFirst_eq. by rewrite (H [] []).
  - rewrite replaceFirst_eq. rewrite (H [] (c :: s)) by done.
    f_equal. apply IH. intros a b ->. by apply (H (c :: a)).
Qed.

(** X11.  The cleanups of the two configuration files fail with a
    [TypeError] when the file was not read, and otherwise yield one
    write to the given path, of a text as long as the one read: the read
    text itself when it does not mention the TypeScript file names, and
    otherwise the text with the first [server.ts], the first
    [create-user.ts], respectively the first [setup-test-env.ts], ending
    in [.js]. *)
Theorem cleanup_configs (remixConfig vitestConfig path : jsstring) :
  cleanupRemixConfig None path = Throw (plain TypeError)
  ∧ cleanupVitestConfig None path = Throw (plain TypeError)
  ∧ (∃ c', cleanupRemixConfig (Some remixConfig) path = Ok [WriteFile path c']
       ∧ length c' = length remixConfig
       ∧ (noOccurrence (js "server.ts") remixConfig →
          noOccurrence (js "create-user.ts") remixConfig → c' = remixConfig)
       ∧ (∀ a b c,
            remixConfig = a ++ js "server.ts" ++ b ++ js "create-user.ts" ++ c →
            firstOccurrence (js "server.ts") a (b ++ js "create-user.ts" ++ c) →
            firstOccurrence (js "create-user.ts") (a ++ js "server.js" ++ b) c →
            c' = a ++ js "server.js" ++ b ++ js "create-user.js" ++ c))
  ∧ (∃ c', cleanupVitestConfig (Some vitestConfig) path = Ok [WriteFile path c']
       ∧ length c' = length vitestConfig
       ∧ (noOccurrence (js "setup-test-env.ts") vitestConfig → c' = vitestConfig)
       ∧ (∀ a b,
            vitestConfig = a ++ js "setup-test-env.ts" ++ b →
            firstOccurrence (js "setup-test-env.ts") a b →
            c' = a ++ js "setup-test-env.js" ++ b)).
Proof.
  split; [done|]. split; [done|]. split.
  - exists (newRemixConfig remixConfig). split; [done|].
    unfold newRemixConfig. split_and!.
    + by rewrite !replaceFirst_length.
    + intros H1 H2. rewrite (replaceFirst_none _ _ remixConfig H1).
      by apply replaceFirst_none.
    + intros a b c -> H1 H2.
      rewrite (replaceFirst_first (js "server.ts") _ a _ H1).
      replace (a ++ js "server.js" ++ b ++ js "create-user.ts" ++ c)
        with ((a ++ js "server.js" ++ b) ++ js "create-user.ts" ++ c)
        by (by rewrite <- !app_assoc).
      rewrite (replaceFirst_first (js "create-user.ts") _ _ _ H2).
      by rewrite <- !app_assoc.
  - exists (newVitestConfig vitestConfig). split; [done|].
    unfold newVitestConfig. split_and!.
    + by rewrite replaceFirst_length.
    + apply replaceFirst_none.
    + intros a b -> H. by apply replaceFirst_first.
Qed.

(** *** Traces of the question flow *)

Lemma played_app (host : Host) (d : Disk) (es1 es2 : list Event) :
  played host d (es1 ++ es2) = played host (played host d es1) es2.
Proof. apply foldl_app. Qed.

(** A trace in which no command is run leaves the disk as it is. *)
Lemma played_quiet (host : Host) (d : Disk) (es : list Event) :
  Forall (λ e, ∀ command cwd, e ≠ Executed command cwd) es →
  played host d es = d.
Proof.
  induction 1 as [|e es He _ IH]; [done|].
  change (played host d (e :: es)) with
    (played host (played host d [e]) es).
  destruct e as [name|command cwd|message]; [exact IH| |exact IH].
  by destruct (He command cwd).
Qed.

Lemma elapse_nil (host : Host) (w : World) : elapse host w [] = w.
Proof. destruct w. unfold elapse. simpl. by rewrite app_nil_r. Qed.

Lemma elapse_elapse (host : Host) (w : World) (es1 es2 : list Event) :
  elapse host (elapse host w es1) es2 = elapse host w (es1 ++ es2).
Proof. unfold elapse. simpl. by rewrite app_assoc, played_app. Qed.

Lemma log_eq (host : Host) (message : jsstring) (w : World) :
  log message w = (elapse host w [Logged message], Ok tt).
Proof. done. Qed.

Lemma exec_eq (host : Host) (command : jsstring) (cwd : option jsstring)
    (w : World) :
  exec host command cwd w
  = (elapse host w [Executed command cwd],
     (execSync host command cwd (disk w)).2).
Proof. done. Qed.

Lemma prompt_two (host : Host) (a c : bool) (w : World) :
  respond host (js "amplify") = Answered a →
  respond host (js "cli") = Answered c →
  prompt host [amplifyQuestion; cliQuestion] w
  = (elapse host w [Asked (js "amplify"); Asked (js "cli")],
     Ok (<[js "amplify" := a]> (<[js "cli" := c]> ∅))).
Proof. apply prompt_amplify_cli. Qed.

Lemma prompt_one (host : Host) (v : bool) (w : World) :
  respond host (js "validate") = Answered v →
  prompt host [validateQuestion] w
  = (elapse host w [Asked (js "validate")], Ok (<[js "validate" := v]> ∅)).
Proof.
  intros H. unfold prompt, validateQuestion. cbn [q_name]. by rewrite H.
Qed.

(** Looking the commands up: what is run, and which set is found. *)
Lemma getPackageManagerCommand_eq (host : Host) (pm : PackageManager)
    (w : World) :
  getPackageManagerCommand host pm w
  = (elapse host w (probeOf pm), (getPackageManagerCommand host pm w).2).
Proof.
  destruct pm; simpl.
  - by rewrite elapse_nil.
  - unfold getPackageManagerVersion, bind, ret, lift. rewrite exec_eq.
    destruct (execSync host _ None _).2; [|done]. simpl.
    destruct (semver_lt host _ _); [|done]. simpl.
    by destruct (semver_gte host _ _).
  - by rewrite elapse_nil.
Qed.

(** The set found depends on the world through its disk only. *)
Lemma getPackageManagerCommand_result (host : Host) (pm : PackageManager)
    (w w' : World) :
  disk w = disk w' →
  (getPackageManagerCommand host pm w).2
  = (getPackageManagerCommand host pm w').2.
Proof.
  intros Hd. destruct pm; simpl; [done| |done].
  unfold getPackageManagerVersion, bind, ret, lift. rewrite !exec_eq, Hd.
  destruct (execSync host _ None _).2; [|done]. simpl.
  destruct (semver_lt host _ _); [|done]. simpl.
  by destruct (semver_gte host _ _).
Qed.

Lemma getPackageManagerCommand_sets (host : Host) (pm : PackageManager)
    (w : World) (cs : CommandSet) :
  (getPackageManagerCommand host pm w).2 = Ok cs →
  match pm with
  | npm => cs = npmCommands
  | pnpm => ∃ a b, cs = pnpmCommands a b
  | yarn => cs = yarnCommands
  end.
Proof.
  destruct pm; simpl.
  - by intros [= <-].
  - unfold getPackageManagerVersion, bind, ret, lift. rewrite exec_eq.
    destruct (execSync host _ None _).2; [|done]. simpl.
    destruct (semver_lt host _ _) as [lt|]; [|done]. simpl.
    destruct (semver_gte host _ _) as [gte|]; [|done]. simpl.
    intros [= <-]. eauto.
  - by intros [= <-].
Qed.

Lemma call_run_dev (host : Host) (pm : PackageManager) (w : World)
    (cs : CommandSet) :
  (getPackageManagerCommand host pm w).2 = Ok cs →
  call cs (js "run") (js "dev") VUndefined = Ok (devCommand pm).
Proof.
  intros H. apply getPackageManagerCommand_sets in H.
  destruct pm; [by subst| |by subst].
  destruct H as (a & b & ->). by destruct a.
Qed.

Lemma call_run_validate (host : Host) (pm : PackageManager) (w : World)
    (cs : CommandSet) :
  (getPackageManagerCommand host pm w).2 = Ok cs →
  call cs (js "run") (js "validate") VUndefined = Ok (validateCommand pm).
Proof.
  intros H. apply getPackageManagerCommand_sets in H.
  destruct pm; [by subst| |by subst].
  destruct H as (a & b & ->). by destruct a.
Qed.

Lemma call_install_missing (host : Host) (pm : PackageManager) (w : World)
    (cs : CommandSet) (name : jsstring) (args : value) :
  pm ≠ npm →
  (getPackageManagerCommand host pm w).2 = Ok cs →
  call cs (js "install") name args = Throw (plain TypeError).
Proof.
  intros Hpm H. apply getPackageManagerCommand_sets in H.
  destruct pm; [done| |by subst].
  by destruct H as (a & b & ->).
Qed.

Lemma run_log {A} (host : Host) (message : jsstring) (k : M A) (w : World) :
  bind (log message) (λ _, k) w = k (elapse host w [Logged message]).
Proof. done. Qed.

Lemma bind_lift_Ok {A B} (a : A) (k : A → M B) (w : World) :
  bind (lift (Ok a)) k w = k a w.
Proof. done. Qed.

Lemma bind_bind {A B C} (m : M A) (k : A → M B) (h : B → M C) (w : World) :
  bind (bind m k) h w = bind m (λ a, bind (k a) h) w.
Proof. unfold bind. by destruct (m w) as [w1 [a|e]]. Qed.

(** *** What the question flow runs *)

Section Traces.

Variable host : Host.
Variable rootDirectory : jsstring.

(** X12.  When the question flow completes with the integration
    declined, what was observed is exactly: the three questions, the
    version probe in case of pnpm between the second and the third,
    after the third the validate script of the package manager, run in
    the project, when validation was asked for, and the ready message
    with the development command of the package manager.  Nothing else
    was run: the disk is the one these commands left, and the disk
    found when there was none of them. *)
Theorem declined_flow (packageManager : PackageManager) (validate : bool)
    (w w' : World) :
  askSetupQuestions host rootDirectory packageManager w = (w', Ok tt) →
  respond host (js "amplify") = Answered false →
  respond host (js "validate") = Answered validate →
  w' = elapse host w
         ([Asked (js "amplify"); Asked (js "cli")]
          ++ probeOf packageManager
          ++ [Asked (js "validate")]
          ++ validateTrace rootDirectory packageManager validate
          ++ [Logged (readyMessage (devCommand packageManager))])
  ∧ (packageManager ≠ pnpm → validate = false → disk w' = disk w).
Proof.
  intros H Ha Hv.
  assert (w' = elapse host w
         ([Asked (js "amplify"); Asked (js "cli")]
          ++ probeOf packageManager
          ++ [Asked (js "validate")]
          ++ validateTrace rootDirectory packageManager validate
          ++ [Logged (readyMessage (devCommand packageManager))])) as E.
  { unfold askSetupQuestions in H.
    apply bind_inv in H as (w1 & answers & E1 & H).
    assert (∃ c, respond host (js "cli") = Answered c) as [c Hc].
    { unfold prompt, amplifyQuestion, cliQuestion in E1. cbn [q_name] in E1.
      rewrite Ha in E1.
      destruct (respond host (js "cli")) as [c|shown e]; [by exists c|].
      unfold bind, emit, throw, ret in E1. by destruct shown. }
    rewrite (prompt_two host false c w Ha Hc) in E1. injection E1 as <- <-.
    apply bind_inv in H as (w2 & pm & E2 & H).
    rewrite getPackageManagerCommand_eq in E2. injection E2 as <- E2.
    rewrite answered_insert, bind_ret in H.
    apply bind_inv in H as (w3 & va & E3 & H).
    rewrite (prompt_one host validate _ Hv) in E3. injection E3 as <- <-.
    rewrite answered_insert in H.
    rewrite (call_run_dev _ _ _ _ E2) in H.
    unfold validateTrace. destruct validate.
    - rewrite bind_bind, (run_log host) in H.
      rewrite (call_run_validate _ _ _ _ E2) in H.
      rewrite bind_bind, bind_lift_Ok, bind_bind in H.
      apply bind_inv in H as (w4 & out & E4 & H).
      unfold execInProject in E4. rewrite exec_eq in E4.
      injection E4 as <- _.
      rewrite !bind_ret, bind_lift_Ok, (log_eq host) in H.
      injection H as <-. by rewrite !elapse_elapse.
    - rewrite bind_ret, bind_lift_Ok, (log_eq host) in H.
      injection H as <-. by rewrite !elapse_elapse. }
  split; [exact E|]. intros Hpm ->. rewrite E. unfold elapse. cbn [disk].
  apply played_quiet. destruct packageManager; [|done|]; by repeat constructor.
Qed.

(** X13.  With a package manager other than npm whose command set was
    found, accepting the integration makes the question flow, and the
    initializer after its batch, fail with a [TypeError]: after the two
    questions, the version probe in case of pnpm and the first progress
    line, before any command is run in the project. *)
Theorem amplify_fails_without_npm (packageManager : PackageManager)
    (cli : bool) (w : World) (ps : list (Result unit)) :
  packageManager ≠ npm →
  respond host (js "amplify") = Answered true →
  respond host (js "cli") = Answered cli →
  isOk (getPackageManagerCommand host packageManager w).2 = true →
  let w' := elapse host w
              ([Asked (js "amplify"); Asked (js "cli")]
               ++ probeOf packageManager
               ++ [Logged (if cli then js "Installing CLI globally"
                           else js "Installing amplify in project")]) in
  askSetupQuestions host rootDirectory packageManager w
  = (w', Throw (plain TypeError))
  ∧ finish host rootDirectory packageManager ps w
    = (w', Throw (plain TypeError))
  ∧ (packageManager = yarn → disk w' = disk w).
Proof.
  intros Hpm Ha Hc Hok w'.
  assert (askSetupQuestions host rootDirectory packageManager w
          = (w', Throw (plain TypeError))) as E.
  { unfold askSetupQuestions.
    rewrite (bind_Ok _ _ _ _ _ (prompt_two host true cli w Ha Hc)).
    set (w1 := elapse host w _).
    rewrite (getPackageManagerCommand_result host _ w w1) in Hok by done.
    destruct (getPackageManagerCommand host packageManager w1).2
      as [cs|] eqn:Ecs; [|done].
    pose proof (getPackageManagerCommand_eq host packageManager w1) as E2.
    rewrite Ecs in E2. rewrite (bind_Ok _ _ _ _ _ E2).
    rewrite answered_insert.
    assert (answered (<[js "amplify" := true]> (<[js "cli" := cli]> ∅))
              (js "cli") = cli) as ->.
    { unfold answered. by rewrite lookup_insert_ne, lookup_insert_eq. }
    apply bind_Throw. unfold setupAmplify.
    destruct cli.
    - apply bind_Throw. rewrite (bind_Ok _ _ _ _ _ (log_eq host _ _)).
      apply bind_Throw. unfold lift.
      rewrite (call_install_missing _ _ _ _ _ _ Hpm Ecs).
      subst w' w1. by rewrite !elapse_elapse.
    - rewrite bind_ret. rewrite (bind_Ok _ _ _ _ _ (log_eq host _ _)).
      apply bind_Throw. unfold lift.
      rewrite (call_install_missing _ _ _ _ _ _ Hpm Ecs).
      subst w' w1. by rewrite !elapse_elapse. }
  split; [exact E|]. split.
  - rewrite finish_eq. unfold catch. by rewrite E.
  - intros ->. subst w'. unfold elapse. cbn [disk].
    apply played_quiet. by repeat constructor.
Qed.

(** A command that succeeds is recorded, and the flow goes on from the
    disk the command left. *)
Lemma run_execInProject {A} (command : jsstring) (k : M A) (w : World) :
  isOk (execSync host command (Some rootDirectory) (disk w)).2 = true →
  bind (execInProject host rootDirectory command) (λ _, k) w
  = k (elapse host w [Executed command (Some rootDirectory)]).
Proof.
  intros H. unfold execInProject, bind. rewrite exec_eq.
  by destruct (execSync host command (Some rootDirectory) (disk w)).2.
Qed.

Hypothesis commands_succeed :
  ∀ command d, isOk (execSync host command (Some rootDirectory) d).2 = true.

Lemma setupAmplify_npm (cli : bool) (w : World) :
  setupAmplify host rootDirectory npmCommands cli w
  = (elapse host w (amplifyTrace rootDirectory cli), Ok tt).
Proof using commands_succeed.
  unfold setupAmplify, amplifyTrace. destruct cli.
  - rewrite bind_bind, (run_log host).
    rewrite bind_bind. change (call npmCommands _ _ (VStr _))
      with (Ok (js "npm install -g @aws-amplify/cli")).
    rewrite bind_lift_Ok, bind_bind, run_execInProject by done.
    rewrite bind_ret, (run_log host).
    change (call npmCommands _ _ VUndefined)
      with (Ok (js "npm install  aws-amplify")).
    rewrite bind_lift_Ok, run_execInProject by done.
    rewrite !(run_log host), run_execInProject by done.
    rewrite (run_log host), run_execInProject by done.
    unfold ret. by rewrite !elapse_elapse.
  - rewrite bind_ret, (run_log host).
    change (call npmCommands _ _ VUndefined)
      with (Ok (js "npm install  aws-amplify")).
    rewrite bind_lift_Ok, run_execInProject by done.
    rewrite !(run_log host), run_execInProject by done.
    rewrite (run_log host), run_execInProject by done.
    unfold ret. by rewrite !elapse_elapse.
Qed.

(** X14.  With npm, the integration accepted and every command
    succeeding, the flow completes and runs, in this order and in the
    project directory, each command on the disk the one before it left:
    the global install of the CLI when it was asked for, the install of
    the package, [npx amplify configure], [npx amplify init], and after
    the validation question the validate script when it was asked
    for. *)
Theorem amplify_with_npm (cli validate : bool) (w : World) :
  respond host (js "amplify") = Answered true →
  respond host (js "cli") = Answered cli →
  respond host (js "validate") = Answered validate →
  askSetupQuestions host rootDirectory npm w
  = (elapse host w
       ([Asked (js "amplify"); Asked (js "cli")]
        ++ amplifyTrace rootDirectory cli
        ++ [Asked (js "validate")]
        ++ validateTrace rootDirectory npm validate
        ++ [Logged (readyMessage (js "npm run dev "))]),
     Ok tt).
Proof using commands_succeed.
  intros Ha Hc Hv. unfold askSetupQuestions.
  rewrite (bind_Ok _ _ _ _ _ (prompt_two host true cli w Ha Hc)).
  change (getPackageManagerCommand host npm) with (@ret CommandSet npmCommands).
  rewrite bind_ret, answered_insert.
  assert (answered (<[js "amplify" := true]> (<[js "cli" := cli]> ∅))
            (js "cli") = cli) as ->.
  { unfold answered. by rewrite lookup_insert_ne, lookup_insert_eq. }
  rewrite (bind_Ok _ _ _ _ _ (setupAmplify_npm cli _)).
  rewrite (bind_Ok _ _ _ _ _ (prompt_one host validate _ Hv)).
  rewrite answered_insert.
  change (call npmCommands (js "run") (js "dev") VUndefined)
    with (Ok (js "npm run dev ")).
  unfold validateTrace. destruct validate.
  - rewrite bind_bind, (run_log host).
    change (call npmCommands (js "run") (js "validate") VUndefined)
      with (Ok (js "npm run validate ")).
    rewrite bind_bind, bind_lift_Ok, bind_bind, run_execInProject by done.
    rewrite !bind_ret, bind_lift_Ok, (log_eq host).
    by rewrite !elapse_elapse.
  - rewrite bind_ret, bind_lift_Ok, (log_eq host).
    by rewrite !elapse_elapse.
Qed.

End Traces.

(** *** Locality of the batch *)

Lemma locked_foldl_settle (l : list FileOp) (d : Disk) :
  locked (foldl settle d l) = locked d.
Proof.
  revert d. induction l as [|a l IH]; intros d; [done|].
  simpl. by rewrite IH, locked_settle.
Qed.

Lemma lookup_foldl_settle (l : list FileOp) (d : Disk) (k : jsstring) :
  Forall (λ b, covered b k = false) l →
  files (foldl settle d l) !! k = files d !! k.
Proof.
  intros H. revert d. induction H as [|b l Hb _ IH]; intros d; [done|].
  simpl. rewrite IH, lookup_settle. by apply effect_not_covered.
Qed.

Lemma covered_target (op : FileOp) : covered op (target op) = true.
Proof. unfold covered. by rewrite bool_decide_eq_true_2. Qed.

(** The outcome of an operation depends on the locked paths and on the
    nodes at its control path and at its target. *)
Lemma perform_outcome_ext (op : FileOp) (d1 d2 : Disk) :
  locked d1 = locked d2 →
  files d1 !! control op = files d2 !! control op →
  files d1 !! target op = files d2 !! target op →
  outcome (perform op d1) = outcome (perform op d2).
Proof.
  intros HL Hc Ht. unfold perform, writeFile, readFile.
  destruct op as [p c|src dst|p r]; simpl in Hc, Ht.
  - rewrite HL, Ht. by repeat case_match.
  - rewrite HL, Hc, Ht. by repeat case_match.
  - rewrite HL, Ht. by repeat case_match.
Qed.

(** Operations independent of [op] leave alone what [op] reads and what
    it covers. *)
Lemma independent_not_covered (op : FileOp) (l : list FileOp)
    (k : jsstring) :
  Forall (λ b, independent op b = true) l →
  covered op k = true ∨ k = control op →
  Forall (λ b, covered b k = false) l.
Proof.
  intros H Hk. eapply Forall_impl; [exact H|]. intros b Hb. simpl in Hb.
  destruct Hk as [Hk| ->].
  - by apply covered_disjoint with op.
  - apply control_not_covered. by rewrite independent_sym.
Qed.

Lemma batch_local (l1 l2 : list FileOp) (op : FileOp) (d : Disk)
    (k : jsstring) :
  pairwiseIndependent (l1 ++ op :: l2) = true → covered op k = true →
  files (foldl settle d (l1 ++ op :: l2)) !! k = files (settle d op) !! k.
Proof.
  intros H Hk. apply pairwiseIndependent_middle in H as [H1 H2].
  rewrite foldl_app. simpl.
  rewrite (lookup_foldl_settle l2)
    by (apply (independent_not_covered op); auto).
  rewrite !lookup_settle, locked_foldl_settle.
  rewrite !(lookup_foldl_settle l1)
    by (apply (independent_not_covered op); auto).
  done.
Qed.

Lemma batch_outcome (l1 l2 : list FileOp) (op : FileOp) (d : Disk) :
  pairwiseIndependent (l1 ++ op :: l2) = true →
  (start (l1 ++ op :: l2) d).2 !! length l1 = Some (outcome (perform op d)).
Proof.
  intros H. apply pairwiseIndependent_middle in H as [H1 _].
  rewrite start_lookup. f_equal.
  apply (perform_outcome_ext op).
  - apply locked_foldl_settle.
  - apply lookup_foldl_settle, (independent_not_covered op); auto.
  - apply lookup_foldl_settle, (independent_not_covered op); [done|].
    left. apply covered_target.
Qed.

Lemma lookup_split {A} (l : list A) (i : nat) (x : A) :
  l !! i = Some x → ∃ l1 l2, l = l1 ++ x :: l2 ∧ length l1 = i.
Proof.
  intros H. exists (take i l), (drop (S i) l). split.
  - by rewrite take_drop_middle.
  - apply length_take_le. apply lookup_lt_Some in H. lia.
Qed.

(** The paths covered do not depend on the contents written. *)
Lemma touched_eq (isTypeScript : bool) (rootDirectory : jsstring)
    (e r m dt rt vt : jsstring) (k : jsstring) :
  existsb (λ op, covered op k)
          (allOperations isTypeScript rootDirectory e r m dt rt vt)
  = touched isTypeScript rootDirectory k.
Proof. by destruct isTypeScript. Qed.

(** X15.  In a run each operation acts as if it ran alone on the disk
    the run started from: its promise holds the outcome it has on that
    disk, and every path it covers is left as it alone would leave it.
    A path no operation covers is left as it was, and no path gets
    locked or unlocked. *)
Theorem batch_locality (isTypeScript : bool) (rootDirectory : jsstring)
    (envText readmeText manifestText deployText remixText vitestText
       : jsstring) (d : Disk) :
  let ops := allOperations isTypeScript rootDirectory envText readmeText
               manifestText deployText remixText vitestText in
  (∀ i op, ops !! i = Some op →
     (start ops d).2 !! i = Some (outcome (perform op d))
     ∧ ∀ k, covered op k = true →
            files (start ops d).1 !! k = files (settle d op) !! k)
  ∧ (∀ k, touched isTypeScript rootDirectory k = false →
          files (start ops d).1 !! k = files d !! k)
  ∧ locked (start ops d).1 = locked d.
Proof.
  intros ops.
  pose proof (allOperations_independent isTypeScript rootDirectory envText
                readmeText manifestText deployText remixText vitestText)
    as Hind.
  fold ops in Hind. split; [|split].
  - intros i op Hi. apply lookup_split in Hi as (l1 & l2 & E & <-).
    rewrite E in *. split; [by apply batch_outcome|].
    intros k Hk. rewrite start_settle. by apply batch_local.
  - intros k Hk. rewrite start_settle. apply lookup_foldl_settle.
    apply Forall_forall. intros op Hop.
    apply not_true_is_false. intros Hc.
    rewrite <- (touched_eq isTypeScript rootDirectory envText readmeText
                  manifestText deployText remixText vitestText) in Hk.
    fold ops in Hk. apply not_true_iff_false in Hk. apply Hk.
    apply existsb_exists. exists op. split; [|done].
    by apply list_elem_of_In.
  - rewrite start_settle. apply locked_foldl_settle.
Qed.

(** *** What a scaffold has done *)

Lemma bind_inv_Throw {A B} (m : M A) (k : A → M B) (w w1 : World)
    (e : Error) :
  bind m k w = (w1, Throw e) →
  m w = (w1, Throw e) ∨ ∃ w' a, m w = (w', Ok a) ∧ k a w' = (w1, Throw e).
Proof.
  unfold bind. destruct (m w) as [w' [a|e']]; [eauto|].
  intros [= <- <-]. by left.
Qed.

Lemma read_inv (p : jsstring) (w w' : World) (r : Result jsstring) :
  read p w = (w', r) → w' = w ∧ readFile (disk w) p = r.
Proof. unfold read. by intros [= <- <-]. Qed.

Lemma lift_inv {A} (r r' : Result A) (w w' : World) :
  lift r w = (w', r') → w' = w ∧ r = r'.
Proof. unfold lift. by intros [= <- <-]. Qed.

Lemma readFileIfNotTypeScript_inv {A} (isTypeScript : bool) (p : jsstring)
    (f : jsstring → Result A) (w w' : World) (o : option A) :
  readFileIfNotTypeScript isTypeScript p f w = (w', Ok o) →
  w' = w
  ∧ if isTypeScript then o = None
    else ∃ text v, readFile (disk w) p = Ok text ∧ f text = Ok v ∧ o = Some v.
Proof.
  unfold readFileIfNotTypeScript. destruct isTypeScript.
  - by intros [= <- <-].
  - intros H. apply bind_inv in H as (w1 & text & E & H).
    apply read_inv in E as [-> E].
    apply bind_inv in H as (w1 & v & E' & H).
    apply lift_inv in E' as [-> E']. injection H as <- <-.
    split; [done|]. by exists text, v.
Qed.

Lemma load_inv (host : Host) (root : jsstring) (w w' : World)
    (c : PackageContent) :
  load host root w = (w', Ok c) →
  w' = w ∧ ∃ text, readFile (disk w) (join root (js "package.json")) = Ok text
                   ∧ JSON_parse host text = Ok c.
Proof.
  unfold load. intros H. apply bind_inv in H as (w1 & text & E & H).
  apply read_inv in E as [-> E]. apply lift_inv in H as [-> H]. eauto.
Qed.

Lemma ret_inv {A} (a b : A) (w w' : World) :
  ret a w = (w', Ok b) → w' = w ∧ b = a.
Proof. unfold ret. by intros [= <- <-]. Qed.

Lemma Ok_inj {A} (a b : A) : Ok a = Ok b → a = b.
Proof. by intros [= <-]. Qed.

Lemma startOps_eq (ops : list FileOp) (w : World) :
  startOps ops w
  = ({| disk := (start ops (disk w)).1; events := events w |},
     Ok (start ops (disk w)).2).
Proof. unfold startOps. by destruct (start ops (disk w)). Qed.

Lemma startOps_Ok (ops : list FileOp) (w w' : World)
    (rs : list (Result unit)) :
  startOps ops w = (w', Ok rs) →
  start ops (disk w) = (disk w', rs) ∧ events w' = events w.
Proof.
  unfold startOps. destruct (start ops (disk w)) as [d rs'].
  by intros [= <- <-].
Qed.

(** The scaffold, once its reads have succeeded. *)
Lemma scaffold_Ok (host : Host) (isTypeScript : bool) (root : jsstring)
    (w w1 : World) (ps : list (Result unit)) :
  scaffold host isTypeScript root w = (w1, Ok ps) →
  ∃ s pkg dt rt vt,
    readFrom host isTypeScript root (disk w) s
    ∧ updatePackageJson (APP_NAME root) isTypeScript (src_package s) = Ok pkg
    ∧ (isTypeScript = false →
       plainTexts host s = Some (dt, rt, vt))
    ∧ events w1 = events w
    ∧ start (allOperations isTypeScript root
               (newEnv host (src_env s))
               (replaceAll (js "RemixStack") (APP_NAME root) (src_readme s))
               (JSON_stringify host pkg) dt rt vt) (disk w)
      = (disk w1, ps).
Proof.
  unfold scaffold. intros H.
  apply bind_inv in H as (w' & env & E & H).
  apply read_inv in E as [-> Eenv].
  apply bind_inv in H as (w' & readme & E & H).
  apply read_inv in E as [-> Ereadme].
  apply bind_inv in H as (w' & deployWorkflow & E & H).
  apply readFileIfNotTypeScript_inv in E as [-> Edeploy].
  apply bind_inv in H as (w' & remixConfig & E & H).
  apply readFileIfNotTypeScript_inv in E as [-> Eremix].
  apply bind_inv in H as (w' & vitestConfig & E & H).
  apply readFileIfNotTypeScript_inv in E as [-> Evitest].
  apply bind_inv in H as (w' & packageJson & E & H).
  apply load_inv in E as [-> Eload].
  apply bind_inv in H as (w' & pkg & E & H).
  apply lift_inv in E as [-> Epkg].
  apply bind_inv in H as (w2 & started & E & H).
  apply startOps_Ok in E as [E Ev2].
  apply bind_inv in H as (w3 & pushed & Ep & H).
  apply ret_inv in H as [-> ->].
  exists {| src_env := env; src_readme := readme; src_package := packageJson;
            src_deploy := deployWorkflow; src_remix := remixConfig;
            src_vitest := vitestConfig |}.
  unfold readFrom, plainTexts. cbn [src_env src_readme src_package src_deploy
                                   src_remix src_vitest].
  unfold allOperations.
  destruct isTypeScript; simpl negb in Ep; cbv iota in Ep.
  - apply ret_inv in Ep as [-> ->]. exists pkg, [], [], [].
    split_and!; [exact Eenv|exact Ereadme|exact Eload|exact Edeploy
                |exact Eremix|exact Evitest|exact Epkg|discriminate
                |exact Ev2|].
    rewrite !app_nil_r. exact E.
  - apply bind_inv in Ep as (w' & ops1 & E1 & Ep).
    apply lift_inv in E1 as [-> E1].
    apply bind_inv in Ep as (w4 & rs1 & S1 & Ep).
    apply startOps_Ok in S1 as [S1 Ev4].
    apply bind_inv in Ep as (w' & ops2 & E2 & Ep).
    apply lift_inv in E2 as [-> E2].
    apply bind_inv in Ep as (w5 & rs2 & S2 & Ep).
    apply startOps_Ok in S2 as [S2 Ev5].
    apply bind_inv in Ep as (w' & ops3 & E3 & Ep).
    apply lift_inv in E3 as [-> E3].
    apply bind_inv in Ep as (w6 & rs3 & S3 & Ep).
    apply startOps_Ok in S3 as [S3 Ev6].
    apply ret_inv in Ep as [-> ->].
    unfold cleanupDeployWorkflow in E1.
    destruct (dropTypecheckJob deployWorkflow) as [wf|]; [|done].
    unfold cleanupRemixConfig in E2. destruct remixConfig as [rc|]; [|done].
    unfold cleanupVitestConfig in E3. destruct vitestConfig as [vc|]; [|done].
    apply Ok_inj in E1 as <-. apply Ok_inj in E2 as <-.
    apply Ok_inj in E3 as <-.
    exists pkg, (YAML_stringify host wf), (newRemixConfig rc),
      (newVitestConfig vc).
    split_and!; [exact Eenv|exact Ereadme|exact Eload| | |
                |exact Epkg|by intros _|congruence|].
    + destruct Edeploy as (text & v & Hr & Hp & Hv). by exists text, v.
    + destruct Eremix as (text & v & Hr & Hp & Hv).
      apply Ok_inj in Hp as <-. by exists text.
    + destruct Evitest as (text & v & Hr & Hp & Hv).
      apply Ok_inj in Hp as <-. by exists text.
    + rewrite start_app, E. cbn [fst snd].
      unfold cleanupOperations.
      rewrite start_cons, S1. cbn [fst snd].
      rewrite start_cons, S2. cbn [fst snd].
      by rewrite S3.
Qed.

(** What a run leaves at a path covered by one of its operations. *)
Lemma allOperations_local (isTypeScript : bool) (root : jsstring)
    (e r m dt rt vt : jsstring) (d : Disk) (op : FileOp) (k : jsstring) :
  op ∈ allOperations isTypeScript root e r m dt rt vt →
  covered op k = true →
  files (start (allOperations isTypeScript root e r m dt rt vt) d).1 !! k
  = files (settle d op) !! k.
Proof.
  intros Hop Hk.
  pose proof (allOperations_independent isTypeScript root e r m dt rt vt)
    as Hind.
  apply list_elem_of_lookup in Hop as [i Hi].
  apply lookup_split in Hi as (l1 & l2 & E & _).
  rewrite E in *. rewrite start_settle. by apply batch_local.
Qed.

Lemma settle_write (d : Disk) (p content : jsstring) :
  p ∉ locked d → files d !! p ≠ Some Directory →
  files (settle d (WriteFile p content)) !! p = Some (File content).
Proof.
  intros HL Hd. rewrite lookup_settle. unfold effect.
  rewrite bool_decide_eq_true_2 by done.
  rewrite bool_decide_eq_false_2 by done.
  by destruct (files d !! p) as [[?|]|].
Qed.

Lemma readFile_File (d : Disk) (p c : jsstring) :
  readFile d p = Ok c ↔ files d !! p = Some (File c).
Proof.
  unfold readFile. destruct (files d !! p) as [[?|]|]; split; congruence.
Qed.

(** A write of the run on a path that is not locked and holds no
    directory leaves the file written. *)
Lemma allOperations_written (isTypeScript : bool) (root : jsstring)
    (e r m dt rt vt : jsstring) (d : Disk) (p content : jsstring) :
  WriteFile p content ∈ allOperations isTypeScript root e r m dt rt vt →
  p ∉ locked d → files d !! p ≠ Some Directory →
  readFile (start (allOperations isTypeScript root e r m dt rt vt) d).1 p
  = Ok content.
Proof.
  intros Hop HL Hd. apply readFile_File.
  rewrite (allOperations_local _ _ _ _ _ _ _ _ _ _ _ Hop)
    by apply (covered_target (WriteFile p content)).
  by apply settle_write.
Qed.

Lemma elem_of_fileOperations (isTypeScript : bool) (root : jsstring)
    (e r m dt rt vt : jsstring) (op : FileOp) :
  op ∈ fileOperations root e r m →
  op ∈ allOperations isTypeScript root e r m dt rt vt.
Proof. intros H. unfold allOperations. apply elem_of_app. by left. Qed.

Lemma elem_of_cleanupOperations (root : jsstring)
    (e r m dt rt vt : jsstring) (op : FileOp) :
  op ∈ cleanupOperations false root dt rt vt →
  op ∈ allOperations false root e r m dt rt vt.
Proof. intros H. unfold allOperations. apply elem_of_app. by right. Qed.

(** X17.  A scaffold that has started all its operations read the
    example environment file, the README and the manifest, and left, at
    each path that was not locked and held no directory: in [.env] the
    example file with its secret rewritten, in the README the text with
    the application name in place of [RemixStack], in the manifest the
    rewritten manifest; and in the plain variant the cleaned workflow
    and the two rewritten configuration files. *)
Theorem scaffold_writes (host : Host) (isTypeScript : bool)
    (rootDirectory : jsstring) (w w1 : World) (ps : list (Result unit)) :
  scaffold host isTypeScript rootDirectory w = (w1, Ok ps) →
  let written := writtenAt (disk w) (disk w1) in
  ∃ s pkg,
    readFrom host isTypeScript rootDirectory (disk w) s
    ∧ updatePackageJson (APP_NAME rootDirectory) isTypeScript (src_package s)
      = Ok pkg
    ∧ written (ENV_PATH rootDirectory) (newEnv host (src_env s))
    ∧ written (README_PATH rootDirectory)
        (replaceAll (js "RemixStack") (APP_NAME rootDirectory) (src_readme s))
    ∧ written (join rootDirectory (js "package.json"))
        (JSON_stringify host pkg)
    ∧ (isTypeScript = false →
       ∃ dt rt vt,
         plainTexts host s = Some (dt, rt, vt)
         ∧ written (DEPLOY_WORKFLOW_PATH rootDirectory) dt
         ∧ written (REMIX_CONFIG_PATH rootDirectory) rt
         ∧ written (VITEST_CONFIG_PATH false rootDirectory) vt).
Proof.
  intros H written.
  apply scaffold_Ok in H as (s & pkg & dt & rt & vt & Hs & Hp & Ht & _ & H).
  exists s, pkg. split; [exact Hs|]. split; [exact Hp|].
  assert (Hd : disk w1
               = (start (allOperations isTypeScript rootDirectory
                           (newEnv host (src_env s))
                           (replaceAll (js "RemixStack")
                              (APP_NAME rootDirectory) (src_readme s))
                           (JSON_stringify host pkg) dt rt vt) (disk w)).1)
    by by rewrite H.
  subst written. unfold writtenAt. rewrite Hd. clear H Hd.
  split_and!.
  - apply allOperations_written, elem_of_fileOperations.
    unfold fileOperations. apply list_elem_of_here.
  - apply allOperations_written, elem_of_fileOperations.
    unfold fileOperations. do 1 apply list_elem_of_further.
    apply list_elem_of_here.
  - apply allOperations_written, elem_of_fileOperations.
    unfold fileOperations. do 2 apply list_elem_of_further.
    apply list_elem_of_here.
  - intros ->. exists dt, rt, vt. split; [by apply Ht|].
    split_and!; apply allOperations_written, elem_of_cleanupOperations;
      unfold cleanupOperations.
    + apply list_elem_of_here.
    + do 1 apply list_elem_of_further. apply list_elem_of_here.
    + do 2 apply list_elem_of_further. apply list_elem_of_here.
Qed.

(** *** The copy and the removals *)

Lemma settle_copy (d : Disk) (src dst content : jsstring) :
  readFile d src = Ok content →
  dst ∉ locked d → files d !! dst ≠ Some Directory →
  files (settle d (CopyFile src dst)) !! dst = Some (File content).
Proof.
  intros Hs HL Hd. apply readFile_File in Hs.
  rewrite lookup_settle. unfold effect. simpl control. rewrite Hs.
  rewrite bool_decide_eq_true_2 by done.
  rewrite bool_decide_eq_false_2 by done.
  by destruct (files d !! dst) as [[?|]|].
Qed.

Lemma settle_rm_file (d : Disk) (p content : jsstring) (recursive : bool) :
  files d !! p = Some (File content) → p ∉ locked d →
  files (settle d (Rm p recursive)) !! p = None.
Proof.
  intros Hp HL. rewrite lookup_settle. unfold effect. simpl control.
  rewrite Hp, bool_decide_eq_false_2 by done.
  by rewrite bool_decide_eq_true_2.
Qed.

Lemma settle_rm_tree (d : Disk) (p k : jsstring) :
  files d !! p = Some Directory → p ∉ locked d →
  k = p ∨ under p k = true →
  files (settle d (Rm p true)) !! k = None.
Proof.
  intros Hp HL Hk. rewrite lookup_settle. unfold effect. simpl control.
  rewrite Hp, bool_decide_eq_false_2 by done.
  destruct Hk as [->| ->]; [by rewrite bool_decide_eq_true_2|].
  by rewrite orb_true_r.
Qed.

Lemma settle_rm_directory (d : Disk) (p : jsstring) :
  files d !! p = Some Directory →
  files (settle d (Rm p false)) !! p = Some Directory.
Proof.
  intros Hp. rewrite lookup_settle. unfold effect. simpl control.
  rewrite Hp. by destruct (bool_decide (p ∈ locked d)).
Qed.

(** X18.  After a scaffold that has started all its operations:
    [.gitignore] holds the content of [remix.init/gitignore] when that
    file could be read and the target was not locked and no directory;
    the directory [.github/ISSUE_TEMPLATE] and everything under it is
    gone when it was a directory and not locked; each of
    [.github/dependabot.yml] and [.github/PULL_REQUEST_TEMPLATE.md] is
    gone when it was a file and not locked, and is kept when it was a
    directory. *)
Theorem scaffold_housekeeping (host : Host) (isTypeScript : bool)
    (rootDirectory : jsstring) (w w1 : World) (ps : list (Result unit)) :
  scaffold host isTypeScript rootDirectory w = (w1, Ok ps) →
  let github := join rootDirectory (js ".github") in
  let before := disk w in
  let after := disk w1 in
  (∀ content,
     readFile before
       (join (join rootDirectory (js "remix.init")) (js "gitignore"))
     = Ok content →
     writtenAt before after (join rootDirectory (js ".gitignore")) content)
  ∧ (files before !! join github (js "ISSUE_TEMPLATE") = Some Directory →
     join github (js "ISSUE_TEMPLATE") ∉ locked before →
     ∀ k, k = join github (js "ISSUE_TEMPLATE")
          ∨ under (join github (js "ISSUE_TEMPLATE")) k = true →
          files after !! k = None)
  ∧ (∀ name, name = js "dependabot.yml" ∨ name = js "PULL_REQUEST_TEMPLATE.md" →
       (∀ content, files before !! join github name = Some (File content) →
                   join github name ∉ locked before →
                   files after !! join github name = None)
       ∧ (files before !! join github name = Some Directory →
          files after !! join github name = Some Directory)).
Proof.
  intros H github before after.
  apply scaffold_Ok in H as (s & pkg & dt & rt & vt & _ & _ & _ & _ & H).
  assert (Hd : after
               = (start (allOperations isTypeScript rootDirectory
                           (newEnv host (src_env s))
                           (replaceAll (js "RemixStack")
                              (APP_NAME rootDirectory) (src_readme s))
                           (JSON_stringify host pkg) dt rt vt) before).1)
    by (subst after before; by rewrite H).
  rewrite Hd. clear H Hd. clearbody before. clear after.
  split_and!.
  - intros content Hsrc HL Hdir. apply readFile_File.
    erewrite allOperations_local;
      [by apply settle_copy| |apply (covered_target (CopyFile _ _))].
    apply elem_of_fileOperations. unfold fileOperations.
    do 3 apply list_elem_of_further. apply list_elem_of_here.
  - intros Hdir HL k Hk.
    erewrite allOperations_local; [by apply settle_rm_tree| |].
    + apply elem_of_fileOperations. unfold fileOperations.
      do 4 apply list_elem_of_further. apply list_elem_of_here.
    + unfold covered. simpl. destruct Hk as [->| ->].
      * by rewrite bool_decide_eq_true_2.
      * by rewrite orb_true_r.
  - intros name [->| ->]; split.
    + intros content Hf HL.
      erewrite allOperations_local;
        [by eapply settle_rm_file| |apply (covered_target (Rm _ _))].
      apply elem_of_fileOperations. unfold fileOperations.
      do 5 apply list_elem_of_further. apply list_elem_of_here.
    + intros Hdir.
      erewrite allOperations_local;
        [by apply settle_rm_directory| |apply (covered_target (Rm _ _))].
      apply elem_of_fileOperations. unfold fileOperations.
      do 5 apply list_elem_of_further. apply list_elem_of_here.
    + intros content Hf HL.
      erewrite allOperations_local;
        [by eapply settle_rm_file| |apply (covered_target (Rm _ _))].
      apply elem_of_fileOperations. unfold fileOperations.
      do 6 apply list_elem_of_further. apply list_elem_of_here.
    + intros Hdir.
      erewrite allOperations_local;
        [by apply settle_rm_directory| |apply (covered_target (Rm _ _))].
      apply elem_of_fileOperations. unfold fileOperations.
      do 6 apply list_elem_of_further. apply list_elem_of_here.
Qed.

(** *** What the scaffold leaves alone *)

Lemma confined_pure {A} (S : jsstring → bool) (m : M A) :
  pure m → confined S m.
Proof. intros H w. rewrite (H w). split; [done|]. split; [done|]. done. Qed.

Lemma confined_bind {A B} (S : jsstring → bool) (m : M A) (k : A → M B) :
  confined S m →
  (∀ w a, (m w).2 = Ok a → confined S (k a)) →
  confined S (bind m k).
Proof.
  intros Hm Hk w. unfold bind. specialize (Hm w). specialize (Hk w).
  destruct (m w) as [w' [a|e]]; [|done].
  destruct Hm as (He & HL & Hf).
  destruct (Hk a eq_refl w') as (He' & HL' & Hf'). simpl in *.
  split; [congruence|]. split; [congruence|].
  intros k0 Hk0. by rewrite Hf', Hf.
Qed.

Lemma confined_startOps (S : jsstring → bool) (ops : list FileOp) :
  (∀ k, S k = false → Forall (λ op, covered op k = false) ops) →
  confined S (startOps ops).
Proof.
  intros H w. rewrite startOps_eq. cbn [fst disk events].
  rewrite start_settle. split; [done|].
  split; [apply locked_foldl_settle|].
  intros k Hk. by apply lookup_foldl_settle, H.
Qed.

Lemma touched_false (isTypeScript : bool) (root : jsstring)
    (e r m dt rt vt : jsstring) (k : jsstring) :
  touched isTypeScript root k = false →
  Forall (λ op, covered op k = false)
         (allOperations isTypeScript root e r m dt rt vt).
Proof.
  intros H. rewrite <- (touched_eq _ _ e r m dt rt vt) in H.
  apply Forall_forall. intros op Hop. apply not_true_is_false. intros Hc.
  apply not_true_iff_false in H. apply H.
  apply existsb_exists. exists op. split; [|done]. by apply list_elem_of_In.
Qed.

Lemma touched_fileOperations (isTypeScript : bool) (root : jsstring)
    (e r m : jsstring) (k : jsstring) :
  touched isTypeScript root k = false →
  Forall (λ op, covered op k = false) (fileOperations root e r m).
Proof.
  intros H. apply (touched_false _ _ e r m [] [] []) in H.
  unfold allOperations in H. by apply Forall_app in H as [H _].
Qed.

Lemma touched_cleanupOperations (root : jsstring) (dt rt vt : jsstring)
    (k : jsstring) :
  touched false root k = false →
  Forall (λ op, covered op k = false) (cleanupOperations false root dt rt vt).
Proof.
  intros H. apply (touched_false _ _ [] [] [] dt rt vt) in H.
  unfold allOperations in H. by apply Forall_app in H as [_ H].
Qed.

Lemma confined_scaffold (host : Host) (isTypeScript : bool)
    (root : jsstring) :
  confined (touched isTypeScript root) (scaffold host isTypeScript root).
Proof.
  unfold scaffold.
  apply confined_bind; [by apply confined_pure, pure_read|]. intros _ env _.
  apply confined_bind; [by apply confined_pure, pure_read|].
  intros _ readme _.
  apply confined_bind;
    [by apply confined_pure, pure_readFileIfNotTypeScript|].
  intros _ deployWorkflow _.
  apply confined_bind;
    [by apply confined_pure, pure_readFileIfNotTypeScript|].
  intros _ remixConfig _.
  apply confined_bind;
    [by apply confined_pure, pure_readFileIfNotTypeScript|].
  intros _ vitestConfig _.
  apply confined_bind; [by apply confined_pure, pure_load|].
  intros _ packageJson _.
  apply confined_bind; [by apply confined_pure, pure_lift|]. intros _ pkg _.
  apply confined_bind.
  { apply confined_startOps. intros k. apply touched_fileOperations. }
  intros _ started _.
  apply confined_bind; [|intros; by apply confined_pure, pure_ret].
  destruct isTypeScript; [by apply confined_pure, pure_ret|].
  simpl negb. cbv iota.
  apply confined_bind; [by apply confined_pure, pure_lift|].
  intros w0 ops1 E1. unfold lift in E1. cbn [snd] in E1.
  apply confined_bind.
  { apply confined_startOps. intros k Hk.
    unfold cleanupDeployWorkflow in E1.
    destruct (dropTypecheckJob deployWorkflow) as [wf|]; [|done].
    apply Ok_inj in E1 as <-.
    apply (touched_cleanupOperations root (YAML_stringify host wf) [] []) in Hk.
    unfold cleanupOperations in Hk. apply Forall_cons in Hk as [? _].
    by apply Forall_singleton. }
  intros _ rs1 _.
  apply confined_bind; [by apply confined_pure, pure_lift|].
  intros w2 ops2 E2. unfold lift in E2. cbn [snd] in E2.
  apply confined_bind.
  { apply confined_startOps. intros k Hk.
    unfold cleanupRemixConfig in E2. destruct remixConfig as [rc|]; [|done].
    apply Ok_inj in E2 as <-.
    apply (touched_cleanupOperations root [] (newRemixConfig rc) []) in Hk.
    unfold cleanupOperations in Hk.
    apply Forall_cons in Hk as [_ Hk]. apply Forall_cons in Hk as [? _].
    by apply Forall_singleton. }
  intros _ rs2 _.
  apply confined_bind; [by apply confined_pure, pure_lift|].
  intros w3 ops3 E3. unfold lift in E3. cbn [snd] in E3.
  apply confined_bind; [|intros; by apply confined_pure, pure_ret].
  apply confined_startOps. intros k Hk.
  unfold cleanupVitestConfig in E3. destruct vitestConfig as [vc|]; [|done].
  apply Ok_inj in E3 as <-.
  apply (touched_cleanupOperations root [] [] (newVitestConfig vc)) in Hk.
  unfold cleanupOperations in Hk.
  apply Forall_cons in Hk as [_ Hk]. apply Forall_cons in Hk as [_ Hk].
  apply Forall_cons in Hk as [? _]. by apply Forall_singleton.
Qed.

Lemma target_rebase (root : jsstring) (op : FileOp) :
  target (rebase root op) = join root (target op).
Proof. by destruct op. Qed.

Lemma under_join_root (root name : jsstring) :
  under root (join root name) = true.
Proof.
  unfold under, join.
  replace (root ++ SLASH :: name) with ((root ++ [SLASH]) ++ name)
    by (by rewrite <- app_assoc).
  apply startsWith_app.
Qed.

Lemma under_trans (p q k : jsstring) :
  under p q = true → under q k = true → under p k = true.
Proof.
  unfold under. intros Hpq Hqk.
  apply startsWith_inv in Hpq as [t ->].
  apply startsWith_inv in Hqk as [t' ->].
  rewrite <- !app_assoc. rewrite (app_assoc p). apply startsWith_app.
Qed.

(** Every path a run can change lies inside the project directory. *)
Lemma touched_inside (isTypeScript : bool) (root k : jsstring) :
  touched isTypeScript root k = true → under root k = true.
Proof.
  unfold touched. rewrite allOperations_rebase. intros H.
  apply existsb_exists in H as (op & Hop & Hc).
  apply in_map_iff in Hop as (rel & <- & _).
  apply covered_inv in Hc. rewrite target_rebase in Hc.
  destruct Hc as [->|Hc]; [apply under_join_root|].
  by apply (under_trans _ _ _ (under_join_root root (target rel))).
Qed.

(** X19.  Whatever its outcome, a scaffold shows, runs and prints
    nothing, locks and unlocks nothing, and changes no path but the
    targets of its operations and what lies under the removed
    directory; in particular it changes nothing outside the project
    directory. *)
Theorem scaffold_frame (host : Host) (isTypeScript : bool)
    (rootDirectory : jsstring) (w : World) :
  let w1 := (scaffold host isTypeScript rootDirectory w).1 in
  events w1 = events w
  ∧ locked (disk w1) = locked (disk w)
  ∧ (∀ k, touched isTypeScript rootDirectory k = false →
          files (disk w1) !! k = files (disk w) !! k)
  ∧ (∀ k, under rootDirectory k = false →
          files (disk w1) !! k = files (disk w) !! k).
Proof.
  intros w1.
  destruct (confined_scaffold host isTypeScript rootDirectory w)
    as (He & HL & Hf).
  split; [exact He|]. split; [exact HL|]. split; [exact Hf|].
  intros k Hk. apply Hf. apply not_true_is_false. intros Ht.
  apply touched_inside in Ht. congruence.
Qed.

(** *** How a scaffold fails *)

Lemma startOps_no_Throw (ops : list FileOp) (w w1 : World) (e : Error) :
  startOps ops w ≠ (w1, Throw e).
Proof. rewrite startOps_eq. congruence. Qed.

Lemma ret_no_Throw {A} (a : A) (w w1 : World) (e : Error) :
  ret a w ≠ (w1, Throw e).
Proof. unfold ret. congruence. Qed.

(** X20.  A scaffold that fails either leaves the world as it found it,
    or it is the plain variant failing with a [TypeError] in the
    workflow cleanup, after every read succeeded: then the seven common
    operations have run, none of the three plain-variant writes has, and
    nothing was observed. *)
Theorem scaffold_failure (host : Host) (isTypeScript : bool)
    (rootDirectory : jsstring) (w w1 : World) (e : Error) :
  scaffold host isTypeScript rootDirectory w = (w1, Throw e) →
  w1 = w
  ∨ (isTypeScript = false ∧ e = plain TypeError ∧ events w1 = events w
     ∧ ∃ s pkg,
         readFrom host false rootDirectory (disk w) s
         ∧ updatePackageJson (APP_NAME rootDirectory) false (src_package s)
           = Ok pkg
         ∧ dropTypecheckJob (src_deploy s) = Throw e
         ∧ disk w1
           = (start (fileOperations rootDirectory
                       (newEnv host (src_env s))
                       (replaceAll (js "RemixStack") (APP_NAME rootDirectory)
                          (src_readme s))
                       (JSON_stringify host pkg)) (disk w)).1).
Proof.
  unfold scaffold. intros H.
  apply bind_inv_Throw in H as [H|(w' & env & E & H)];
    [left; exact (pure_inv _ _ _ _ (pure_read _) H)|].
  apply read_inv in E as [-> Eenv].
  apply bind_inv_Throw in H as [H|(w' & readme & E & H)];
    [left; exact (pure_inv _ _ _ _ (pure_read _) H)|].
  apply read_inv in E as [-> Ereadme].
  apply bind_inv_Throw in H as [H|(w' & deployWorkflow & E & H)];
    [left; exact (pure_inv _ _ _ _ (pure_readFileIfNotTypeScript _ _ _) H)|].
  apply readFileIfNotTypeScript_inv in E as [-> Edeploy].
  apply bind_inv_Throw in H as [H|(w' & remixConfig & E & H)];
    [left; exact (pure_inv _ _ _ _ (pure_readFileIfNotTypeScript _ _ _) H)|].
  apply readFileIfNotTypeScript_inv in E as [-> Eremix].
  apply bind_inv_Throw in H as [H|(w' & vitestConfig & E & H)];
    [left; exact (pure_inv _ _ _ _ (pure_readFileIfNotTypeScript _ _ _) H)|].
  apply readFileIfNotTypeScript_inv in E as [-> Evitest].
  apply bind_inv_Throw in H as [H|(w' & packageJson & E & H)];
    [left; exact (pure_inv _ _ _ _ (pure_load _ _) H)|].
  apply load_inv in E as [-> Eload].
  apply bind_inv_Throw in H as [H|(w' & pkg & E & H)];
    [left; exact (pure_inv _ _ _ _ (pure_lift _) H)|].
  apply lift_inv in E as [-> Epkg].
  apply bind_inv_Throw in H as [H|(w2 & started & E & H)];
    [by apply startOps_no_Throw in H|].
  apply startOps_Ok in E as [E Ev2].
  apply bind_inv_Throw in H as [H|(w3 & pushed & _ & H)];
    [|by apply ret_no_Throw in H].
  destruct isTypeScript; simpl negb in H; cbv iota in H;
    [by apply ret_no_Throw in H|].
  destruct Eremix as (rtext & rc & Hrr & Hrp & ->).
  apply Ok_inj in Hrp as <-.
  destruct Evitest as (vtext & vc & Hvr & Hvp & ->).
  apply Ok_inj in Hvp as <-.
  destruct Edeploy as (dtext & wf & Hdr & Hdp & ->).
  apply bind_inv_Throw in H as [H|(w' & ops1 & E1 & H)].
  { apply lift_inv in H as [-> H]. right.
    unfold cleanupDeployWorkflow in H.
    destruct (dropTypecheckJob (Some wf)) as [?|e'] eqn:Ed; [done|].
    assert (e' = e) as -> by congruence.
    split; [done|]. split; [by apply dropTypecheckJob_TypeError in Ed|].
    split; [exact Ev2|].
    exists {| src_env := env; src_readme := readme;
              src_package := packageJson; src_deploy := Some wf;
              src_remix := Some rtext; src_vitest := Some vtext |}, pkg.
    unfold readFrom.
    cbn [src_env src_readme src_package src_deploy src_remix src_vitest].
    split_and!; [exact Eenv|exact Ereadme|exact Eload|by exists dtext, wf
                |by exists rtext|by exists vtext|exact Epkg|exact Ed|].
    by rewrite E. }
  apply lift_inv in E1 as [-> E1].
  apply bind_inv_Throw in H as [H|(w4 & rs1 & _ & H)];
    [by apply startOps_no_Throw in H|].
  apply bind_inv_Throw in H as [H|(w' & ops2 & _ & H)];
    [by apply lift_inv in H as [_ H]|].
  apply bind_inv_Throw in H as [H|(w5 & rs2 & _ & H)];
    [by apply startOps_no_Throw in H|].
  apply bind_inv_Throw in H as [H|(w'' & ops3 & _ & H)];
    [by apply lift_inv in H as [_ H]|].
  apply bind_inv_Throw in H as [H|(w6 & rs3 & _ & H)];
    [by apply startOps_no_Throw in H|].
  by apply ret_no_Throw in H.
Qed.


(** *** The properties above on the sample projects *)

(** The directory [/home/dev/My Cool App!] gives [My-Cool-App-]. *)
Lemma APP_NAME_last_segment_sample :
  APP_NAME (join (js "/home/dev") (js "My Cool App!")) = js "My-Cool-App-".
Proof.
  destruct (APP_NAME_last_segment (js "/home/dev") (js "My Cool App!"))
    as [-> _]; [done|vm_compute; repeat constructor; done|reflexivity].
Defined.

(** An assignment that does not start its line is left alone. *)
Lemma newEnv_unchanged_sample :
  newEnv sampleHost (js " SESSION_SECRET=indented")
  = js " SESSION_SECRET=indented".
Proof.
  apply newEnv_unchanged. intros a b E Hb [[-> _]|(p & t & -> & Ht)].
  - simpl in E. by subst b.
  - assert (Forall (λ c, isLineTerminator c = false)
              (js " SESSION_SECRET=indented")) as Hall
      by (vm_compute; repeat constructor).
    rewrite E in Hall. apply Forall_app in Hall as [Hall _].
    apply Forall_app in Hall as [_ Hall].
    apply Forall_inv in Hall. simpl in Hall. congruence.
Defined.

Lemma startsWith_short (pat s : jsstring) :
  (length s < length pat)%nat → startsWith pat s = false.
Proof.
  intros H. apply not_true_is_false. intros Hs.
  apply startsWith_length in Hs. lia.
Qed.

(** In a project directory named [my-app], [# RemixStack app] becomes
    [# my-app app]. *)
Lemma readme_rewrite_sample :
  replaceAll (js "RemixStack") (APP_NAME (js "/home/dev/my-app"))
    (js "# RemixStack app")
  = js "# my-app app".
Proof.
  apply (readme_rewrite (js "/home/dev/my-app") (js "# ") [js " app"]).
  split.
  - intros a1 a2 E Hne.
    destruct a1 as [|x [|y [|z a1]]]; vm_compute in E.
    + by subst a2.
    + injection E as _ <-. reflexivity.
    + injection E as _ _ <-. done.
    + by destruct a1.
  - intros a b E. apply startsWith_short.
    apply (f_equal length) in E. rewrite length_app in E.
    change (length (js " app")) with 4 in E.
    change (length (js "RemixStack")) with 10. lia.
Defined.

(** Declining the integration and asking for the validation, with npm,
    on a host whose commands leave a file: the validate script has run,
    and its file is on the disk. *)
Lemma declined_flow_sample :
  let host := logging (λ name, Answered (bool_decide (name = js "validate"))) in
  let w' := (askSetupQuestions host sampleRoot npm sampleWorld).1 in
  events w'
  = [ Asked (js "amplify"); Asked (js "cli"); Asked (js "validate");
      Logged (js "Running the validate script to make sure everything was set up properly");
      Executed (js "npm run validate ") (Some sampleRoot);
      Logged (readyMessage (js "npm run dev ")) ]
  ∧ readFile (disk w') (join sampleRoot (js "npm-debug.log"))
    = Ok (js "npm run validate ").
Proof.
  intros host w'. subst w'.
  remember (askSetupQuestions host sampleRoot npm sampleWorld) as r eqn:Er.
  assert (H2 : r.2 = Ok tt) by (rewrite Er; vm_compute; reflexivity).
  destruct r as [w' res]. cbn [fst snd] in *. subst res. symmetry in Er.
  destruct (declined_flow host sampleRoot npm true sampleWorld w' Er
              eq_refl eq_refl) as [-> _].
  split; [reflexivity|by vm_compute].
Defined.

(** Accepting the integration with yarn. *)
Lemma amplify_fails_without_npm_sample :
  finish amplifyOnly sampleRoot yarn [] sampleWorld
  = (elapse amplifyOnly sampleWorld
       [ Asked (js "amplify"); Asked (js "cli");
         Logged (js "Installing amplify in project") ],
     Throw (plain TypeError)).
Proof.
  apply (amplify_fails_without_npm amplifyOnly sampleRoot yarn false
           sampleWorld []); [done|reflexivity|reflexivity|reflexivity].
Defined.

(** Accepting everything with npm, on a host whose commands leave a
    file: the five commands have run in the project, and the file is
    the one of the last of them. *)
Lemma amplify_with_npm_sample :
  let host := logging (λ _, Answered true) in
  let r := askSetupQuestions host sampleRoot npm sampleWorld in
  r.2 = Ok tt
  ∧ commandsOf (events r.1)
    = [ js "npm install -g @aws-amplify/cli"; js "npm install  aws-amplify";
        js "npx amplify configure"; js "npx amplify init";
        js "npm run validate " ]
  ∧ readFile (disk r.1) (join sampleRoot (js "npm-debug.log"))
    = Ok (js "npm run validate ").
Proof.
  intros host r. subst r.
  rewrite (amplify_with_npm host sampleRoot (λ _ _, eq_refl) true true
             sampleWorld); [|reflexivity..].
  split; [reflexivity|]. split; by vm_compute.
Defined.

(** The operations of a run in the reverse order leave the same disk. *)
Lemma batch_order_irrelevant_sample :
  let ops := allOperations false sampleRoot (js "S=1") (js "# app") (js "{}")
               (js "jobs: {}") (js "server.js") (js "setup-test-env.js") in
  (start (rev ops) templateDisk).1 = (start ops templateDisk).1.
Proof.
  intros ops. apply batch_order_irrelevant. apply Permutation_rev.
Defined.

(** The plain variant on the template: the secret, the name and the
    configuration are written. *)
Lemma scaffold_writes_sample :
  let after := disk (scaffold sampleHost false sampleRoot templateWorld).1 in
  readFile after (ENV_PATH sampleRoot)
  = Ok (newEnv sampleHost (js "SESSION_SECRET=old"))
  ∧ readFile after (REMIX_CONFIG_PATH sampleRoot) = Ok (js "server.js").
Proof.
  intros after. subst after.
  remember (scaffold sampleHost false sampleRoot templateWorld) as r eqn:Er.
  assert (H2 : r.2 = Ok [Ok tt; Ok tt; Ok tt; Ok tt; Ok tt; Ok tt;
                         Throw (plain EISDIR); Ok tt; Ok tt; Ok tt])
    by (rewrite Er; vm_compute; reflexivity).
  destruct r as [w1 res]. cbn [fst snd] in *. subst res. symmetry in Er.
  destruct (scaffold_writes sampleHost false sampleRoot templateWorld _ _ Er)
    as (s & pkg & Hs & _ & Henv & _ & _ & Hplain).
  destruct Hs as (Hse & _ & _ & _ & (rc & Hrc & Hsr) & _).
  destruct (Hplain eq_refl) as (dt & rt & vt & Ht & _ & Hremix & _).
  unfold plainTexts in Ht. rewrite Hsr in Ht.
  destruct (dropTypecheckJob (src_deploy s)); [|done].
  destruct (src_vitest s); [|done].
  assert (rt = newRemixConfig rc) as -> by congruence.
  assert (src_env s = js "SESSION_SECRET=old") as Ee.
  { vm_compute in Hse. by injection Hse. }
  assert (rc = js "server.ts") as ->.
  { vm_compute in Hrc. by injection Hrc. }
  rewrite Ee in Henv. split.
  - apply Henv; [apply not_elem_of_empty|vm_compute; discriminate].
  - apply Hremix; [apply not_elem_of_empty|vm_compute; discriminate].
Defined.

(** On the template the issue templates are removed with their
    directory, and the pull request template, a directory, is kept. *)
Lemma scaffold_housekeeping_sample :
  let after := disk (scaffold sampleHost false sampleRoot templateWorld).1 in
  files after !! join sampleRoot (js ".github/ISSUE_TEMPLATE/bug_report.yml")
  = None
  ∧ files after !! join sampleRoot (js ".github/PULL_REQUEST_TEMPLATE.md")
    = Some Directory.
Proof.
  intros after. subst after.
  remember (scaffold sampleHost false sampleRoot templateWorld) as r eqn:Er.
  assert (H2 : r.2 = Ok [Ok tt; Ok tt; Ok tt; Ok tt; Ok tt; Ok tt;
                         Throw (plain EISDIR); Ok tt; Ok tt; Ok tt])
    by (rewrite Er; vm_compute; reflexivity).
  destruct r as [w1 res]. cbn [fst snd] in *. subst res. symmetry in Er.
  destruct (scaffold_housekeeping sampleHost false sampleRoot templateWorld
              _ _ Er) as (_ & Htree & Hrm).
  split.
  - apply Htree; [vm_compute; reflexivity|apply not_elem_of_empty|].
    right. vm_compute. reflexivity.
  - destruct (Hrm (js "PULL_REQUEST_TEMPLATE.md")) as [_ Hdir]; [by right|].
    apply Hdir. vm_compute. reflexivity.
Defined.

(** A workflow without jobs: the plain variant fails after the common
    operations, the environment file being written already. *)
Lemma scaffold_failure_sample :
  let r := scaffold withoutJobs false sampleRoot templateWorld in
  r.2 = Throw (plain TypeError)
  ∧ r.1 ≠ templateWorld
  ∧ is_Some (files (disk r.1) !! ENV_PATH sampleRoot).
Proof.
  intros r0. subst r0.
  assert (files (disk templateWorld) !! ENV_PATH sampleRoot = None) as Hnone
    by (vm_compute; reflexivity).
  remember (scaffold withoutJobs false sampleRoot templateWorld) as r eqn:Er.
  assert (E : r.2 = Throw (plain TypeError))
    by (rewrite Er; vm_compute; reflexivity).
  assert (Hsome : is_Some (files (disk r.1) !! ENV_PATH sampleRoot)).
  { rewrite Er. vm_compute. by eexists. }
  destruct r as [w1 res]. cbn [fst snd] in *. subst res. symmetry in Er.
  split; [reflexivity|]. split; [|exact Hsome].
  destruct (scaffold_failure withoutJobs false sampleRoot templateWorld
              _ _ Er) as [Hw|_];
    intros Hw'; rewrite ?Hw, ?Hw' in Hsome; rewrite Hnone in Hsome;
    by destruct Hsome.
Defined.

End InitFacts.
